(** * Workflow validator and dry-run executor

    A shallow embedding of [Calyb/tools/workflow_validator.py] and
    [Calyb/tools/dry_run_executor.py], and the properties of the
    specification that were checked against it.

    Conventions of the embedding.
    - A workflow is what [json.load] returns: a tree of [None], booleans,
      integers, strings, lists and dictionaries.  Float literals are not
      part of the model.
    - Strings are sequences of code points below 256; [lower] and [title]
      act on the ASCII letters only.
    - A Python method of an object is a computation in the monad [Py S],
      where [S] is the record of the object's fields; an exception that
      leaves the method is the outcome [Raise].
    - An f-string is kept as the list of its parts, literal text and
      interpolated values; the conversion of a value to text is not
      computed.
    - The interpreter bounds the depth of the call stack.  The two
      functions of the program that call themselves, [dfs] and
      [_resolve_inputs], raise [RecursionError] beyond a number of nested
      calls that is a parameter of the development ([Interpreter]); the
      frames that the library functions need are not counted. *)

From Stdlib Require Import ZArith String Ascii List Bool DecimalString DecimalZ.
From stdpp Require Import base decidable option list strings countable gmap.
Import ListNotations.

Local Open Scope string_scope.
Local Open Scope list_scope.
Local Open Scope Z_scope.
Local Open Scope nat_scope.

(** ** Values *)

#[local] Set Warnings "-register-all,-clear-no-such-hyp".

Inductive json : Type :=
| JNull
| JBool (b : bool)
| JInt (z : Z)
| JStr (s : string)
| JArr (items : list json)
| JObj (members : list (string * json)).

(** Keys of sets and dictionaries: [True == 1] and [False == 0], lists and
    dictionaries are unhashable. *)
Inductive hkey : Type :=
| KNone
| KNum (z : Z)
| KStr (s : string).

Inductive exn : Type :=
| KeyError (k : hkey)
| TypeError
| AttributeError
| RecursionError.

(** The result of an expression that may raise. *)
Definition result (A : Type) : Type := exn + A.

(** How deep the interpreter lets the two recursive functions nest before
    it raises [RecursionError]: the number of nested calls of [dfs]
    that fit on the stack where [_has_circular_dependency] starts the
    search, and the number of nested calls of [_resolve_inputs] that fit
    where [_simulate_step] calls it.  Both depend on the recursion limit
    of the interpreter and on the frames in use, and are left open. *)
Class Interpreter : Type := {
  dfs_limit : nat;
  resolve_limit : nat
}.

(** ** The monad of methods *)

Inductive outcome (S A : Type) : Type :=
| Ok (a : A) (s : S)
| Raise (e : exn) (s : S).
Arguments Ok {S A} a s.
Arguments Raise {S A} e s.

Definition Py (S A : Type) : Type := S -> outcome S A.

Definition final_state {S A} (o : outcome S A) : S :=
  match o with Ok _ s => s | Raise _ s => s end.

Definition py_ret {S A} (a : A) : Py S A := fun s => Ok a s.

Definition py_bind {S A B} (m : Py S A) (f : A -> Py S B) : Py S B :=
  fun s => match m s with
           | Ok a s' => f a s'
           | Raise e s' => Raise e s'
           end.

Definition py_raise {S A} (e : exn) : Py S A := fun s => Raise e s.

Definition lift {S A} (r : result A) : Py S A :=
  match r with inl e => py_raise e | inr a => py_ret a end.

Definition gets {S A} (f : S -> A) : Py S A := fun s => Ok (f s) s.
Definition modify {S} (f : S -> S) : Py S unit := fun s => Ok tt (f s).

#[global] Instance Py_ret {S} : MRet (Py S) := @py_ret S.
#[global] Instance Py_bind {S} : MBind (Py S) := fun A B f m => py_bind m f.

(** [for x in xs: body(x)] *)
Fixpoint for_each {S A} (xs : list A) (body : A -> Py S unit) : Py S unit :=
  match xs with
  | [] => py_ret tt
  | x :: xs' => py_bind (body x) (fun _ => for_each xs' body)
  end.

Definition when {S} (b : bool) (m : Py S unit) : Py S unit :=
  if b then m else py_ret tt.

(** ** Strings *)

Definition code (c : ascii) : nat := nat_of_ascii c.

Definition in_range (lo hi : nat) (c : ascii) : bool :=
  (lo <=? code c) && (code c <=? hi).

Definition is_upper (c : ascii) : bool := in_range 65 90 c.
Definition is_lower (c : ascii) : bool := in_range 97 122 c.
Definition is_digit (c : ascii) : bool := in_range 48 57 c.

Definition lower_char (c : ascii) : ascii :=
  if is_upper c then ascii_of_nat (code c + 32) else c.
Definition upper_char (c : ascii) : ascii :=
  if is_lower c then ascii_of_nat (code c - 32) else c.

(** [s.lower()] *)
Fixpoint lower (s : string) : string :=
  match s with
  | EmptyString => EmptyString
  | String c s' => String (lower_char c) (lower s')
  end.

(** [s.title()]: a letter that follows a letter is lowered, any other
    letter is raised. *)
Fixpoint title_from (previous_is_cased : bool) (s : string) : string :=
  match s with
  | EmptyString => EmptyString
  | String c s' =>
      String (if previous_is_cased then lower_char c else upper_char c)
             (title_from (is_upper c || is_lower c) s')
  end.
Definition title (s : string) : string := title_from false s.

(** [needle in hay] on strings *)
Fixpoint contains (needle hay : string) : bool :=
  String.prefix needle hay ||
  match hay with
  | EmptyString => false
  | String _ hay' => contains needle hay'
  end.

(** [sep.join(xs)] *)
Fixpoint join (sep : string) (xs : list string) : string :=
  match xs with
  | [] => ""
  | [x] => x
  | x :: xs' => x +:+ sep +:+ join sep xs'
  end.

Fixpoint chars (s : string) : list string :=
  match s with
  | EmptyString => []
  | String c s' => String c EmptyString :: chars s'
  end.

(** [str(n)] for an integer *)
Definition str_of_Z (z : Z) : string := NilZero.string_of_int (Z.to_int z).

(** ** Operations on values *)

Fixpoint lookup_key (k : string) (m : list (string * json)) : option json :=
  match m with
  | [] => None
  | (k', v) :: m' => if String.eqb k k' then Some v else lookup_key k m'
  end.

Definition has_key (k : string) (m : list (string * json)) : bool :=
  match lookup_key k m with Some _ => true | None => false end.

Definition is_str (k : string) (v : json) : bool :=
  match v with JStr s => String.eqb s k | _ => false end.

(** [v == k] and [v in [k1, ..., kn]] for string literals *)
Definition one_of (ks : list string) (v : json) : bool :=
  existsb (fun k => is_str k v) ks.

(** [k in c] *)
Definition py_in (k : string) (c : json) : result bool :=
  match c with
  | JObj m => inr (has_key k m)
  | JArr l => inr (existsb (is_str k) l)
  | JStr s => inr (contains k s)
  | _ => inl TypeError
  end.

(** [c.get(k, default)] *)
Definition py_get (c : json) (k : string) (default : json) : result json :=
  match c with
  | JObj m => inr (match lookup_key k m with Some v => v | None => default end)
  | _ => inl AttributeError
  end.

(** [c[k]] *)
Definition py_getitem (c : json) (k : string) : result json :=
  match c with
  | JObj m => match lookup_key k m with Some v => inr v | None => inl (KeyError (KStr k)) end
  | _ => inl TypeError
  end.

(** [for x in c] *)
Definition py_iter (c : json) : result (list json) :=
  match c with
  | JArr l => inr l
  | JObj m => inr (map (fun kv => JStr (fst kv)) m)
  | JStr s => inr (map JStr (chars s))
  | _ => inl TypeError
  end.

(** [c.items()] and [c.keys()] *)
Definition py_items (c : json) : result (list (string * json)) :=
  match c with JObj m => inr m | _ => inl AttributeError end.
Definition py_keys (c : json) : result (list string) :=
  match c with JObj m => inr (map fst m) | _ => inl AttributeError end.

(** [bool(v)] *)
Definition truthy (v : json) : bool :=
  match v with
  | JNull => false
  | JBool b => b
  | JInt z => negb (Z.eqb z 0)
  | JStr s => negb (String.eqb s "")
  | JArr l => match l with [] => false | _ => true end
  | JObj m => match m with [] => false | _ => true end
  end.

#[global] Instance hkey_eq_dec : EqDecision hkey.
Proof. solve_decision. Defined.

#[global] Instance hkey_countable : Countable hkey.
Proof.
  refine (inj_countable'
    (fun k => match k with
              | KNone => inl tt
              | KNum z => inr (inl z)
              | KStr s => inr (inr s)
              end)
    (fun x => match x with
              | inl _ => KNone
              | inr (inl z) => KNum z
              | inr (inr s) => KStr s
              end) _).
  intros []; reflexivity.
Defined.

Definition hash_key (v : json) : result hkey :=
  match v with
  | JNull => inr KNone
  | JBool b => inr (KNum (if b then 1%Z else 0%Z))
  | JInt z => inr (KNum z)
  | JStr s => inr (KStr s)
  | JArr _ | JObj _ => inl TypeError
  end.

(** ** json.dumps *)

Definition dq : string := String (ascii_of_nat 34) "".
Definition nl : string := String (ascii_of_nat 10) "".
Definition bs : string := String (ascii_of_nat 92) "".

Definition hex_digit (n : nat) : ascii :=
  if n <? 10 then ascii_of_nat (48 + n) else ascii_of_nat (87 + n).

(** One character of a string literal, as [json.dumps] writes it with
    [ensure_ascii] on. *)
Definition escape_char (c : ascii) : string :=
  let n := code c in
  if n =? 34 then bs +:+ dq
  else if n =? 92 then bs +:+ bs
  else if n =? 10 then "\n"
  else if n =? 13 then "\r"
  else if n =? 9 then "\t"
  else if n =? 8 then "\b"
  else if n =? 12 then "\f"
  else if (n <? 32) || (126 <? n) then
    "\u00" +:+ String (hex_digit (n / 16)) (String (hex_digit (n mod 16)) "")
  else String c "".

Fixpoint escape (s : string) : string :=
  match s with
  | EmptyString => EmptyString
  | String c s' => escape_char c +:+ escape s'
  end.

Definition json_quote (s : string) : string := dq +:+ escape s +:+ dq.

Fixpoint json_dumps (v : json) : string :=
  match v with
  | JNull => "null"
  | JBool true => "true"
  | JBool false => "false"
  | JInt z => str_of_Z z
  | JStr s => json_quote s
  | JArr l => "[" +:+ join ", " (map json_dumps l) +:+ "]"
  | JObj m =>
      "{" +:+ join ", " (map (fun kv => let '(k, x) := kv in
                                        json_quote k +:+ ": " +:+ json_dumps x) m)
          +:+ "}"
  end.

(** ** Regular expressions

    The patterns of the two modules use literals, character classes, the
    greedy [?], [*] and [+], groups, [^] and [$].  [rmatch] is a
    backtracking matcher: it tries the greedy choice first and falls back
    when the rest of the pattern fails, as [re] does. *)

Inductive regex : Type :=
| Eps
| Chr (p : ascii -> bool)
| Seq (r1 r2 : regex)
| Opt (r : regex)
| Star (r : regex)
| Group (r : regex)
| Bol
| Eol.

Definition Plus (r : regex) : regex := Seq r (Star r).

Fixpoint Lit (s : string) : regex :=
  match s with
  | EmptyString => Eps
  | String c s' => Seq (Chr (Ascii.eqb c)) (Lit s')
  end.

Fixpoint cat (rs : list regex) : regex :=
  match rs with
  | [] => Eps
  | r :: rs' => Seq r (cat rs')
  end.

(** [pos] is the offset of [s] in the subject, [caps] the groups closed so
    far.  [$] matches at the end and before a final newline. *)
Fixpoint rmatch {R} (r : regex) (pos : nat) (s : string) (caps : list string)
    (k : nat -> string -> list string -> option R) : option R :=
  match r with
  | Eps => k pos s caps
  | Chr p =>
      match s with
      | String c s' => if p c then k (S pos) s' caps else None
      | EmptyString => None
      end
  | Seq r1 r2 =>
      rmatch r1 pos s caps (fun pos' s' caps' => rmatch r2 pos' s' caps' k)
  | Opt r1 =>
      match rmatch r1 pos s caps k with
      | Some x => Some x
      | None => k pos s caps
      end
  | Star r1 =>
      (fix loop (fuel pos : nat) (s : string) (caps : list string) : option R :=
         match fuel with
         | 0 => k pos s caps
         | S fuel' =>
             match rmatch r1 pos s caps
                     (fun pos' s' caps' =>
                        if pos <? pos' then loop fuel' pos' s' caps' else None) with
             | Some x => Some x
             | None => k pos s caps
             end
         end) (String.length s) pos s caps
  | Group r1 =>
      rmatch r1 pos s caps
        (fun pos' s' caps' => k pos' s' (caps' ++ [substring 0 (pos' - pos) s]))
  | Bol => if pos =? 0 then k pos s caps else None
  | Eol =>
      match s with
      | EmptyString => k pos s caps
      | String c EmptyString => if code c =? 10 then k pos s caps else None
      | _ => None
      end
  end.

(** A match of [r] that starts at [s]: the offset of its end and its groups. *)
Definition match_at (r : regex) (pos : nat) (s : string) : option (nat * list string) :=
  rmatch r pos s [] (fun pos' _ caps => Some (pos', caps)).

(** [re.match(r, s)] *)
Definition re_match (r : regex) (s : string) : bool :=
  match match_at r 0 s with Some _ => true | None => false end.

(** [re.search(r, s)] *)
Fixpoint search_from (r : regex) (pos : nat) (s : string) : bool :=
  match match_at r pos s with
  | Some _ => true
  | None =>
      match s with
      | EmptyString => false
      | String _ s' => search_from r (S pos) s'
      end
  end.
Definition re_search (r : regex) (s : string) : bool := search_from r 0 s.

(** [re.findall(r, s)]: the groups of the matches, left to right, a match
    starting where the previous one ended.  [skip] counts the characters
    of the current match still to pass. *)
Fixpoint findall_from (r : regex) (skip pos : nat) (s : string) : list (list string) :=
  match skip with
  | S skip' =>
      match s with
      | EmptyString => []
      | String _ s' => findall_from r skip' (S pos) s'
      end
  | 0 =>
      match match_at r pos s with
      | Some (pos', caps) =>
          caps :: match s with
                  | EmptyString => []
                  | String _ s' => findall_from r (pos' - pos - 1) (S pos) s'
                  end
      | None =>
          match s with
          | EmptyString => []
          | String _ s' => findall_from r 0 (S pos) s'
          end
      end
  end.
Definition re_findall (r : regex) (s : string) : list (list string) :=
  findall_from r 0 0 s.

(** [re.sub(r, repl, s)] with [repl] a function of the groups. *)
Fixpoint sub_from (r : regex) (repl : list string -> string) (skip pos : nat)
    (s : string) : string :=
  match skip with
  | S skip' =>
      match s with
      | EmptyString => EmptyString
      | String _ s' => sub_from r repl skip' (S pos) s'
      end
  | 0 =>
      match match_at r pos s with
      | Some (pos', caps) =>
          repl caps +:+
          match s with
          | EmptyString => EmptyString
          | String c s' =>
              if pos' =? pos then String c (sub_from r repl 0 (S pos) s')
              else sub_from r repl (pos' - pos - 1) (S pos) s'
          end
      | None =>
          match s with
          | EmptyString => EmptyString
          | String c s' => String c (sub_from r repl 0 (S pos) s')
          end
      end
  end.
Definition re_sub (r : regex) (repl : list string -> string) (s : string) : string :=
  sub_from r repl 0 0 s.

Definition is_char (s : string) (c : ascii) : bool :=
  match s with String c' EmptyString => Ascii.eqb c c' | _ => false end.

Definition any_of (s : string) (c : ascii) : bool :=
  existsb (fun x => is_char x c) (chars s).

Definition none_of (s : string) (c : ascii) : bool := negb (any_of s c).

(** [\s] and [\d] on the code points of the model *)
Definition is_space (c : ascii) : bool :=
  in_range 9 13 c || in_range 28 32 c || (code c =? 133) || (code c =? 160).

Definition quotes : string := String (ascii_of_nat 34) "'".

(** [^[a-z][a-z0-9_]*$] *)
Definition snake_case_re : regex :=
  cat [Bol; Chr is_lower;
       Star (Chr (fun c => is_lower c || is_digit c || is_char "_" c)); Eol].

(** [^\d+\.\d+\.\d+$] *)
Definition semver_re : regex :=
  cat [Bol; Plus (Chr is_digit); Lit "."; Plus (Chr is_digit); Lit ".";
       Plus (Chr is_digit); Eol].

(** [\{\{steps\.([^.]+)\.outputs\.([^}]+)\}\}] *)
Definition step_ref_re : regex :=
  cat [Lit "{{steps."; Group (Plus (Chr (none_of "."))); Lit ".outputs.";
       Group (Plus (Chr (none_of "}"))); Lit "}}"].

(** [\{\{inputs\.([^}]+)\}\}] *)
Definition input_ref_re : regex :=
  cat [Lit "{{inputs."; Group (Plus (Chr (none_of "}"))); Lit "}}"].

(** [name["\']?\s*[:=]\s*["\'][^"\']+["\']] *)
Definition assignment_re (name : regex) : regex :=
  cat [name; Opt (Chr (any_of quotes)); Star (Chr is_space); Chr (any_of ":=");
       Star (Chr is_space); Chr (any_of quotes); Plus (Chr (none_of quotes));
       Chr (any_of quotes)].

Definition password_re : regex := assignment_re (Lit "password").
Definition token_re : regex := assignment_re (Lit "token").
(** [api[_-]?key...] *)
Definition api_key_re : regex :=
  assignment_re (cat [Lit "api"; Opt (Chr (any_of "_-")); Lit "key"]).
Definition secret_re : regex := assignment_re (Lit "secret").

(** The step references of a text, as pairs (step, field). *)
Definition step_refs (text : string) : list (string * string) :=
  omap (fun caps => match caps with
                    | [x; y] => Some (x, y)
                    | _ => None
                    end) (re_findall step_ref_re text).

(** [re.match(r, v)]: the subject must be a string. *)
Definition py_re_match (r : regex) (v : json) : result bool :=
  match v with
  | JStr s => inr (re_match r s)
  | _ => inl TypeError
  end.

(** [enumerate(xs)] *)
Fixpoint enumerate_from {A} (i : nat) (xs : list A) : list (nat * A) :=
  match xs with
  | [] => []
  | x :: xs' => (i, x) :: enumerate_from (S i) xs'
  end.
Definition enumerate {A} (xs : list A) : list (nat * A) := enumerate_from 0 xs.

(** A loop that updates a local variable. *)
Fixpoint for_fold {S A B} (xs : list A) (acc : B) (body : A -> B -> Py S B) : Py S B :=
  match xs with
  | [] => py_ret acc
  | x :: xs' => py_bind (body x acc) (fun acc' => for_fold xs' acc' body)
  end.

(** ** WorkflowValidator *)

(** The parts of an f-string: text, a value, the set of unknown keys,
    and [json.dumps(v, indent=10)[:200]]. *)
Inductive part : Type :=
| Txt (s : string)
| Val (v : json)
| SetOf (ks : list string)
| Dump200 (v : json).

Definition message : Type := list part.

Record WorkflowValidator : Type := mkValidator {
  strict_mode : bool;
  errors : list message;
  warnings : list message;
  info : list message
}.

(** [__init__] *)
Definition init (strict_mode : bool) : WorkflowValidator :=
  mkValidator strict_mode [] [] [].

Abbreviation V := (Py WorkflowValidator).

Definition add_error (m : message) : V unit :=
  modify (fun self => mkValidator (strict_mode self) (errors self ++ [m])
                                  (warnings self) (info self)).
Definition add_warning (m : message) : V unit :=
  modify (fun self => mkValidator (strict_mode self) (errors self)
                                  (warnings self ++ [m]) (info self)).
Definition add_info (m : message) : V unit :=
  modify (fun self => mkValidator (strict_mode self) (errors self)
                                  (warnings self) (info self ++ [m])).

Definition valid_keys : list string :=
  ["metadata"; "inputs"; "security"; "validation"; "steps"; "execution_config";
   "observability"; "documentation"].

Definition _validate_structure (workflow : json) : V unit :=
  for_each ["metadata"; "inputs"; "security"; "steps"] (fun key =>
    present ← lift (py_in key workflow);
    when (negb present)
      (add_error [Txt "Missing required key: '"; Val (JStr key); Txt "'"]));;
  keys ← lift (py_keys workflow);
  let unknown := List.filter (fun k => negb (existsb (String.eqb k) valid_keys)) keys in
  when (negb (Nat.eqb (length unknown) 0))
    (add_warning [Txt "Unknown top-level keys: "; SetOf unknown]).

Definition _validate_metadata (metadata : json) : V unit :=
  for_each ["workflow_name"; "workflow_id"; "platform"; "schema_version"] (fun field =>
    present ← lift (py_in field metadata);
    when (negb present)
      (add_error [Txt "metadata."; Val (JStr field); Txt " is required"]));;
  has_name ← lift (py_in "workflow_name" metadata);
  (if has_name : bool then
     name ← lift (py_getitem metadata "workflow_name");
     ok ← lift (py_re_match snake_case_re name);
     when (negb ok)
       (add_error [Txt "workflow_name '"; Val name;
                   Txt "' must be snake_case starting with a letter"])
   else mret tt);;
  has_version ← lift (py_in "schema_version" metadata);
  (if has_version : bool then
     version ← lift (py_getitem metadata "schema_version");
     ok ← lift (py_re_match semver_re version);
     when (negb ok)
       (add_error [Txt "schema_version '"; Val version;
                   Txt "' must be semver (e.g., 1.0.0)"])
   else mret tt);;
  has_idempotent ← lift (py_in "idempotent" metadata);
  when (negb has_idempotent)
    (add_warning [Txt "Consider declaring 'idempotent' status in metadata"]).

Definition _validate_inputs (inputs : json) : V unit :=
  has_required ← lift (py_in "required" inputs);
  has_optional ← (if has_required : bool then mret true
                  else lift (py_in "optional" inputs));
  if negb has_required && negb has_optional then
    add_warning [Txt "No inputs defined (required or optional)"]
  else
    required ← lift (py_get inputs "required" (JObj []));
    items ← lift (py_items required);
    for_each items (fun '(name, param) =>
      has_type ← lift (py_in "type" param);
      when (negb has_type)
        (add_error [Txt "Input '"; Val (JStr name); Txt "' missing 'type' field"]);;
      has_description ← lift (py_in "description" param);
      when (negb has_description)
        (add_warning [Txt "Input '"; Val (JStr name); Txt "' missing description"]);;
      type ← lift (py_get param "type" JNull);
      has_validation ← (if is_str "string" type then lift (py_in "validation" param)
                        else mret true);
      when (is_str "string" type && negb has_validation)
        (add_info [Txt "Input '"; Val (JStr name);
                   Txt "' (string) has no validation rules (consider adding pattern/length)"])).

Definition _validate_security (security : json) : V unit :=
  if negb (truthy security) then
    add_error [Txt "Security configuration is required"]
  else
    has_auth ← lift (py_in "auth_required" security);
    when (negb has_auth)
      (add_error [Txt "security.auth_required must be declared"]);;
    has_secrets ← lift (py_in "secrets_handling" security);
    (if negb has_secrets then
       add_error [Txt "security.secrets_handling must be declared"]
     else
       handling ← lift (py_getitem security "secrets_handling");
       when (negb (one_of ["runtime_injected"; "vault"; "env_var"] handling))
         (add_error [Txt "Invalid secrets_handling: "; Val handling]));;
    handling ← lift (py_get security "secrets_handling" JNull);
    (if is_str "runtime_injected" handling then
       add_info [Txt "[+] Credential-agnostic design (runtime_injected)"]
     else
       add_warning [Txt "Consider using 'runtime_injected' for better security"]);;
    has_role ← lift (py_in "minimum_role" security);
    when (negb has_role)
      (add_warning [Txt "Consider specifying 'minimum_role' for RBAC"]);;
    has_limit ← lift (py_in "rate_limit" security);
    when (negb has_limit)
      (add_warning [Txt "Consider adding rate_limit configuration"]).

Definition operations : list string := ["query"; "mutation"; "workflow"; "custom"].

Definition _validate_steps (steps : json) : V unit :=
  if negb (truthy steps) then
    add_error [Txt "Workflow must have at least one step"]
  else
    items ← lift (py_iter steps);
    for_fold (enumerate items) (∅ : gset hkey) (fun '(i, step) step_ids =>
      let step_num := Z.of_nat (i + 1) in
      has_id ← lift (py_in "id" step);
      if negb has_id then
        add_error [Txt "Step "; Val (JInt step_num); Txt " missing 'id' field"];;
        mret step_ids
      else
        step_id ← lift (py_getitem step "id");
        key ← lift (hash_key step_id);
        when (bool_decide (key ∈ step_ids))
          (add_error [Txt "Duplicate step ID: '"; Val step_id; Txt "'"]);;
        let step_ids := step_ids ∪ {[key]} in
        ok ← lift (py_re_match snake_case_re step_id);
        when (negb ok)
          (add_error [Txt "Step ID '"; Val step_id;
                      Txt "' must be snake_case starting with a letter"]);;
        for_each ["operation"; "api_endpoint"] (fun field =>
          present ← lift (py_in field step);
          when (negb present)
            (add_error [Txt "Step '"; Val step_id; Txt "' missing '";
                        Val (JStr field); Txt "' field"]));;
        operation ← lift (py_get step "operation" JNull);
        when (negb (one_of operations operation))
          (add_error [Txt "Step '"; Val step_id; Txt "' has invalid operation: ";
                      Val operation]);;
        has_handling ← lift (py_in "error_handling" step);
        when (negb has_handling)
          (add_warning [Txt "Step '"; Val step_id;
                        Txt "' has no error_handling configuration"]);;
        has_outputs ← (if is_str "mutation" operation then lift (py_in "outputs" step)
                       else mret true);
        when (is_str "mutation" operation && negb has_outputs)
          (add_warning [Txt "Mutation step '"; Val step_id;
                        Txt "' should declare 'outputs' for downstream dependencies"]);;
        has_telemetry ← lift (py_in "telemetry" step);
        when (negb has_telemetry)
          (add_info [Txt "Step '"; Val step_id; Txt "' has no telemetry configuration"]);;
        mret step_ids);;
    mret tt.

(** *** Cycle detection *)

(** A dictionary that remembers the order in which its keys arrived. *)
Fixpoint dict_set {A} (k : hkey) (v : A) (d : list (hkey * A)) : list (hkey * A) :=
  match d with
  | [] => [(k, v)]
  | (k', v') :: d' =>
      if bool_decide (k = k') then (k, v) :: d' else (k', v') :: dict_set k v d'
  end.

Fixpoint dict_get {A} (k : hkey) (d : list (hkey * A)) : option A :=
  match d with
  | [] => None
  | (k', v) :: d' => if bool_decide (k = k') then Some v else dict_get k d'
  end.

(** [{step['id']: step.get('depends_on', []) for step in steps if 'id' in step}] *)
Definition build_graph {S} (steps : list json) : Py S (list (hkey * json)) :=
  for_fold steps [] (fun step graph =>
    has_id ← lift (py_in "id" step);
    if has_id : bool then
      step_id ← lift (py_getitem step "id");
      depends_on ← lift (py_get step "depends_on" (JArr []));
      key ← lift (hash_key step_id);
      mret (dict_set key depends_on graph)
    else mret graph).

(** The two marker sets of the search. *)
Record marks : Type := mkMarks {
  visited : gset hkey;
  rec_stack : gset hkey
}.

Definition mark_visited (node : hkey) : Py marks unit :=
  modify (fun m => mkMarks (visited m ∪ {[node]}) (rec_stack m)).
Definition push_rec_stack (node : hkey) : Py marks unit :=
  modify (fun m => mkMarks (visited m) (rec_stack m ∪ {[node]})).
(** [rec_stack.remove(node)] *)
Definition pop_rec_stack (node : hkey) : Py marks unit :=
  fun m => if bool_decide (node ∈ rec_stack m)
           then Ok tt (mkMarks (visited m) (rec_stack m ∖ {[node]}))
           else Raise (KeyError node) m.

Section dfs.
Variable graph : list (hkey * json).

(** [graph.get(node, [])] *)
Definition neighbors (node : hkey) : json :=
  match dict_get node graph with Some v => v | None => JArr [] end.

(** The loop over the neighbours of a node; [true] when it returns
    [True] from [dfs]. *)
Fixpoint dfs_neighbors (dfs : hkey -> Py marks bool) (ns : list json) : Py marks bool :=
  match ns with
  | [] => mret false
  | neighbor :: ns' =>
      key ← lift (hash_key neighbor);
      seen ← gets visited;
      if bool_decide (key ∉ seen) then
        found ← dfs key;
        if found : bool then mret true else dfs_neighbors dfs ns'
      else
        active ← gets rec_stack;
        if bool_decide (key ∈ active) then mret true else dfs_neighbors dfs ns'
  end.

(** [dfs] with [depth] nested calls at its disposal: the call that
    would take one more raises [RecursionError]. *)
Fixpoint dfs (depth : nat) (node : hkey) : Py marks bool :=
  match depth with
  | 0 => py_raise RecursionError
  | S depth' =>
      mark_visited node;;
      push_rec_stack node;;
      ns ← lift (py_iter (neighbors node));
      found ← dfs_neighbors (dfs depth') ns;
      if found : bool then mret true
      else pop_rec_stack node;; mret false
  end.

(** [for node in graph: if node not in visited: if dfs(node): return True] *)
Fixpoint dfs_all (depth : nat) (nodes : list hkey) : Py marks bool :=
  match nodes with
  | [] => mret false
  | node :: nodes' =>
      seen ← gets visited;
      if bool_decide (node ∉ seen) then
        found ← dfs depth node;
        if found : bool then mret true else dfs_all depth nodes'
      else dfs_all depth nodes'
  end.

(** Every key of the graph and every hashable neighbour. *)
Definition hashable (v : json) : list hkey :=
  match hash_key v with inr k => [k] | inl _ => [] end.
Definition iterable (v : json) : list json :=
  match py_iter v with inr l => l | inl _ => [] end.
Definition graph_nodes : list hkey :=
  map fst graph ++ flat_map (fun kv => flat_map hashable (iterable (snd kv))) graph.
Definition universe : gset hkey := list_to_set graph_nodes.

(** The marks once [dfs] has entered a node. *)
Definition enter (node : hkey) (m : marks) : marks :=
  mkMarks (visited m ∪ {[node]}) (rec_stack m ∪ {[node]}).

(** [v] is among the neighbours that the search reads for [u]. *)
Definition edge (u v : hkey) : Prop :=
  exists n, In n (iterable (neighbors u)) /\ hash_key n = inr v.

(** Every value of the graph can be iterated and holds hashable items. *)
Definition graph_ok : Prop :=
  forall k v, In (k, v) graph ->
    exists ns, py_iter v = inr ns /\
               forall n, In n ns -> exists key, hash_key n = inr key.

(** A node that [dfs] has left. *)
Definition black (m : marks) (u : hkey) : Prop :=
  u ∈ visited m /\ u ∉ rec_stack m.

(** What holds between the calls of [dfs] as long as none has returned
    [True], for a node [a] on a cycle: the nodes left are closed under
    the edges, and [a] is not one of them. *)
Definition steady (a : hkey) (m : marks) : Prop :=
  rec_stack m ⊆ visited m /\
  (forall u v, black m u -> edge u v -> black m v) /\
  ~ black m a.
End dfs.

(** The search has [dfs_limit] nested calls of [dfs] at its disposal. *)
Definition _has_circular_dependency `{Interpreter} (steps : json) : V bool :=
  items ← lift (py_iter steps);
  graph ← build_graph items;
  match dfs_all graph dfs_limit (map fst graph) (mkMarks ∅ ∅) with
  | Ok found _ => mret found
  | Raise e _ => py_raise e
  end.

Definition _validate_dependencies `{Interpreter} (steps : json) : V unit :=
  items ← lift (py_iter steps);
  step_ids ← for_fold items (∅ : gset hkey) (fun step step_ids =>
    has_id ← lift (py_in "id" step);
    if has_id : bool then
      step_id ← lift (py_getitem step "id");
      key ← lift (hash_key step_id);
      mret (step_ids ∪ {[key]})
    else mret step_ids);
  for_each items (fun step =>
    step_id ← lift (py_get step "id" (JStr "unknown"));
    depends_on ← lift (py_get step "depends_on" (JArr []));
    deps ← lift (py_iter depends_on);
    for_each deps (fun dep_id =>
      key ← lift (hash_key dep_id);
      when (bool_decide (key ∉ step_ids))
        (add_error [Txt "Step '"; Val step_id; Txt "' depends on unknown step '";
                    Val dep_id; Txt "'"])));;
  circular ← _has_circular_dependency steps;
  when circular (add_error [Txt "Circular dependency detected in workflow steps"]).

(** *** Data flow *)

(** One reference of a step, against the outputs registered so far. *)
Definition check_ref (available_outputs : gmap hkey (gset string)) (step_id : json)
    (ref : string * string) : V unit :=
  let '(ref_step, ref_field) := ref in
  match available_outputs !! KStr ref_step with
  | None =>
      add_error [Txt "Step '"; Val step_id;
                 Txt "' references output from unknown step '";
                 Val (JStr ref_step); Txt "'"]
  | Some fields =>
      when (bool_decide (ref_field ∉ fields))
        (add_warning [Txt "Step '"; Val step_id; Txt "' references '";
                      Val (JStr ref_field); Txt "' which is not declared in step '";
                      Val (JStr ref_step); Txt "' outputs"])
  end.

(** The body of the loop over the steps. *)
Definition data_flow_step (step : json) (available_outputs : gmap hkey (gset string))
    : V (gmap hkey (gset string)) :=
  step_id ← lift (py_get step "id" (JStr "unknown"));
  inputs ← lift (py_get step "inputs" (JObj []));
  let inputs_str := json_dumps inputs in
  let refs := step_refs inputs_str in
  for_each refs (check_ref available_outputs step_id);;
  has_outputs ← lift (py_in "outputs" step);
  if has_outputs : bool then
    outputs ← lift (py_getitem step "outputs");
    keys ← lift (py_keys outputs);
    key ← lift (hash_key step_id);
    mret (<[key := list_to_set keys]> available_outputs)
  else mret available_outputs.

Definition _validate_data_flow (steps : json) : V unit :=
  items ← lift (py_iter steps);
  for_fold items ∅ data_flow_step;;
  mret tt.

(** *** Security audit and best practices *)

Definition suspicious_patterns : list (regex * string) :=
  [(password_re, "Possible hardcoded password");
   (token_re, "Possible hardcoded token");
   (api_key_re, "Possible hardcoded API key");
   (secret_re, "Possible hardcoded secret")].

Definition _audit_security (workflow : json) : V unit :=
  let workflow_str := lower (json_dumps workflow) in
  for_each suspicious_patterns (fun '(pattern, message) =>
    when (re_search pattern workflow_str)
      (add_error [Txt "SECURITY: "; Val (JStr message); Txt " found in workflow"]));;
  observability ← lift (py_get workflow "observability" (JObj []));
  audit ← lift (py_get observability "audit" (JObj []));
  log_inputs ← lift (py_get audit "log_inputs" JNull);
  (if truthy log_inputs then
     security ← lift (py_get workflow "security" (JObj []));
     pii_fields ← lift (py_get security "pii_fields" JNull);
     when (negb (truthy pii_fields))
       (add_warning [Txt "Audit logs inputs but no PII fields declared - consider privacy implications"])
   else mret tt).

(** The arrow of the first [info] text is written [->] here; the source has
    three characters above 255 in its place. *)
Definition _check_best_practices (workflow : json) : V unit :=
  has_documentation ← lift (py_in "documentation" workflow);
  (if negb has_documentation then
     add_warning [Txt "No documentation section found"]
   else
     doc ← lift (py_getitem workflow "documentation");
     has_gaps ← lift (py_in "semantic_gaps" doc);
     gaps ← (if has_gaps : bool then lift (py_getitem doc "semantic_gaps") else mret JNull);
     when (negb has_gaps || negb (truthy gaps))
       (add_info [Txt "Consider documenting semantic gaps (UI term -> API field)"]));;
  has_observability ← lift (py_in "observability" workflow);
  when (negb has_observability)
    (add_warning [Txt "No observability configuration found"]);;
  has_validation ← lift (py_in "validation" workflow);
  when (negb has_validation)
    (add_warning [Txt "No validation rules (pre/post conditions) defined"]);;
  exec_config ← lift (py_get workflow "execution_config" (JObj []));
  dry_run ← lift (py_get exec_config "dry_run_supported" JNull);
  when (negb (truthy dry_run))
    (add_info [Txt "Workflow does not support dry-run mode"]);;
  rollback ← lift (py_get exec_config "rollback_supported" JNull);
  when (negb (truthy rollback))
    (add_info [Txt "Workflow does not support rollback on failure"]).

(** *** validate *)

(** The line that [validate] prints before the checks is left out: the
    validator's state holds its three lists and the flag, and no check
    reads the standard output. *)
Definition validate `{Interpreter} (workflow : json) : V bool :=
  _validate_structure workflow;;
  metadata ← lift (py_get workflow "metadata" (JObj []));
  _validate_metadata metadata;;
  inputs ← lift (py_get workflow "inputs" (JObj []));
  _validate_inputs inputs;;
  security ← lift (py_get workflow "security" (JObj []));
  _validate_security security;;
  steps ← lift (py_get workflow "steps" (JArr []));
  _validate_steps steps;;
  steps ← lift (py_get workflow "steps" (JArr []));
  _validate_dependencies steps;;
  steps ← lift (py_get workflow "steps" (JArr []));
  _validate_data_flow steps;;
  _audit_security workflow;;
  _check_best_practices workflow;;
  errs ← gets errors;
  mret (Nat.eqb (length errs) 0).

(** ** DryRunExecutor *)

(** A synthesized output is a string or an integer. *)
Inductive mock : Type :=
| MockStr (s : string)
| MockInt (z : Z).

Definition mock_json (v : mock) : json :=
  match v with MockStr s => JStr s | MockInt z => JInt z end.

(** [str(v)] *)
Definition str_of_mock (v : mock) : string :=
  match v with MockStr s => s | MockInt z => str_of_Z z end.

(** [d[k] = v] on a dictionary with string keys *)
Fixpoint str_dict_set {A} (k : string) (v : A) (d : list (string * A)) : list (string * A) :=
  match d with
  | [] => [(k, v)]
  | (k', v') :: d' =>
      if String.eqb k k' then (k, v) :: d' else (k', v') :: str_dict_set k v d'
  end.

Fixpoint str_dict_get {A} (k : string) (d : list (string * A)) : option A :=
  match d with
  | [] => None
  | (k', v) :: d' => if String.eqb k k' then Some v else str_dict_get k d'
  end.

(** [len(c)] *)
Definition py_len (c : json) : result nat :=
  match c with
  | JArr l => inr (length l)
  | JObj m => inr (length m)
  | JStr s => inr (String.length s)
  | _ => inl TypeError
  end.

(** [sep.join(c)]: every item must be a string. *)
Fixpoint all_str (l : list json) : result (list string) :=
  match l with
  | [] => inr []
  | JStr s :: l' =>
      match all_str l' with inr ss => inr (s :: ss) | inl e => inl e end
  | _ :: _ => inl TypeError
  end.
Definition py_join (sep : string) (c : json) : result string :=
  match py_iter c with
  | inr l => match all_str l with inr ss => inr (join sep ss) | inl e => inl e end
  | inl e => inl e
  end.

(** The fields of the object, then what it has printed and how many
    times it has asked for a UUID and for the time. *)
Record DryRunExecutor : Type := mkExecutor {
  verbose : bool;
  execution_state : list (string * json);
  trace_id : string;
  simulated_outputs : list (hkey * list (string * mock));
  stdout : list message;
  uuids_drawn : nat;
  clock_reads : nat
}.

Abbreviation E := (Py DryRunExecutor).

Definition printed (self : DryRunExecutor) (m : message) : DryRunExecutor :=
  mkExecutor (verbose self) (execution_state self) (trace_id self)
    (simulated_outputs self) (stdout self ++ [m]) (uuids_drawn self) (clock_reads self).

Definition print (m : message) : E unit := modify (fun self => printed self m).

(** [self.simulated_outputs[step_id] = outputs] *)
Definition recorded (self : DryRunExecutor) (key : hkey) (outputs : list (string * mock))
    : DryRunExecutor :=
  mkExecutor (verbose self) (execution_state self) (trace_id self)
    (dict_set key outputs (simulated_outputs self)) (stdout self)
    (uuids_drawn self) (clock_reads self).

Definition record_outputs (key : hkey) (outputs : list (string * mock)) : E unit :=
  modify (fun self => recorded self key outputs).

(** [str(u)] for a UUID with the hexadecimal digits [h] *)
Definition uuid_str (h : string) : string :=
  substring 0 8 h +:+ "-" +:+ substring 8 4 h +:+ "-" +:+ substring 12 4 h +:+ "-"
  +:+ substring 16 4 h +:+ "-" +:+ substring 20 12 h.

(** The replacement of [{{steps.x.outputs.y}}] in [_resolve_inputs]. *)
Definition replace_ref (sim : list (hkey * list (string * mock))) (groups : list string)
    : string :=
  match groups with
  | [step_id; output_key] =>
      match dict_get (KStr step_id) sim with
      | Some outputs =>
          match str_dict_get output_key outputs with
          | Some v => str_of_mock v
          | None => "<" +:+ output_key +:+ ">"
          end
      | None => "<unresolved:" +:+ step_id +:+ "." +:+ output_key +:+ ">"
      end
  | _ => ""
  end.

(** The replacement [<input:\1>]. *)
Definition input_placeholder (groups : list string) : string :=
  "<input:" +:+ join "" groups +:+ ">".

(** A comprehension over calls that may raise: the items in order, up to
    the first that raises. *)
Fixpoint collect {A B} (f : A -> result B) (l : list A) : result (list B) :=
  match l with
  | [] => inr []
  | x :: l' =>
      match f x with
      | inl e => inl e
      | inr y =>
          match collect f l' with
          | inl e => inl e
          | inr ys => inr (y :: ys)
          end
      end
  end.

(** [_resolve_inputs] with [depth] nested calls at its disposal: the call
    itself takes one, also for a value that is no container. *)
Fixpoint resolve (depth : nat) (sim : list (hkey * list (string * mock))) (inputs : json)
    : result json :=
  match depth with
  | 0 => inl RecursionError
  | S depth' =>
      match inputs with
      | JObj m =>
          match collect (fun kv : string * json =>
                           match resolve depth' sim (snd kv) with
                           | inl e => inl e
                           | inr v => inr (fst kv, v)
                           end) m with
          | inl e => inl e
          | inr m' => inr (JObj m')
          end
      | JArr l =>
          match collect (resolve depth' sim) l with
          | inl e => inl e
          | inr l' => inr (JArr l')
          end
      | JStr s => inr (JStr (re_sub input_ref_re input_placeholder
                               (re_sub step_ref_re (replace_ref sim) s)))
      | _ => inr inputs
      end
  end.

(** The number of nested calls of [_resolve_inputs] that a value takes. *)
Fixpoint nesting (v : json) : nat :=
  match v with
  | JObj m => S (list_max (map (fun kv => nesting (snd kv)) m))
  | JArr l => S (list_max (map nesting l))
  | _ => 1
  end.

Definition _resolve_inputs `{Interpreter} (inputs : json) : E json :=
  sim ← gets simulated_outputs;
  lift (resolve resolve_limit sim inputs).

Section environment.
Context {interpreter : Interpreter}.
(** [uuid.uuid4().hex] and [datetime.now().isoformat()], by the number of
    earlier calls. *)
Variable uuid4_hex : nat -> string.
Variable now_isoformat : nat -> string.

(** [__init__] *)
Definition new_executor (verbose : bool) : DryRunExecutor :=
  mkExecutor verbose [] (uuid_str (uuid4_hex 0)) [] [] 1 0.

Definition draw_uuid_hex : E string :=
  fun self => Ok (uuid4_hex (uuids_drawn self))
                 (mkExecutor (verbose self) (execution_state self) (trace_id self)
                    (simulated_outputs self) (stdout self)
                    (S (uuids_drawn self)) (clock_reads self)).

Definition read_clock : E string :=
  fun self => Ok (now_isoformat (clock_reads self))
                 (mkExecutor (verbose self) (execution_state self) (trace_id self)
                    (simulated_outputs self) (stdout self)
                    (uuids_drawn self) (S (clock_reads self))).

(** The value synthesized for one output field. *)
Definition simulate_output (key : string) : E mock :=
  if contains "id" (lower key) then
    h ← draw_uuid_hex;
    mret (MockStr ("mock_" +:+ key +:+ "_" +:+ substring 0 8 h))
  else if contains "name" (lower key) then
    mret (MockStr ("Mock " +:+ title key))
  else if contains "date" (lower key) || contains "time" (lower key) then
    t ← read_clock;
    mret (MockStr t)
  else if contains "count" (lower key) then
    mret (MockInt 42)
  else
    mret (MockStr ("<mock_" +:+ key +:+ ">")).

Definition _simulate_outputs (step : json) : E (list (string * mock)) :=
  outputs ← lift (py_get step "outputs" (JObj []));
  items ← lift (py_items outputs);
  for_fold items [] (fun '(key, jsonpath) simulated =>
    v ← simulate_output key;
    mret (str_dict_set key v simulated)).

Definition mocks_json (outputs : list (string * mock)) : json :=
  JObj (map (fun kv => (fst kv, mock_json (snd kv))) outputs).

(** The conditional at the end of [_simulate_step]. *)
Definition simulate_operation (step step_id operation : json) : E unit :=
  if is_str "query" operation then
    print [Txt "       [+] Query executed (read-only)"];;
    outputs ← _simulate_outputs step;
    key ← lift (hash_key step_id);
    record_outputs key outputs;;
    when (negb (Nat.eqb (length outputs) 0))
      (print [Txt "       Outputs: "; Val (mocks_json outputs)])
  else if is_str "mutation" operation then
    print [Txt "       [~] Mutation SKIPPED (dry-run mode)"];;
    outputs ← _simulate_outputs step;
    key ← lift (hash_key step_id);
    record_outputs key outputs;;
    when (negb (Nat.eqb (length outputs) 0))
      (print [Txt "       Simulated Outputs: "; Val (mocks_json outputs)])
  else if is_str "workflow" operation then
    workflow_ref ← lift (py_get step "workflow_ref" (JStr "unknown"));
    print [Txt "       [~] Sub-workflow '"; Val workflow_ref; Txt "' SKIPPED"]
  else mret tt.

Definition _simulate_step (step : json) : E bool :=
  step_id ← lift (py_get step "id" (JStr "unknown"));
  operation ← lift (py_get step "operation" (JStr "unknown"));
  raw_inputs ← lift (py_get step "inputs" (JObj []));
  inputs ← _resolve_inputs raw_inputs;
  is_verbose ← gets verbose;
  when (is_verbose && truthy inputs)
    (print [Txt "       Inputs: "; Dump200 inputs; Txt "..."]);;
  simulate_operation step step_id operation;;
  mret true.

(** The loop over [depends_on]; [false] when a dependency has no entry
    in [simulated_outputs]. *)
Fixpoint check_dependencies (deps : list json) : E bool :=
  match deps with
  | [] => mret true
  | dep :: deps' =>
      key ← lift (hash_key dep);
      sim ← gets simulated_outputs;
      match dict_get key sim with
      | None =>
          print [Txt "       [-] ERROR: Dependency '"; Val dep; Txt "' not satisfied"];;
          mret false
      | Some _ => check_dependencies deps'
      end
  end.

(** One turn of the loop of [_execute_steps]; [false] when it returns
    [False] from the method. *)
Definition execute_step (i : nat) (step : json) : E bool :=
  step_id ← lift (py_get step "id"
                    (JStr ("step_" +:+ str_of_Z (Z.of_nat (i + 1)))));
  operation ← lift (py_get step "operation" (JStr "unknown"));
  api_endpoint ← lift (py_get step "api_endpoint" (JStr "unknown"));
  description ← lift (py_get step "description" (JStr ""));
  print [Txt "   ["; Val (JInt (Z.of_nat (i + 1))); Txt "] "; Val step_id];;
  print [Txt "       Operation: "; Val operation; Txt " "; Val api_endpoint];;
  when (truthy description)
    (print [Txt "       Description: "; Val description]);;
  depends_on ← lift (py_get step "depends_on" (JArr []));
  satisfied ← (if truthy depends_on then
                 joined ← lift (py_join ", " depends_on);
                 print [Txt "       Dependencies: "; Val (JStr joined)];;
                 deps ← lift (py_iter depends_on);
                 check_dependencies deps
               else mret true);
  if negb satisfied then mret false
  else
    simulated ← _simulate_step step;
    if negb simulated then mret false
    else print [];; mret true.

Fixpoint execute_steps_loop (steps : list (nat * json)) : E bool :=
  match steps with
  | [] => mret true
  | (i, step) :: steps' =>
      continue ← execute_step i step;
      if continue : bool then execute_steps_loop steps' else mret false
  end.

Definition _execute_steps (workflow : json) : E bool :=
  steps ← lift (py_get workflow "steps" (JArr []));
  n ← lift (py_len steps);
  print [Txt "[*] Executing "; Val (JInt (Z.of_nat n)); Txt (" step(s)..." +:+ nl)];;
  items ← lift (py_iter steps);
  execute_steps_loop (enumerate items).

Definition _simulate_condition (condition : json) : E bool :=
  cond_type ← lift (py_get condition "type" (JStr "unknown"));
  cond_id ← lift (py_get condition "id" (JStr "unknown"));
  check_auth ← lift (py_in "check_auth" cond_id);
  if check_auth || is_str "security" cond_type then mret true
  else
    exists_ ← lift (py_in "exists" cond_id);
    unique ← (if exists_ : bool then mret true else lift (py_in "unique" cond_id));
    if exists_ || unique then mret true else mret true.

(** The bullet printed before a condition is written [*] here. *)
Definition _check_pre_conditions (workflow : json) : E bool :=
  validation ← lift (py_get workflow "validation" (JObj []));
  pre_conditions ← lift (py_get validation "pre_conditions" (JArr []));
  if negb (truthy pre_conditions) then
    print [Txt ("[i] No pre-conditions defined" +:+ nl)];;
    mret true
  else
    n ← lift (py_len pre_conditions);
    print [Txt "[*] Checking "; Val (JInt (Z.of_nat n)); Txt (" pre-condition(s)..." +:+ nl)];;
    conditions ← lift (py_iter pre_conditions);
    all_passed ← for_fold conditions true (fun condition all_passed =>
      cond_id ← lift (py_get condition "id" (JStr "unknown"));
      description ← lift (py_get condition "description" (JStr "No description"));
      critical ← lift (py_get condition "critical" (JBool true));
      print [Txt "   * "; Val cond_id];;
      is_verbose ← gets verbose;
      when is_verbose (print [Txt "     Description: "; Val description]);;
      passed ← _simulate_condition condition;
      all_passed ← (if passed : bool then
                      print [Txt "     [+] PASSED"];;
                      mret all_passed
                    else
                      error_message ← lift (py_get condition "error_message"
                                              (JStr "Check failed"));
                      print [Txt "     ";
                             Txt (if truthy critical then "[!]" else "[?]");
                             Txt " FAILED: "; Val error_message];;
                      mret (if truthy critical then false else all_passed));
      print [];;
      mret all_passed);
    when (negb all_passed)
      (print [Txt ("[-] Critical pre-conditions failed. Aborting execution." +:+ nl)]);;
    mret all_passed.

Definition _check_post_conditions (workflow : json) : E bool :=
  validation ← lift (py_get workflow "validation" (JObj []));
  post_conditions ← lift (py_get validation "post_conditions" (JArr []));
  if negb (truthy post_conditions) then
    print [Txt (nl +:+ "[i] No post-conditions defined")];;
    mret true
  else
    n ← lift (py_len post_conditions);
    print [Txt (nl +:+ "[*] Checking "); Val (JInt (Z.of_nat n)); Txt (" post-condition(s)..." +:+ nl)];;
    conditions ← lift (py_iter post_conditions);
    for_each conditions (fun condition =>
      cond_id ← lift (py_get condition "id" (JStr "unknown"));
      description ← lift (py_get condition "description" (JStr "No description"));
      print [Txt "   * "; Val cond_id];;
      is_verbose ← gets verbose;
      when is_verbose (print [Txt "     Description: "; Val description]);;
      print [Txt "     [~] SKIPPED (dry-run mode - would verify: "; Val description;
             Txt ")"];;
      print []);;
    mret true.

Definition execute (workflow : json) : E bool :=
  print [Txt "DRY-RUN EXECUTION"];;
  trace ← gets trace_id;
  print [Txt "   Trace ID: "; Val (JStr trace)];;
  metadata ← lift (py_getitem workflow "metadata");
  workflow_name ← lift (py_getitem metadata "workflow_name");
  print [Txt "   Workflow: "; Val workflow_name];;
  metadata ← lift (py_getitem workflow "metadata");
  platform ← lift (py_getitem metadata "platform");
  print [Txt "   Platform: "; Val platform];;
  started ← read_clock;
  print [Txt "   Started: "; Val (JStr started); Txt nl];;
  exec_config ← lift (py_get workflow "execution_config" (JObj []));
  dry_run ← lift (py_get exec_config "dry_run_supported" JNull);
  when (negb (truthy dry_run))
    (print [Txt ("[!] Warning: Workflow does not explicitly support dry-run mode" +:+ nl)]);;
  pre ← _check_pre_conditions workflow;
  if negb pre then mret false
  else
    steps ← _execute_steps workflow;
    if negb steps then mret false
    else
      post ← _check_post_conditions workflow;
      if negb post then mret false
      else
        print [Txt (nl +:+ "[+] Dry-run completed successfully")];;
        print [Txt "   No actual mutations were performed"];;
        print [Txt ("   Workflow is ready for production execution" +:+ nl)];;
        mret true.
End environment.

(** ** Notions used in the statements *)

Definition set_strict (b : bool) (self : WorkflowValidator) : WorkflowValidator :=
  mkValidator b (errors self) (warnings self) (info self).

Definition map_state {S A} (f : S -> S) (o : outcome S A) : outcome S A :=
  match o with Ok a s => Ok a (f s) | Raise e s => Raise e (f s) end.

(** A method that neither reads nor writes [strict_mode]. *)
Definition strict_blind {A} (m : V A) : Prop :=
  forall b self, m (set_strict b self) = map_state (set_strict b) (m self).

(** What a caller observes of a run of [validate]: the value returned or
    the exception raised, and the three lists of findings. *)
Definition report (o : outcome WorkflowValidator bool)
    : (exn + bool) * list message * list message * list message :=
  match o with
  | Ok passed self => (inr passed, errors self, warnings self, info self)
  | Raise e self => (inl e, errors self, warnings self, info self)
  end.

(** The findings of the check of [secrets_handling]. *)
Definition runtime_injected_warning : message :=
  [Txt "Consider using 'runtime_injected' for better security"].
Definition credential_agnostic_info : message :=
  [Txt "[+] Credential-agnostic design (runtime_injected)"].
Definition invalid_secrets_handling (v : json) : message :=
  [Txt "Invalid secrets_handling: "; Val v].

(** The reading of the security check under which the suggestion of
    [runtime_injected] is made for the two other allowed values only. *)
Definition suggestion_iff_other_allowed_value (security : list (string * json)) : Prop :=
  In runtime_injected_warning
     (warnings (final_state (_validate_security (JObj security) (init false)))) <->
  exists v, lookup_key "secrets_handling" security = Some v /\
            one_of ["vault"; "env_var"] v = true.

(** How the dependency check reads a step: the key of its id, the value
    of [depends_on], and the keys found in it. *)
Definition step_key (step : json) : option hkey :=
  match step with
  | JObj m =>
      match lookup_key "id" m with
      | Some v => match hash_key v with inr k => Some k | inl _ => None end
      | None => None
      end
  | _ => None
  end.

Definition depends_on_of (step : json) : json :=
  match step with
  | JObj m => match lookup_key "depends_on" m with Some v => v | None => JArr [] end
  | _ => JArr []
  end.

Definition step_deps (step : json) : list hkey :=
  flat_map hashable (iterable (depends_on_of step)).

(** The dictionary that [_has_circular_dependency] builds from steps that
    it reads without an exception. *)
Definition graph_of (items : list json) (graph : list (hkey * json)) : list (hkey * json) :=
  fold_left (fun g step => match step_key step with
                           | Some k => dict_set k (depends_on_of step) g
                           | None => g
                           end) items graph.

Definition can_hash (v : json) : bool :=
  match hash_key v with inr _ => true | inl _ => false end.

(** A step that the dependency check reads without an exception: a
    dictionary whose id, if any, can be hashed and whose [depends_on], if
    any, can be iterated and holds values that can be hashed. *)
Definition dependency_shaped (step : json) : bool :=
  match step with
  | JObj m =>
      match lookup_key "id" m with Some v => can_hash v | None => true end &&
      match py_iter (depends_on_of step) with
      | inr ns => forallb can_hash ns
      | inl _ => false
      end
  | _ => false
  end.

Definition circular_error : message :=
  [Txt "Circular dependency detected in workflow steps"].

Definition with_errors (self : WorkflowValidator) (es : list message) : WorkflowValidator :=
  mkValidator (strict_mode self) (errors self ++ es) (warnings self) (info self).

(** How the data-flow check reads a step: its id (['unknown'] without
    one), the references found in its inputs, and the key and field names
    it registers when it has an [outputs] dictionary. *)
Definition step_id_of (step : json) : json :=
  match step with
  | JObj m => match lookup_key "id" m with Some v => v | None => JStr "unknown" end
  | _ => JStr "unknown"
  end.

Definition step_inputs (step : json) : json :=
  match step with
  | JObj m => match lookup_key "inputs" m with Some v => v | None => JObj [] end
  | _ => JObj []
  end.

Definition references (step : json) : list (string * string) :=
  step_refs (json_dumps (step_inputs step)).

Definition registers (step : json) : option (hkey * list string) :=
  match step with
  | JObj m =>
      match lookup_key "outputs" m with
      | Some (JObj outputs) =>
          match hash_key (step_id_of step) with
          | inr key => Some (key, map fst outputs)
          | inl _ => None
          end
      | _ => None
      end
  | _ => None
  end.

Definition register (step : json) (available_outputs : gmap hkey (gset string))
    : gmap hkey (gset string) :=
  match registers step with
  | Some (key, names) => <[key := list_to_set names]> available_outputs
  | None => available_outputs
  end.

(** A step that the data-flow check reads without an exception: a
    dictionary whose [outputs], if any, is a dictionary, and then with an
    id that can be hashed. *)
Definition data_flow_shaped (step : json) : bool :=
  match step with
  | JObj m =>
      match lookup_key "outputs" m with
      | Some (JObj _) => can_hash (step_id_of step)
      | Some _ => false
      | None => true
      end
  | _ => false
  end.

Definition unknown_step_error (step_id : json) (ref_step : string) : message :=
  [Txt "Step '"; Val step_id; Txt "' references output from unknown step '";
   Val (JStr ref_step); Txt "'"].

Definition undeclared_field_warning (step_id : json) (ref_field ref_step : string)
    : message :=
  [Txt "Step '"; Val step_id; Txt "' references '"; Val (JStr ref_field);
   Txt "' which is not declared in step '"; Val (JStr ref_step); Txt "' outputs"].

(** [self] with more errors and warnings. *)
Definition extended (self : WorkflowValidator) (es ws : list message) : WorkflowValidator :=
  mkValidator (strict_mode self) (errors self ++ es) (warnings self ++ ws) (info self).

(** The findings of [check_ref] over the references of a step. *)
Definition ref_errors (av : gmap hkey (gset string)) (step_id : json)
    (refs : list (string * string)) : list message :=
  flat_map (fun ref => match av !! KStr (fst ref) with
                       | None => [unknown_step_error step_id (fst ref)]
                       | Some _ => []
                       end) refs.

Definition ref_warnings (av : gmap hkey (gset string)) (step_id : json)
    (refs : list (string * string)) : list message :=
  flat_map (fun ref => match av !! KStr (fst ref) with
                       | Some fields =>
                           if bool_decide (snd ref ∉ fields)
                           then [undeclared_field_warning step_id (snd ref) (fst ref)]
                           else []
                       | None => []
                       end) refs.

(** The outputs registered and the findings added by the loop of the
    data-flow check over well-shaped steps. *)
Fixpoint flow_outputs (items : list json) (av : gmap hkey (gset string))
    : gmap hkey (gset string) :=
  match items with
  | [] => av
  | step :: items' => flow_outputs items' (register step av)
  end.

Fixpoint flow_errors (items : list json) (av : gmap hkey (gset string)) : list message :=
  match items with
  | [] => []
  | step :: items' =>
      ref_errors av (step_id_of step) (references step)
      ++ flow_errors items' (register step av)
  end.

Fixpoint flow_warnings (items : list json) (av : gmap hkey (gset string)) : list message :=
  match items with
  | [] => []
  | step :: items' =>
      ref_warnings av (step_id_of step) (references step)
      ++ flow_warnings items' (register step av)
  end.

(** The rule of the specification for the value of an output field: the
    first that applies of id, name, date or time, count, and the rest. *)
Definition first_matching_rule (uuid4_hex now_isoformat : nat -> string)
    (field : string) (v : mock) : Prop :=
  if contains "id" (lower field) then
    exists n, v = MockStr ("mock_" +:+ field +:+ "_" +:+ substring 0 8 (uuid4_hex n))
  else if contains "name" (lower field) then
    v = MockStr ("Mock " +:+ title field)
  else if contains "date" (lower field) || contains "time" (lower field) then
    exists n, v = MockStr (now_isoformat n)
  else if contains "count" (lower field) then
    v = MockInt 42
  else
    v = MockStr ("<mock_" +:+ field +:+ ">").

(** The value synthesized for a field by an executor in the state [self]. *)
Definition synthesized (uuid4_hex now_isoformat : nat -> string)
    (self : DryRunExecutor) (field : string) : mock :=
  match simulate_output uuid4_hex now_isoformat field self with
  | Ok v _ => v
  | Raise _ _ => MockStr ""
  end.

(** The four examples as the specification gives them. *)
Definition examples_as_specified (uuid4_hex now_isoformat : nat -> string)
    (self : DryRunExecutor) : Prop :=
  synthesized uuid4_hex now_isoformat self "customer_count" = MockInt 42 /\
  synthesized uuid4_hex now_isoformat self "created_date"
  = MockStr (now_isoformat (clock_reads self)) /\
  synthesized uuid4_hex now_isoformat self "widget_name" = MockStr "Mock Widget_Name" /\
  synthesized uuid4_hex now_isoformat self "status" = MockStr "<mock_status>".

(** A source of UUIDs and a clock, for the examples. *)
Definition sample_uuid4_hex (n : nat) : string := "9f1c2e7ab3d4486f8a0b5c6d7e8f9012".
Definition sample_now_isoformat (n : nat) : string := "2024-05-17T09:30:00.000000".

(** An interpreter for the examples.  CPython starts with a recursion
    limit of 1000 frames and the program does not change it, so that no
    more than 1000 calls nest. *)
Definition sample_interpreter : Interpreter :=
  {| dfs_limit := 1000; resolve_limit := 1000 |}.

(** The line printed when a dependency has no entry in
    [simulated_outputs]. *)
Definition dependency_fault (dep : json) : message :=
  [Txt "       [-] ERROR: Dependency '"; Val dep; Txt "' not satisfied"].

Definition step_operation (step : json) : json :=
  match step with
  | JObj m => match lookup_key "operation" m with Some v => v | None => JStr "unknown" end
  | _ => JStr "unknown"
  end.

Definition step_outputs (step : json) : json :=
  match step with
  | JObj m => match lookup_key "outputs" m with Some v => v | None => JObj [] end
  | _ => JObj []
  end.

Definition synthesizes (step : json) : bool :=
  is_str "query" (step_operation step) || is_str "mutation" (step_operation step).

(** The key under which the simulation of a step records its outputs:
    only a query and a mutation record any. *)
Definition records (step : json) : option hkey :=
  if synthesizes step then
    match hash_key (step_id_of step) with inr k => Some k | inl _ => None end
  else None.

Definition is_obj (v : json) : bool :=
  match v with JObj _ => true | _ => false end.

(** A step that the executor reads without an exception: a dictionary
    whose [depends_on], when not empty, holds strings, and which, when it
    is a query or a mutation, has a dictionary for [outputs] and an id
    that can be hashed. *)
Definition execution_shaped (step : json) : bool :=
  is_obj step &&
  (negb (truthy (depends_on_of step)) ||
   match py_join ", " (depends_on_of step) with inr _ => true | inl _ => false end) &&
  (negb (synthesizes step) ||
   is_obj (step_outputs step) && can_hash (step_id_of step)).

(** A step whose inputs [_resolve_inputs] reads to the end: they nest no
    deeper than the interpreter allows. *)
Definition resolvable `{Interpreter} (step : json) : bool :=
  nesting (step_inputs step) <=? resolve_limit.

(** Steps for which the search of [_has_circular_dependency] has room: the
    ids and the dependencies it can meet are fewer than the nested calls
    of [dfs] that the interpreter allows. *)
Definition searchable `{Interpreter} (items : list json) : Prop :=
  length (graph_nodes (graph_of items [])) < dfs_limit.

(** A key that has an entry in [simulated_outputs]. *)
Definition known (self : DryRunExecutor) (k : hkey) : Prop :=
  dict_get k (simulated_outputs self) <> None.

(** ** Sample workflows *)

Definition sample_metadata : json :=
  JObj [("workflow_name", JStr "create_order"); ("workflow_id", JStr "wf-001");
        ("platform", JStr "shop"); ("schema_version", JStr "1.0.0")].

Definition sample_security : json :=
  JObj [("auth_required", JBool true); ("secrets_handling", JStr "runtime_injected")].

(** A workflow with warnings and info but no error. *)
Definition sample_workflow : json :=
  JObj [("metadata", sample_metadata);
        ("inputs", JObj []);
        ("security", sample_security);
        ("steps", JArr [JObj [("id", JStr "fetch_order"); ("operation", JStr "query");
                              ("api_endpoint", JStr "/orders");
                              ("outputs", JObj [("order_id", JStr "$.id")])]])].

(** Two steps that depend on each other, after a step that depends on a
    step that does not exist. *)
Definition step_first : json :=
  JObj [("id", JStr "first"); ("operation", JStr "query"); ("api_endpoint", JStr "/a");
        ("depends_on", JArr [JStr "missing"])].
Definition step_ping : json :=
  JObj [("id", JStr "ping"); ("operation", JStr "query"); ("api_endpoint", JStr "/b");
        ("depends_on", JArr [JStr "pong"])].
Definition step_pong : json :=
  JObj [("id", JStr "pong"); ("operation", JStr "query"); ("api_endpoint", JStr "/c");
        ("depends_on", JArr [JStr "ping"; JStr "first"])].

(** A step that declares [order_id], a step that reads an undeclared field
    of it, and a step that reads its own output. *)
Definition step_source : json :=
  JObj [("id", JStr "source"); ("operation", JStr "query"); ("api_endpoint", JStr "/s");
        ("outputs", JObj [("order_id", JStr "$.id")])].
Definition step_reader : json :=
  JObj [("id", JStr "reader"); ("operation", JStr "mutation"); ("api_endpoint", JStr "/r");
        ("inputs", JObj [("order", JStr "{{steps.source.outputs.total}}");
                         ("nested", JArr [JStr "id={{steps.source.outputs.order_id}}"])])].
Definition step_selfish : json :=
  JObj [("id", JStr "selfish"); ("operation", JStr "query"); ("api_endpoint", JStr "/x");
        ("inputs", JObj [("previous", JStr "{{steps.selfish.outputs.token_count}}")]);
        ("outputs", JObj [("token_count", JStr "$.n")])].

(** A step that depends on a step declared after it. *)
Definition step_early : json :=
  JObj [("id", JStr "early"); ("operation", JStr "mutation"); ("api_endpoint", JStr "/e");
        ("depends_on", JArr [JStr "late"])].
Definition step_late : json :=
  JObj [("id", JStr "late"); ("operation", JStr "query"); ("api_endpoint", JStr "/l");
        ("outputs", JObj [("order_id", JStr "$.id")])].
Definition out_of_order_workflow : list (string * json) :=
  [("metadata", sample_metadata); ("steps", JArr [step_source; step_early; step_late])].

(** A query that depends on a sub-workflow declared before it. *)
Definition step_child : json :=
  JObj [("id", JStr "child"); ("operation", JStr "workflow");
        ("api_endpoint", JStr "/w"); ("workflow_ref", JStr "child_flow")].
Definition step_after_child : json :=
  JObj [("id", JStr "after_child"); ("operation", JStr "query");
        ("api_endpoint", JStr "/q"); ("depends_on", JArr [JStr "child"])].
Definition subworkflow_workflow : json :=
  JObj [("metadata", sample_metadata); ("inputs", JObj []);
        ("security", sample_security);
        ("steps", JArr [step_child; step_after_child])].

(** A workflow without its metadata section. *)
Definition no_metadata_workflow : json :=
  JObj [("inputs", JObj []); ("security", sample_security);
        ("steps", JArr [step_source])].

(** ** Findings that are already there *)

(** [self] with the findings of [found] after its own. *)
Definition after (self found : WorkflowValidator) : WorkflowValidator :=
  mkValidator (strict_mode self) (errors self ++ errors found)
    (warnings self ++ warnings found) (info self ++ info found).

(** A method that appends to the three lists and does nothing else with
    them: run on [self], it does what it does on a new validator, after
    the findings of [self]. *)
Definition appends {A} (m : V A) : Prop :=
  forall self, m self = map_state (after self) (m (init (strict_mode self))).

(** The outcome of [validate] on a validator that holds findings, from
    its outcome on a new one. *)
Definition settle (self : WorkflowValidator) (o : outcome WorkflowValidator bool)
    : outcome WorkflowValidator bool :=
  match o with
  | Ok passed found => Ok (Nat.eqb (length (errors self)) 0 && passed) (after self found)
  | Raise e found => Raise e (after self found)
  end.

(** ** Cycles *)

(** The graph has a chain of edges that leads from a node back to it. *)
Definition cyclic (graph : list (hkey * json)) : Prop :=
  exists a, tc (edge graph) a a.

(** Every node on the stack of the search leads to the node that the
    search is at. *)
Definition stack_leads_to (graph : list (hkey * json)) (m : marks) (node : hkey) : Prop :=
  forall x, x ∈ rec_stack m -> rtc (edge graph) x node.

(** ** Dependencies on steps that are not declared *)

Definition unknown_dependency_error (step_id dep_id : json) : message :=
  [Txt "Step '"; Val step_id; Txt "' depends on unknown step '"; Val dep_id; Txt "'"].

(** The ids that the dependency check collects from the steps. *)
Definition declared_ids (items : list json) : gset hkey :=
  list_to_set (omap step_key items).

(** The errors of the dependency check for one step, given the ids. *)
Definition unknown_of (ids : gset hkey) (step : json) : list message :=
  flat_map (fun dep => match hash_key dep with
                       | inr k => if bool_decide (k ∉ ids)
                                  then [unknown_dependency_error (step_id_of step) dep]
                                  else []
                       | inl _ => []
                       end) (iterable (depends_on_of step)).

(** ** The names and versions that the patterns accept *)

(** What is left of [s] after its longest prefix of characters in [p]. *)
Fixpoint skip_while (p : ascii -> bool) (s : string) : string :=
  match s with
  | String c s' => if p c then skip_while p s' else s
  | EmptyString => EmptyString
  end.

(** The end of the subject, or a newline that ends it. *)
Definition at_end (s : string) : bool :=
  match s with
  | EmptyString => true
  | String c EmptyString => code c =? 10
  | _ => false
  end.

Definition word_char (c : ascii) : bool := is_lower c || is_digit c || is_char "_" c.

(** A lower-case letter, then lower-case letters, digits and underscores
    up to the end. *)
Definition snake_case (s : string) : bool :=
  match s with
  | String c s' => is_lower c && at_end (skip_while word_char s')
  | EmptyString => false
  end.

(** At least one digit, then [rest] on what follows the digits. *)
Definition digits_then (rest : string -> bool) (s : string) : bool :=
  match s with
  | String c s' => is_digit c && rest (skip_while is_digit s')
  | EmptyString => false
  end.

Definition dot_then (rest : string -> bool) (s : string) : bool :=
  match s with
  | String c s' => is_char "." c && rest s'
  | EmptyString => false
  end.

(** Three groups of digits with a dot between them, up to the end. *)
Definition semver (s : string) : bool :=
  digits_then (dot_then (digits_then (dot_then (digits_then at_end)))) s.

(** ** Findings of the first checks *)

Definition missing_key_error (key : string) : message :=
  [Txt "Missing required key: '"; Val (JStr key); Txt "'"].

Definition required_keys : list string := ["metadata"; "inputs"; "security"; "steps"].

(** A method after which every error held before is still held. *)
Definition keeps_errors {A} (m : V A) : Prop :=
  forall self e, In e (errors self) -> In e (errors (final_state (m self))).

(** ** The order in which steps can run *)

(** The keys that have an entry in [simulated_outputs]. *)
Definition entries (self : DryRunExecutor) : gset hkey :=
  list_to_set (map fst (simulated_outputs self)).

(** The keys with an entry once a step has run. *)
Definition entries_after (done : gset hkey) (step : json) : gset hkey :=
  match records step with
  | Some k => done ∪ {[k]}
  | None => done
  end.

(** Every dependency of a step has an entry when the loop reaches the
    step: it was there at the start, or a query or a mutation before the
    step has recorded it. *)
Fixpoint in_order (done : gset hkey) (steps : list json) : bool :=
  match steps with
  | [] => true
  | step :: steps' =>
      forallb (fun d => bool_decide (d ∈ done)) (step_deps step)
      && in_order (entries_after done step) steps'
  end.

(** ** What a dry run leaves alone *)

(** From [self] to [self']: the flags and the trace id are the same,
    lines have only been added to the output, entries only to
    [simulated_outputs], and the two counters have not gone back. *)
Definition extends (self self' : DryRunExecutor) : Prop :=
  verbose self' = verbose self /\
  execution_state self' = execution_state self /\
  trace_id self' = trace_id self /\
  (exists lines, stdout self' = stdout self ++ lines) /\
  entries self ⊆ entries self' /\
  uuids_drawn self <= uuids_drawn self' /\
  clock_reads self <= clock_reads self'.

Definition only_extends {A} (m : E A) : Prop :=
  forall self, extends self (final_state (m self)).

(** An expression and a method that do not raise [KeyError]. *)
Definition quiet {A} (r : result A) : Prop := forall k, r <> inl (KeyError k).

Definition no_key_error {S A} (m : Py S A) : Prop :=
  forall s k s', m s <> Raise (KeyError k) s'.

(** ** References that the data-flow check accepts *)

(** Every reference of the step names a step with registered outputs and
    a field among them. *)
Definition fed (av : gmap hkey (gset string)) (step : json) : bool :=
  forallb (fun ref => match av !! KStr (fst ref) with
                      | Some fields => bool_decide (snd ref ∈ fields)
                      | None => false
                      end) (references step).

(** Every step is fed by the outputs that the steps before it register. *)
Fixpoint well_fed (av : gmap hkey (gset string)) (items : list json) : bool :=
  match items with
  | [] => true
  | step :: items' => fed av step && well_fed (register step av) items'
  end.

(** ** Inputs and templates *)

(** A value with no opening brace in any of its strings, keys apart. *)
Fixpoint plain (v : json) : bool :=
  match v with
  | JStr s => negb (contains "{" s)
  | JArr l => forallb plain l
  | JObj m => forallb (fun kv => plain (snd kv)) m
  | _ => true
  end.

(** Every character of the string is in the class. *)
Fixpoint all_in (p : ascii -> bool) (s : string) : bool :=
  match s with
  | String c s' => p c && all_in p s'
  | EmptyString => true
  end.

(** The text of a reference to the output [y] of the step [x]. *)
Definition step_ref (x y : string) : string :=
  "{{steps." +:+ x +:+ ".outputs." +:+ y +:+ "}}".

(** ** Steps with the same id *)

Definition duplicate_error (step_id : json) : message :=
  [Txt "Duplicate step ID: '"; Val step_id; Txt "'"].

(** A method that adds no error, however it ends. *)
Definition adds_no_error {A} (m : V A) : Prop :=
  forall self, errors (final_state (m self)) = errors self.

(** ** Secrets in a workflow *)



(** ** print_results and main

    [print_results] changes nothing in the validator; it is given as the
    list of the lines that it prints.  A finding is printed after the
    text of its bullet. *)

Definition rule : string :=
  "============================================================".

(** One of the three blocks of findings: nothing when there is none. *)
Definition listing (title : string) (found : list message) : list message :=
  match found with
  | [] => []
  | _ :: _ =>
      [Txt title; Val (JInt (Z.of_nat (length found))); Txt "):"]
      :: map (fun finding => Txt "   - " :: finding) found ++ [[]]
  end.

Definition passed_clean : message :=
  [Txt ("[+] Workflow validation passed with no issues!" +:+ nl)].
Definition passed_with_warnings : message :=
  [Txt ("[+] Workflow validation passed (with warnings)" +:+ nl)].
Definition failed : message :=
  [Txt ("[-] Workflow validation failed" +:+ nl)].

Definition print_results (self : WorkflowValidator) : list message :=
  [[Txt (nl +:+ rule)]; [Txt "VALIDATION RESULTS"]; [Txt (rule +:+ nl)]]
  ++ listing "[-] ERRORS (" (errors self)
  ++ listing "[!] WARNINGS (" (warnings self)
  ++ listing "[i] INFO (" (info self)
  ++ [match errors self, warnings self with
      | [], [] => passed_clean
      | [], _ :: _ => passed_with_warnings
      | _ :: _, _ => failed
      end;
      [Txt (rule +:+ nl)]].

(** What [main] finds at the path given on the command line. *)
Inductive loaded : Type :=
| NoFile
| BadJSON (e : string)
| Loaded (workflow : json).

(** [main], from the parsed arguments on: the lines printed, and the exit
    status or the exception that leaves [main].  [workflow_path] is the
    text of [Path(args.workflow_file)], the path as [pathlib] writes it.
    The first line of a validation is the one that [validate] prints. *)
Definition main `{Interpreter} (workflow_path : string) (strict : bool) (file : loaded)
    : list message * result nat :=
  match file with
  | NoFile =>
      ([[Txt "[-] Error: File not found: "; Val (JStr workflow_path)]], inr 1)
  | BadJSON e =>
      ([[Txt "[-] Error: Invalid JSON: "; Val (JStr e)]], inr 1)
  | Loaded workflow =>
      let banner := [Txt ("[*] Validating workflow definition..." +:+ nl)] in
      match validate workflow (init strict) with
      | Raise e _ => ([banner], inl e)
      | Ok success validator =>
          (banner :: print_results validator,
           inr (if negb success then 1
                else if strict && negb (Nat.eqb (length (warnings validator)) 0) then 1
                else 0))
      end
  end.

(** ** More sample workflows *)

(** A step that reads an output that [step_source] declares. *)
Definition step_consumer : json :=
  JObj [("id", JStr "consumer"); ("operation", JStr "mutation"); ("api_endpoint", JStr "/c");
        ("depends_on", JArr [JStr "source"]);
        ("inputs", JObj [("order", JStr "{{steps.source.outputs.order_id}}")])].

(** A second step with the id of [step_source]. *)
Definition step_source_again : json :=
  JObj [("id", JStr "source"); ("operation", JStr "mutation"); ("api_endpoint", JStr "/t")].

(** A workflow with a critical pre-condition and a post-condition. *)
Definition guarded_workflow : json :=
  JObj [("metadata", sample_metadata);
        ("validation",
         JObj [("pre_conditions",
                JArr [JObj [("id", JStr "stock_is_positive"); ("critical", JBool true);
                            ("error_message", JStr "No stock")]]);
               ("post_conditions",
                JArr [JObj [("id", JStr "order_stored")]])]);
        ("steps", JArr [step_source])].


(** A workflow whose name is a number. *)
Definition numbered_workflow : list (string * json) :=
  [("metadata", JObj [("workflow_name", JInt 7); ("workflow_id", JStr "wf-007")]);
   ("steps", JArr [step_source])].

(** The entries of an executor after [step_source] has run. *)
Definition sample_entries : list (hkey * list (string * mock)) :=
  [(KStr "source", [("order_id", MockStr "mock_order_id_9f1c2e7a")])].

(** ** Workflows of the expected types *)

Definition is_string (v : json) : bool :=
  match v with JStr _ => true | _ => false end.

(** The key is absent, or its value passes [p]. *)
Definition absent_or (p : json -> bool) (k : string) (m : list (string * json)) : bool :=
  match lookup_key k m with Some v => p v | None => true end.








(** A method that returns, from every state. *)
Definition returns {S A} (m : Py S A) : Prop :=
  forall s, exists a s', m s = Ok a s'.

(** A condition that the executor reads without an exception: a
    dictionary whose id, if any, is a string. *)
Definition typed_condition (v : json) : bool :=
  match v with JObj m => absent_or is_string "id" m | _ => false end.

Definition typed_conditions (v : json) : bool :=
  match v with JArr l => forallb typed_condition l | _ => false end.

Definition typed_validation (v : json) : bool :=
  match v with
  | JObj m =>
      absent_or typed_conditions "pre_conditions" m
      && absent_or typed_conditions "post_conditions" m
  | _ => false
  end.

(** The metadata that [execute] prints is there. *)
Definition named (m : list (string * json)) : bool :=
  match lookup_key "metadata" m with
  | Some (JObj md) => has_key "workflow_name" md && has_key "platform" md
  | _ => false
  end.

(** Steps that the executor reads without an exception, with inputs that
    nest no deeper than the interpreter allows. *)
Definition executable_steps `{Interpreter} (v : json) : bool :=
  match v with
  | JArr l => forallb execution_shaped l && forallb resolvable l
  | _ => false
  end.

(** A workflow that a dry run reads to its end. *)
Definition runnable `{Interpreter} (workflow : json) : bool :=
  match workflow with
  | JObj m =>
      named m
      && absent_or is_obj "execution_config" m
      && absent_or typed_validation "validation" m
      && absent_or executable_steps "steps" m
  | _ => false
  end.

(** [workflow.get('steps', [])], when it is a list. *)
Definition steps_of (workflow : json) : list json :=
  match workflow with
  | JObj m => match lookup_key "steps" m with Some (JArr l) => l | _ => [] end
  | _ => []
  end.

(** A method that leaves [simulated_outputs] as it found it when it
    returns. *)
Definition keeps_outputs {A} (m : E A) : Prop :=
  forall self a self', m self = Ok a self' -> simulated_outputs self' = simulated_outputs self.

(** ** A long chain of dependencies *)

Definition link_name (i : nat) : string := String "s" (str_of_Z (Z.of_nat i)).

(** A query with the id [link_name i], which depends on the query with
    the next id unless it is the last of its chain. *)
Definition link (i : nat) (last : bool) : json :=
  JObj [("id", JStr (link_name i)); ("operation", JStr "query");
        ("api_endpoint", JStr "/links");
        ("depends_on", JArr (if last then [] else [JStr (link_name (S i))]))].

(** [n] links from the number [i] on. *)
Fixpoint chain (i n : nat) : list json :=
  match n with
  | 0 => []
  | S n' => link i (Nat.eqb n' 0) :: chain (S i) n'
  end.

Definition step_tick : json :=
  JObj [("id", JStr "tick"); ("operation", JStr "query"); ("api_endpoint", JStr "/tick");
        ("depends_on", JArr [JStr "tock"])].
Definition step_tock : json :=
  JObj [("id", JStr "tock"); ("operation", JStr "query"); ("api_endpoint", JStr "/tock");
        ("depends_on", JArr [JStr "tick"])].


(** * Properties *)

(** The properties of this part hold for every interpreter. *)
Section properties.
Context {interpreter : Interpreter}.

(** ** The monad *)

Lemma bind_Ok {S A B} (m : Py S A) (f : A -> Py S B) s b s' :
  (m ≫= f) s = Ok b s' -> exists a s1, m s = Ok a s1 /\ f a s1 = Ok b s'.
Proof.
  unfold mbind, Py_bind, py_bind. destruct (m s) as [a s1|e s1]; [eauto | discriminate].
Qed.

Lemma bind_run {S A B} (m : Py S A) (f : A -> Py S B) s a s1 :
  m s = Ok a s1 -> (m ≫= f) s = f a s1.
Proof. unfold mbind, Py_bind, py_bind. intros ->. reflexivity. Qed.

Lemma gets_Ok {S A} (f : S -> A) s a s' : gets f s = Ok a s' -> a = f s /\ s' = s.
Proof. unfold gets. intros [= <- <-]. auto. Qed.

Lemma ret_Ok {S A} (x a : A) (s s' : S) : mret (M := Py S) x s = Ok a s' -> a = x /\ s' = s.
Proof. unfold mret, Py_ret, py_ret. intros [= <- <-]. auto. Qed.

(** ** C1: the return value of validate *)

(** C1. When [validate] returns, it returns [True] exactly when the list of
    errors is empty once the checks have run.  Warnings and info play no
    part: with no error the result is [True] whatever they hold. *)
Theorem validate_true_iff_no_errors (strict : bool) (workflow : json)
    (passed : bool) (self' : WorkflowValidator) :
  validate workflow (init strict) = Ok passed self' ->
  (passed = true <-> errors self' = []).
Proof.
  intros H. unfold validate in H.
  repeat (apply bind_Ok in H as (? & ? & ? & H)).
  match goal with Hg : gets errors _ = Ok _ _ |- _ => apply gets_Ok in Hg as [-> ->] end.
  apply ret_Ok in H as [-> ->].
  match goal with |- context [errors ?s] => destruct (errors s) end;
    simpl; split; congruence.
Qed.

(** ** C9: the strict flag *)

Lemma blind_ret {A} (a : A) : strict_blind (mret a).
Proof. intros b self. reflexivity. Qed.

Lemma blind_raise {A} (e : exn) : strict_blind (py_raise (A := A) e).
Proof. intros b self. reflexivity. Qed.

Lemma blind_lift {A} (r : result A) : strict_blind (lift r).
Proof. destruct r; [apply blind_raise | apply blind_ret]. Qed.

Lemma blind_bind {A B} (m : V A) (f : A -> V B) :
  strict_blind m -> (forall a, strict_blind (f a)) -> strict_blind (m ≫= f).
Proof.
  intros Hm Hf b self. unfold mbind, Py_bind, py_bind. rewrite Hm.
  destruct (m self) as [a s|e s]; simpl; [apply Hf | reflexivity].
Qed.

Lemma blind_add_error m : strict_blind (add_error m).
Proof. intros b self. reflexivity. Qed.
Lemma blind_add_warning m : strict_blind (add_warning m).
Proof. intros b self. reflexivity. Qed.
Lemma blind_add_info m : strict_blind (add_info m).
Proof. intros b self. reflexivity. Qed.
Lemma blind_gets_errors : strict_blind (gets errors).
Proof. intros b self. reflexivity. Qed.

Lemma blind_when (c : bool) (m : V unit) : strict_blind m -> strict_blind (when c m).
Proof. destruct c; simpl; [auto | intros _; apply (blind_ret tt)]. Qed.

Lemma blind_for_each {A} (xs : list A) (body : A -> V unit) :
  (forall x, strict_blind (body x)) -> strict_blind (for_each xs body).
Proof.
  intros Hb. induction xs as [|x xs IH]; simpl.
  - apply (blind_ret tt).
  - apply (blind_bind (body x)); auto.
Qed.

Lemma blind_for_fold {A B} (xs : list A) (acc : B) (body : A -> B -> V B) :
  (forall x acc, strict_blind (body x acc)) -> strict_blind (for_fold xs acc body).
Proof.
  intros Hb. revert acc. induction xs as [|x xs IH]; intros acc; simpl.
  - apply (blind_ret acc).
  - apply (blind_bind (body x acc)); auto.
Qed.

(** Methods already shown blind; extended as the proofs go. *)
Ltac blind_known := fail.

Ltac blind :=
  repeat first
    [ blind_known | apply blind_ret | apply blind_raise | apply blind_lift
    | apply blind_add_error | apply blind_add_warning | apply blind_add_info
    | apply blind_gets_errors
    | apply blind_when | apply blind_for_each | apply blind_for_fold
    | apply blind_bind
    | match goal with
      | |- forall _, _ => intro
      | |- strict_blind (let _ := _ in _) => cbv zeta
      | |- strict_blind (if ?c then _ else _) => destruct c
      | |- strict_blind (match ?x with _ => _ end) => destruct x
      | |- strict_blind ((match ?x with _ => _ end) _) => destruct x
      end ].

Lemma blind_validate_structure w : strict_blind (_validate_structure w).
Proof. unfold _validate_structure. blind. Qed.

Lemma blind_validate_metadata x : strict_blind (_validate_metadata x).
Proof. unfold _validate_metadata. blind. Qed.

Lemma blind_validate_inputs x : strict_blind (_validate_inputs x).
Proof. unfold _validate_inputs. blind. Qed.

Lemma blind_validate_security x : strict_blind (_validate_security x).
Proof. unfold _validate_security. blind. Qed.

Lemma blind_validate_steps x : strict_blind (_validate_steps x).
Proof. unfold _validate_steps. blind. Qed.

Lemma blind_build_graph xs : strict_blind (build_graph xs).
Proof. unfold build_graph. blind. Qed.

Lemma blind_has_circular_dependency x : strict_blind (_has_circular_dependency x).
Proof.
  unfold _has_circular_dependency. blind.
Qed.

Lemma blind_validate_dependencies x : strict_blind (_validate_dependencies x).
Proof.
  unfold _validate_dependencies. blind.
Qed.

Lemma blind_check_ref av sid r : strict_blind (check_ref av sid r).
Proof. unfold check_ref. blind. Qed.

Ltac blind_known ::= apply blind_check_ref.

Lemma blind_data_flow_step x av : strict_blind (data_flow_step x av).
Proof. unfold data_flow_step. blind. Qed.

Lemma blind_validate_data_flow x : strict_blind (_validate_data_flow x).
Proof. unfold _validate_data_flow. blind. Qed.

Lemma blind_audit_security x : strict_blind (_audit_security x).
Proof. unfold _audit_security, suspicious_patterns. blind. Qed.

Lemma blind_check_best_practices x : strict_blind (_check_best_practices x).
Proof. unfold _check_best_practices. blind. Qed.

Lemma blind_validate w : strict_blind (validate w).
Proof.
  unfold validate.
  repeat first
    [ apply blind_validate_structure | apply blind_validate_metadata
    | apply blind_validate_inputs | apply blind_validate_security
    | apply blind_validate_steps | apply blind_validate_dependencies
    | apply blind_validate_data_flow | apply blind_audit_security
    | apply blind_check_best_practices
    | apply blind_lift | apply blind_gets_errors | apply blind_ret
    | apply blind_bind | match goal with |- forall _, _ => intro end ].
Qed.

(** C9. A validator created with [strict_mode] set and one created with it
    unset return the same value from [validate] (or raise the same
    exception) and hold the same errors, warnings and info afterwards;
    the same holds from any state of the validator, whatever its lists
    hold when [validate] is called. *)
Theorem validate_ignores_strict_mode (workflow : json) :
  report (validate workflow (init true)) = report (validate workflow (init false)) /\
  forall self : WorkflowValidator,
    report (validate workflow (set_strict true self))
    = report (validate workflow (set_strict false self)).
Proof.
  assert (Hany : forall self : WorkflowValidator,
             report (validate workflow (set_strict true self))
             = report (validate workflow (set_strict false self))).
  { intros self. rewrite !blind_validate.
    destruct (validate workflow self); reflexivity. }
  split; [exact (Hany (init false)) | exact Hany].
Qed.

(** ** C8: the check of secrets_handling *)

Lemma is_str_true k v : is_str k v = true <-> v = JStr k.
Proof.
  destruct v; simpl; try (split; [discriminate | congruence]).
  rewrite String.eqb_eq. split; congruence.
Qed.

(** C8, as stated, fails: an invalid value is reported as an error and
    the suggestion is made as well. *)
Lemma plaintext_gets_the_suggestion_too :
  ~ suggestion_iff_other_allowed_value [("secrets_handling", JStr "plaintext")].
Proof.
  unfold suggestion_iff_other_allowed_value. intros [H _].
  destruct H as (v & Hv & Hone).
  - vm_compute. auto.
  - vm_compute in Hv. injection Hv as <-. vm_compute in Hone. discriminate.
Qed.

Ltac run :=
  unfold mbind, Py_bind, py_bind, mret, Py_ret, py_ret, lift, py_raise, when,
    add_error, add_warning, add_info, modify, gets; simpl.

(** C8, amended. For a security section that is a non-empty dictionary the
    check returns, and among the findings it adds: the suggestion of
    [runtime_injected] is a warning exactly when [secrets_handling] is not
    the string [runtime_injected] (absent, not allowed, or another allowed
    value); the positive note is an info exactly when it is that string;
    and a value outside the three allowed ones gives the error that cites
    it. *)
Theorem security_suggestion_unless_runtime_injected
    (security : list (string * json)) (self : WorkflowValidator) :
  security <> [] ->
  exists es ws ns,
    _validate_security (JObj security) self
    = Ok tt (mkValidator (strict_mode self) (errors self ++ es)
                         (warnings self ++ ws) (info self ++ ns)) /\
    (In runtime_injected_warning ws <->
     lookup_key "secrets_handling" security <> Some (JStr "runtime_injected")) /\
    (In credential_agnostic_info ns <->
     lookup_key "secrets_handling" security = Some (JStr "runtime_injected")) /\
    (forall v, lookup_key "secrets_handling" security = Some v ->
               one_of ["runtime_injected"; "vault"; "env_var"] v = false ->
               In (invalid_secrets_handling v) es).
Proof.
  intros Hne. unfold _validate_security.
  assert (truthy (JObj security) = true) as ->
    by (destruct security; [congruence | reflexivity]).
  simpl negb. cbv iota. unfold py_in, py_getitem, py_get, has_key.
  destruct self as [sm e w n].
  rewrite <- (app_nil_r e), <- (app_nil_r w), <- (app_nil_r n).
  destruct (lookup_key "secrets_handling" security) as [v|] eqn:Hv;
    destruct (lookup_key "auth_required" security);
    destruct (lookup_key "minimum_role" security);
    destruct (lookup_key "rate_limit" security);
    unfold mbind, Py_bind, py_bind, mret, Py_ret, py_ret, lift, py_raise;
    cbn -[one_of is_str];
    try (destruct (one_of ["runtime_injected"; "vault"; "env_var"] v) eqn:Hone;
         destruct (is_str "runtime_injected" v) eqn:Hri);
    run; eexists _, _, _; rewrite <- ?app_assoc; simpl;
    (split; [reflexivity |]);
    unfold runtime_injected_warning, credential_agnostic_info,
      invalid_secrets_handling;
    try (pose proof (is_str_true "runtime_injected" v) as Hiff;
         rewrite Hri in Hiff; unfold one_of in Hone; simpl in Hone);
    simpl; repeat split; intros;
    repeat match goal with
           | H : Some _ = Some _ |- _ => injection H as <-
           | H : None = Some _ |- _ => discriminate H
           end;
    try solve [intuition (try congruence; try discriminate)];
    try (intros [= Heq]; apply Hiff in Heq; discriminate Heq);
    try match goal with
        | H : Some v = Some (JStr _) |- _ =>
            injection H as Heq; apply Hiff in Heq; discriminate Heq
        end.
Qed.

(** ** C2: cycles of length two *)

Section dfs_facts.
Variable graph : list (hkey * json).

Lemma dfs_S depth node m :
  dfs graph (S depth) node m =
  match py_iter (neighbors graph node) with
  | inl e => Raise e (enter node m)
  | inr ns =>
      match dfs_neighbors (dfs graph depth) ns (enter node m) with
      | Ok true m2 => Ok true m2
      | Ok false m2 =>
          if bool_decide (node ∈ rec_stack m2)
          then Ok false (mkMarks (visited m2) (rec_stack m2 ∖ {[node]}))
          else Raise (KeyError node) m2
      | Raise e m2 => Raise e m2
      end
  end.
Proof.
  simpl. unfold mbind, Py_bind, py_bind, mark_visited, push_rec_stack, modify. simpl.
  fold (enter node m).
  destruct (py_iter (neighbors graph node)) as [e|ns]; simpl; [reflexivity|].
  destruct (dfs_neighbors (dfs graph depth) ns (enter node m)) as [[] m2|e m2];
    try reflexivity.
  unfold pop_rec_stack. destruct (bool_decide (node ∈ rec_stack m2)); reflexivity.
Qed.

Lemma dfs_neighbors_cons f n ns m :
  dfs_neighbors f (n :: ns) m =
  match hash_key n with
  | inl e => Raise e m
  | inr key =>
      if bool_decide (key ∉ visited m) then
        match f key m with
        | Ok true m' => Ok true m'
        | Ok false m' => dfs_neighbors f ns m'
        | Raise e m' => Raise e m'
        end
      else if bool_decide (key ∈ rec_stack m) then Ok true m
      else dfs_neighbors f ns m
  end.
Proof.
  simpl. unfold mbind, Py_bind, py_bind, gets. simpl.
  destruct (hash_key n) as [e|key]; simpl; [reflexivity|].
  destruct (bool_decide (key ∉ visited m)).
  - destruct (f key m) as [[] m'|e m']; reflexivity.
  - destruct (bool_decide (key ∈ rec_stack m)); reflexivity.
Qed.

Lemma dfs_all_cons depth node nodes m :
  dfs_all graph depth (node :: nodes) m =
  if bool_decide (node ∉ visited m) then
    match dfs graph depth node m with
    | Ok true m' => Ok true m'
    | Ok false m' => dfs_all graph depth nodes m'
    | Raise e m' => Raise e m'
    end
  else dfs_all graph depth nodes m.
Proof.
  simpl. unfold mbind, Py_bind, py_bind, gets. simpl.
  destruct (bool_decide (node ∉ visited m)); [|reflexivity].
  destruct (dfs graph depth node m) as [[] m'|e m']; reflexivity.
Qed.

End dfs_facts.

Section two_cycle.
Variable graph : list (hkey * json).
Variables a b : hkey.
Hypothesis edge_ab : edge graph a b.
Hypothesis edge_ba : edge graph b a.

Lemma neighbors_false_steady depth :
  (forall node m m', steady graph a m -> node ∉ visited m ->
     dfs graph depth node m = Ok false m' ->
     steady graph a m' /\ rec_stack m' = rec_stack m /\ visited m ∪ {[node]} ⊆ visited m') ->
  forall ns m m', steady graph a m ->
    dfs_neighbors (dfs graph depth) ns m = Ok false m' ->
    steady graph a m' /\ rec_stack m' = rec_stack m /\ visited m ⊆ visited m' /\
    forall n key, In n ns -> hash_key n = inr key -> black m' key.
Proof.
  intros IH ns. induction ns as [|n ns IHns]; intros m m' Hm H.
  - injection H as <-. split; [exact Hm|]. do 2 (split; [reflexivity|]).
    intros ? ? [].
  - rewrite dfs_neighbors_cons in H.
    destruct (hash_key n) as [e|key] eqn:Hkey; [discriminate|].
    destruct (bool_decide (key ∉ visited m)) eqn:Hseen.
    + apply bool_decide_eq_true in Hseen.
      destruct (dfs graph depth key m) as [[] m1|e m1] eqn:Hdfs; try discriminate.
      destruct (IH _ _ _ Hm Hseen Hdfs) as (Hm1 & Hrec1 & Hvis1).
      destruct (IHns _ _ Hm1 H) as (Hm' & Hrec' & Hvis' & Hblack).
      destruct Hm as (Hsub & _).
      split; [exact Hm'|]. split; [congruence|].
      split; [clear - Hvis1 Hvis'; set_solver|].
      intros n' key' [<-|Hin] Hk'; [|eauto].
      assert (key' = key) as -> by congruence.
      split; [clear - Hvis1 Hvis'; set_solver|].
      rewrite Hrec', Hrec1. clear - Hsub Hseen. set_solver.
    + apply bool_decide_eq_false in Hseen. apply dec_stable in Hseen.
      destruct (bool_decide (key ∈ rec_stack m)) eqn:Hact; [discriminate|].
      apply bool_decide_eq_false in Hact.
      destruct (IHns _ _ Hm H) as (Hm' & Hrec' & Hvis' & Hblack).
      split; [exact Hm'|]. split; [exact Hrec'|]. split; [exact Hvis'|].
      intros n' key' [<-|Hin] Hk'; [|eauto].
      assert (key' = key) as -> by congruence.
      split; [apply Hvis', Hseen | rewrite Hrec'; exact Hact].
Qed.



End two_cycle.

(** *** A search with room for every node does not run out of calls *)

Section dfs_depth.
Variable graph : list (hkey * json).
Hypothesis shaped : graph_ok graph.

Lemma neighbors_iterable node :
  exists ns, py_iter (neighbors graph node) = inr ns /\
    forall n, In n ns -> exists key, hash_key n = inr key /\ key ∈ (universe graph).
Proof.
  unfold neighbors. destruct (dict_get node graph) as [v|] eqn:Hget.
  - assert (exists k, In (k, v) graph) as (k & Hin).
    { clear - Hget. induction graph as [|[k' v'] g IH]; [discriminate|].
      simpl in Hget. destruct (bool_decide (node = k')).
      - injection Hget as ->. exists k'. left. reflexivity.
      - destruct (IH Hget) as (k & Hk). exists k. right. exact Hk. }
    destruct (shaped _ _ Hin) as (ns & Hns & Hhash).
    exists ns. split; [exact Hns|].
    intros n Hn. destruct (Hhash n Hn) as (key & Hkey). exists key.
    split; [exact Hkey|]. unfold universe, graph_nodes.
    apply elem_of_list_to_set, list_elem_of_In, in_or_app. right.
    apply in_flat_map. exists (k, v). split; [exact Hin|]. simpl.
    apply in_flat_map. exists n. unfold iterable. rewrite Hns.
    split; [exact Hn|]. unfold hashable. rewrite Hkey. left. reflexivity.
  - exists []. split; [reflexivity|]. intros ? [].
Qed.

Lemma neighbors_run depth :
  (forall node m, rec_stack m ⊆ visited m -> node ∈ (universe graph) -> node ∉ visited m ->
     size ((universe graph) ∖ visited m) < depth ->
     exists found m', dfs graph depth node m = Ok found m' /\
       (found = false ->
        rec_stack m' = rec_stack m /\ visited m ∪ {[node]} ⊆ visited m')) ->
  forall ns m, rec_stack m ⊆ visited m ->
    (forall n, In n ns -> exists key, hash_key n = inr key /\ key ∈ (universe graph)) ->
    size ((universe graph) ∖ visited m) < depth ->
    exists found m', dfs_neighbors (dfs graph depth) ns m = Ok found m' /\
      (found = false -> rec_stack m' = rec_stack m /\ visited m ⊆ visited m').
Proof.
  intros IH ns. induction ns as [|n ns IHns]; intros m Hsub Hns Hsize.
  - exists false, m. split; [reflexivity|]. intros _. split; reflexivity.
  - rewrite dfs_neighbors_cons.
    destruct (Hns n (or_introl eq_refl)) as (key & -> & Hkey).
    assert (forall n', In n' ns ->
              exists key, hash_key n' = inr key /\ key ∈ (universe graph)) as Hns'
      by (intros; apply Hns; right; assumption).
    destruct (bool_decide (key ∉ visited m)) eqn:Hseen.
    + apply bool_decide_eq_true in Hseen.
      destruct (IH key m Hsub Hkey Hseen Hsize) as ([] & m1 & -> & Hfalse).
      * exists true, m1. split; [reflexivity | discriminate].
      * destruct (Hfalse eq_refl) as (Hrec1 & Hvis1).
        destruct (IHns m1) as (found & m' & -> & Hfalse'); [| exact Hns' | |].
        -- rewrite Hrec1. clear - Hsub Hvis1. set_solver.
        -- eapply Nat.le_lt_trans; [|exact Hsize].
           apply subseteq_size. clear - Hvis1. set_solver.
        -- exists found, m'. split; [reflexivity|]. intros Hf.
           destruct (Hfalse' Hf) as (Hrec' & Hvis'). split; [congruence|].
           clear - Hvis1 Hvis'. set_solver.
    + destruct (bool_decide (key ∈ rec_stack m)).
      * exists true, m. split; [reflexivity | discriminate].
      * apply IHns; assumption.
Qed.

Lemma dfs_run depth :
  forall node m, rec_stack m ⊆ visited m -> node ∈ (universe graph) -> node ∉ visited m ->
    size ((universe graph) ∖ visited m) < depth ->
    exists found m', dfs graph depth node m = Ok found m' /\
      (found = false ->
       rec_stack m' = rec_stack m /\ visited m ∪ {[node]} ⊆ visited m').
Proof.
  induction depth as [|depth IH]; intros node m Hsub Hnode Hnew Hsize; [lia|].
  rewrite dfs_S.
  destruct (neighbors_iterable node) as (ns & -> & Hns).
  assert (node ∉ rec_stack m) as Hnr by (clear - Hsub Hnew; set_solver).
  destruct (neighbors_run depth IH ns (enter node m)) as (found & m2 & -> & Hfalse).
  - simpl. clear - Hsub. set_solver.
  - exact Hns.
  - simpl.
    assert (size ((universe graph) ∖ (visited m ∪ {[node]})) < size ((universe graph) ∖ visited m))
      by (apply subset_size; clear - Hnode Hnew;
          generalize dependent (universe graph); intros U ? ; set_solver).
    lia.
  - destruct found.
    + exists true, m2. split; [reflexivity | discriminate].
    + destruct (Hfalse eq_refl) as (Hrec2 & Hvis2). simpl in Hrec2, Hvis2.
      rewrite bool_decide_eq_true_2 by (rewrite Hrec2; clear; set_solver).
      eexists false, _. split; [reflexivity|]. intros _. simpl. rewrite Hrec2.
      split; [clear - Hnr; set_solver | exact Hvis2].
Qed.

(** The search over all the keys returns; it does not raise. *)
Lemma dfs_all_depth depth nodes :
  length (graph_nodes graph) < depth ->
  forall m, rec_stack m ⊆ visited m ->
    (forall node, In node nodes -> node ∈ (universe graph)) ->
    exists found m',
      dfs_all graph depth nodes m = Ok found m' /\
      (found = false -> rec_stack m' = rec_stack m /\ visited m ⊆ visited m').
Proof.
  intros Hroom.
  assert (forall m : marks, size ((universe graph) ∖ visited m) < depth) as Hsize.
  { intros m. eapply Nat.le_lt_trans; [|exact Hroom]. etrans; [apply subseteq_size|].
    - apply (subseteq_difference_l (universe graph) (visited m) (universe graph)). reflexivity.
    - unfold universe. generalize (graph_nodes graph). intros l.
      induction l as [|x l IHl].
      + rewrite list_to_set_nil, size_empty. simpl. lia.
      + rewrite list_to_set_cons, size_union_alt, size_singleton.
        assert (size (list_to_set l ∖ {[x]} : gset hkey) <= size (list_to_set l : gset hkey))
          by (apply subseteq_size; set_solver).
        simpl. lia. }
  induction nodes as [|node nodes IH]; intros m Hsub Hnodes.
  - exists false, m. split; [reflexivity|]. intros _. split; reflexivity.
  - rewrite dfs_all_cons.
    assert (forall x, In x nodes -> x ∈ (universe graph)) as Hnodes'
      by (intros; apply Hnodes; right; assumption).
    destruct (bool_decide (node ∉ visited m)) eqn:Hseen.
    + apply bool_decide_eq_true in Hseen.
      destruct (dfs_run _ node m Hsub (Hnodes _ (or_introl eq_refl)) Hseen (Hsize m))
        as ([] & m1 & -> & Hfalse).
      * exists true, m1. split; [reflexivity | discriminate].
      * destruct (Hfalse eq_refl) as (Hrec1 & Hvis1).
        destruct (IH m1) as (found & m' & -> & Hfalse'); [| exact Hnodes' |].
        -- rewrite Hrec1. clear - Hsub Hvis1. set_solver.
        -- exists found, m'. split; [reflexivity|]. intros Hf.
           destruct (Hfalse' Hf) as (Hrec' & Hvis'). split; [congruence|].
           clear - Hvis1 Hvis'. set_solver.
    + apply IH; assumption.
Qed.
End dfs_depth.

(** *** The graph that [build_graph] returns *)

Lemma can_hash_inr v : can_hash v = true -> exists k, hash_key v = inr k.
Proof. unfold can_hash. destruct (hash_key v); [discriminate | eauto]. Qed.

Lemma build_graph_run {S} (items : list json) (graph : list (hkey * json)) (s : S) :
  forallb dependency_shaped items = true ->
  for_fold items graph (fun step graph =>
    has_id ← lift (py_in "id" step);
    if has_id : bool then
      step_id ← lift (py_getitem step "id");
      depends_on ← lift (py_get step "depends_on" (JArr []));
      key ← lift (hash_key step_id);
      mret (dict_set key depends_on graph)
    else mret graph) s = Ok (graph_of items graph) s.
Proof.
  revert graph. induction items as [|step items IH]; intros graph Hshape; [reflexivity|].
  simpl in Hshape. apply andb_prop in Hshape as [Hstep Hitems].
  simpl. unfold py_bind at 1.
  destruct step as [| | | | |m]; try discriminate.
  unfold dependency_shaped in Hstep. apply andb_prop in Hstep as [Hid _].
  unfold step_key, depends_on_of.
  unfold mbind, Py_bind, py_bind, lift, py_in, py_getitem, py_get, has_key. simpl.
  destruct (lookup_key "id" m) as [v|]; simpl.
  - apply can_hash_inr in Hid as (k & ->). simpl. apply IH, Hitems.
  - apply IH, Hitems.
Qed.


Lemma dict_get_set_ne {A} k k' (v : A) g :
  k <> k' -> dict_get k' (dict_set k v g) = dict_get k' g.
Proof.
  intros Hne. induction g as [|[k1 v1] g IH]; simpl.
  - rewrite bool_decide_eq_false_2; [reflexivity | congruence].
  - destruct (bool_decide (k = k1)) eqn:E; simpl.
    + apply bool_decide_eq_true in E. subst k1.
      rewrite !bool_decide_eq_false_2 by congruence. reflexivity.
    + destruct (bool_decide (k' = k1)); [reflexivity | exact IH].
Qed.

Lemma In_dict_set {A} k (v : A) g k' v' :
  In (k', v') (dict_set k v g) -> (k', v') = (k, v) \/ In (k', v') g.
Proof.
  induction g as [|[k1 v1] g IH]; simpl.
  - intros [H|[]]. left. congruence.
  - destruct (bool_decide (k = k1)); simpl.
    + intros [H|H]; [left; congruence | right; right; exact H].
    + intros [H|H]; [right; left; exact H|].
      destruct (IH H); [left | right; right]; assumption.
Qed.

Lemma dict_get_In {A} k (v : A) g : dict_get k g = Some v -> In (k, v) g.
Proof.
  induction g as [|[k' v'] g IH]; simpl; [discriminate|].
  destruct (bool_decide (k = k')) eqn:E.
  - apply bool_decide_eq_true in E. intros [= ->]. left. congruence.
  - intros H. right. exact (IH H).
Qed.



Lemma graph_of_values items : forall graph k v,
  In (k, v) (graph_of items graph) ->
  In (k, v) graph \/ exists step, In step items /\ v = depends_on_of step.
Proof.
  induction items as [|x items IH]; intros graph k v H; simpl in *; [auto|].
  destruct (IH _ _ _ H) as [H1|(step & ? & ?)]; [|right; eauto].
  destruct (step_key x); [|auto].
  apply In_dict_set in H1 as [[= -> ->]|H1]; [right; eauto | auto].
Qed.

Lemma graph_of_ok items :
  forallb dependency_shaped items = true -> graph_ok (graph_of items []).
Proof.
  intros Hshape k v H.
  apply graph_of_values in H as [[]|(step & Hin & ->)].
  rewrite forallb_forall in Hshape. specialize (Hshape _ Hin).
  unfold dependency_shaped in Hshape.
  destruct step; try discriminate. apply andb_prop in Hshape as [_ Hdeps].
  destruct (py_iter (depends_on_of (JObj members))) as [|ns]; [discriminate|].
  exists ns. split; [reflexivity|]. intros n Hn.
  rewrite forallb_forall in Hdeps. apply can_hash_inr, Hdeps, Hn.
Qed.


(** *** The check on well-shaped steps *)

Lemma with_errors_nil self : with_errors self [] = self.
Proof. destruct self. unfold with_errors. simpl. rewrite app_nil_r. reflexivity. Qed.

Lemma with_errors_app self es1 es2 :
  with_errors (with_errors self es1) es2 = with_errors self (es1 ++ es2).
Proof. unfold with_errors. simpl. rewrite app_assoc. reflexivity. Qed.


Lemma lift_inr_bind {S A B} (a : A) (f : A -> Py S B) (s : S) :
  (lift (inr a) ≫= f) s = f a s.
Proof. reflexivity. Qed.

Lemma for_each_cons {S A} (x : A) (xs : list A) (body : A -> Py S unit) (s : S) :
  for_each (x :: xs) body s =
  match body x s with
  | Ok _ s' => for_each xs body s'
  | Raise e s' => Raise e s'
  end.
Proof. reflexivity. Qed.

Lemma py_get_obj m k d :
  py_get (JObj m) k d = inr (match lookup_key k m with Some v => v | None => d end).
Proof. reflexivity. Qed.

Lemma add_error_run m self : add_error m self = Ok tt (with_errors self [m]).
Proof. reflexivity. Qed.





(** ** C7 and C10: references to outputs *)

Lemma extended_nil self : extended self [] [] = self.
Proof. destruct self. unfold extended. simpl. rewrite !app_nil_r. reflexivity. Qed.

Lemma extended_app self es1 ws1 es2 ws2 :
  extended (extended self es1 ws1) es2 ws2 = extended self (es1 ++ es2) (ws1 ++ ws2).
Proof. unfold extended. simpl. rewrite !app_assoc. reflexivity. Qed.

Lemma add_error_ext m self : add_error m self = Ok tt (extended self [m] []).
Proof. unfold extended. rewrite app_nil_r. reflexivity. Qed.

Lemma add_warning_ext m self : add_warning m self = Ok tt (extended self [] [m]).
Proof. unfold extended. rewrite app_nil_r. reflexivity. Qed.

Lemma check_refs_run av step_id refs : forall self,
  for_each refs (check_ref av step_id) self
  = Ok tt (extended self (ref_errors av step_id refs) (ref_warnings av step_id refs)).
Proof.
  induction refs as [|[x y] refs IH]; intros self.
  - simpl. rewrite extended_nil. reflexivity.
  - rewrite for_each_cons. unfold check_ref at 1.
    unfold ref_errors, ref_warnings. simpl flat_map.
    fold (ref_errors av step_id refs). fold (ref_warnings av step_id refs).
    destruct (av !! KStr x) as [fields|].
    + destruct (bool_decide (y ∉ fields)).
      * change (when true ?m) with m.
        rewrite add_warning_ext. cbv beta iota. rewrite IH, extended_app. reflexivity.
      * change (when false ?m self) with (Ok tt self).
        cbv beta iota. rewrite IH. reflexivity.
    + rewrite add_error_ext. cbv beta iota. rewrite IH, extended_app. reflexivity.
Qed.

Lemma for_fold_cons {S A B} (x : A) (xs : list A) (acc : B) (body : A -> B -> Py S B)
    (s : S) :
  for_fold (x :: xs) acc body s =
  match body x acc s with
  | Ok acc' s' => for_fold xs acc' body s'
  | Raise e s' => Raise e s'
  end.
Proof. reflexivity. Qed.

Lemma data_flow_step_run step av self :
  data_flow_shaped step = true ->
  data_flow_step step av self
  = Ok (register step av)
       (extended self (ref_errors av (step_id_of step) (references step))
                      (ref_warnings av (step_id_of step) (references step))).
Proof.
  intros Hshape. destruct step as [| | | | |m]; try discriminate.
  unfold data_flow_step. rewrite !py_get_obj, lift_inr_bind. cbv beta.
  rewrite lift_inr_bind. cbv beta zeta.
  rewrite (bind_run _ _ _ _ _ (check_refs_run av _ _ self)).
  unfold register, registers, references, step_inputs, step_id_of in *.
  unfold data_flow_shaped, step_id_of in Hshape.
  unfold py_in, py_getitem, has_key.
  destruct (lookup_key "outputs" m) as [outputs|]; simpl.
  - destruct outputs; try discriminate. apply can_hash_inr in Hshape as (k & ->).
    reflexivity.
  - reflexivity.
Qed.

Lemma data_flow_run items : forall av self,
  forallb data_flow_shaped items = true ->
  for_fold items av data_flow_step self
  = Ok (flow_outputs items av)
       (extended self (flow_errors items av) (flow_warnings items av)).
Proof.
  induction items as [|step items IH]; intros av self Hshape.
  - simpl. rewrite extended_nil. reflexivity.
  - simpl in Hshape. apply andb_prop in Hshape as [Hstep Hitems].
    rewrite for_fold_cons, (data_flow_step_run _ _ _ Hstep).
    rewrite IH by exact Hitems. simpl. rewrite extended_app. reflexivity.
Qed.

Lemma data_flow_app items1 items2 av :
  flow_outputs (items1 ++ items2) av = flow_outputs items2 (flow_outputs items1 av) /\
  flow_errors (items1 ++ items2) av
  = flow_errors items1 av ++ flow_errors items2 (flow_outputs items1 av) /\
  flow_warnings (items1 ++ items2) av
  = flow_warnings items1 av ++ flow_warnings items2 (flow_outputs items1 av).
Proof.
  revert av. induction items1 as [|step items1 IH]; intros av; simpl.
  - auto.
  - destruct (IH (register step av)) as (-> & -> & ->).
    rewrite !app_assoc. auto.
Qed.

Lemma flow_outputs_keep items (k : hkey) : forall av,
  (forall M, In M items -> forall k' ns, registers M = Some (k', ns) -> k' <> k) ->
  flow_outputs items av !! k = av !! k.
Proof.
  induction items as [|step items IH]; intros av Hother; [reflexivity|].
  simpl. rewrite IH by (intros; eapply Hother; eauto; right; assumption).
  unfold register. destruct (registers step) as [[k' ns]|] eqn:Hreg; [|reflexivity].
  apply lookup_insert_ne. eapply Hother; [left; reflexivity | exact Hreg].
Qed.

Lemma data_flow_whole (prefix post : list json) (S : json) (self : WorkflowValidator) :
  forallb data_flow_shaped (prefix ++ S :: post) = true ->
  let av := flow_outputs prefix ∅ in
  let s1 := extended self (flow_errors prefix ∅) (flow_warnings prefix ∅) in
  let es := ref_errors av (step_id_of S) (references S) in
  let ws := ref_warnings av (step_id_of S) (references S) in
  for_fold prefix ∅ data_flow_step self = Ok av s1 /\
  data_flow_step S av s1 = Ok (register S av) (extended s1 es ws) /\
  _validate_data_flow (JArr (prefix ++ S :: post)) self
  = Ok tt (extended (extended s1 es ws)
             (flow_errors post (register S av)) (flow_warnings post (register S av))).
Proof.
  intros Hshape av s1 es ws.
  pose proof Hshape as Hall.
  rewrite forallb_app in Hshape. apply andb_prop in Hshape as [Hprefix Hrest].
  simpl in Hrest. apply andb_prop in Hrest as [HS Hpost].
  split; [apply data_flow_run, Hprefix|].
  split; [apply data_flow_step_run, HS|].
  unfold _validate_data_flow.
  change (py_iter (JArr ?l)) with (@inr exn _ l).
  rewrite lift_inr_bind. cbv beta.
  rewrite (bind_run _ _ _ _ _ (data_flow_run _ ∅ self Hall)).
  destruct (data_flow_app prefix (S :: post) ∅) as (_ & -> & ->).
  subst s1 es ws av. simpl. rewrite !extended_app, !app_assoc. reflexivity.
Qed.

(** C7. In a list of well-shaped steps, let [X] be a step with an id [x]
    and an [outputs] dictionary that does not declare [y], let no step
    between [X] and a later step [S] register outputs under [x] again, and
    let the inputs of [S] hold a reference to [x].[y].  The check returns
    and, while it handles [S], it adds the warning that names [S], [y] and
    [x], and no "unknown step" error for [x]. *)
Theorem undeclared_field_is_a_warning (pre mid post : list json) (X S : json)
    (x y : string) (names : list string) (self : WorkflowValidator) :
  forallb data_flow_shaped (pre ++ X :: mid ++ S :: post) = true ->
  registers X = Some (KStr x, names) ->
  ~ In y names ->
  (forall M, In M mid -> forall k ns, registers M = Some (k, ns) -> k <> KStr x) ->
  In (x, y) (references S) ->
  exists av s1 es ws es' ws',
    for_fold (pre ++ X :: mid) ∅ data_flow_step self = Ok av s1 /\
    data_flow_step S av s1 = Ok (register S av) (extended s1 es ws) /\
    In (undeclared_field_warning (step_id_of S) y x) ws /\
    ~ In (unknown_step_error (step_id_of S) x) es /\
    _validate_data_flow (JArr (pre ++ X :: mid ++ S :: post)) self
    = Ok tt (extended (extended s1 es ws) es' ws').
Proof.
  intros Hshape HX Hy Hmid Href.
  replace (pre ++ X :: mid ++ S :: post) with ((pre ++ X :: mid) ++ S :: post) in *
    by (rewrite <- app_assoc; reflexivity).
  destruct (data_flow_whole (pre ++ X :: mid) post S self Hshape) as (Hpre & HS & Hall).
  set (av := flow_outputs (pre ++ X :: mid) ∅) in *.
  assert (av !! KStr x = Some (list_to_set names)) as Hav.
  { unfold av. destruct (data_flow_app pre (X :: mid) ∅) as (-> & _ & _).
    simpl. rewrite flow_outputs_keep by exact Hmid.
    unfold register. rewrite HX. apply lookup_insert_eq. }
  eexists _, _, _, _, _, _.
  split; [exact Hpre|]. split; [exact HS|]. split; [|split; [|exact Hall]].
  - unfold ref_warnings. apply in_flat_map. exists (x, y). split; [exact Href|].
    simpl. rewrite Hav. rewrite bool_decide_eq_true_2; [left; reflexivity|].
    rewrite elem_of_list_to_set, list_elem_of_In. exact Hy.
  - unfold ref_errors. intros Hin. apply in_flat_map in Hin as ([x' y'] & _ & Hin).
    simpl in Hin. destruct (av !! KStr x') eqn:Hx'; [destruct Hin|].
    destruct Hin as [Heq|[]]. injection Heq as ->. congruence.
Qed.

(** C10. In a list of well-shaped steps, let [S] be a step with the id
    [sid] whose inputs hold a reference to an output of [sid], and let no
    earlier step register outputs under [sid].  The check returns and,
    while it handles [S], it adds the error "references output from
    unknown step" that names [S] twice, whether or not [S] declares the
    field. *)
Theorem own_output_is_unknown (pre post : list json) (S : json) (sid y : string)
    (self : WorkflowValidator) :
  forallb data_flow_shaped (pre ++ S :: post) = true ->
  step_id_of S = JStr sid ->
  In (sid, y) (references S) ->
  (forall P, In P pre -> forall k ns, registers P = Some (k, ns) -> k <> KStr sid) ->
  exists av s1 es ws es' ws',
    for_fold pre ∅ data_flow_step self = Ok av s1 /\
    data_flow_step S av s1 = Ok (register S av) (extended s1 es ws) /\
    In (unknown_step_error (JStr sid) sid) es /\
    _validate_data_flow (JArr (pre ++ S :: post)) self
    = Ok tt (extended (extended s1 es ws) es' ws').
Proof.
  intros Hshape Hid Href Hpre.
  destruct (data_flow_whole pre post S self Hshape) as (Hrun & HS & Hall).
  eexists _, _, _, _, _, _.
  split; [exact Hrun|]. split; [exact HS|]. split; [|exact Hall].
  unfold ref_errors. apply in_flat_map. exists (sid, y). split; [exact Href|].
  simpl. rewrite flow_outputs_keep by exact Hpre.
  rewrite lookup_empty, Hid. left. reflexivity.
Qed.

(** ** C3: the synthesis of outputs *)

(** C3, as stated, fails: [widget_name] contains [id], so the first rule
    applies to it and not the rule for names. *)
Lemma widget_name_is_an_id :
  ~ examples_as_specified sample_uuid4_hex sample_now_isoformat
      (new_executor sample_uuid4_hex false).
Proof. intros (_ & _ & H & _). vm_compute in H. discriminate H. Qed.

Lemma simulate_output_rule uuid4_hex now_isoformat field self :
  exists v self',
    simulate_output uuid4_hex now_isoformat field self = Ok v self' /\
    first_matching_rule uuid4_hex now_isoformat field v.
Proof.
  unfold simulate_output, first_matching_rule.
  destruct (contains "id" (lower field)); [eexists _, _; split; [reflexivity | eauto]|].
  destruct (contains "name" (lower field)); [eexists _, _; split; reflexivity|].
  destruct (contains "date" (lower field) || contains "time" (lower field));
    [eexists _, _; split; [reflexivity | eauto]|].
  destruct (contains "count" (lower field)); eexists _, _; split; reflexivity.
Qed.

Lemma str_dict_get_set {A} k k' (v : A) d :
  str_dict_get k' (str_dict_set k v d)
  = if String.eqb k' k then Some v else str_dict_get k' d.
Proof.
  induction d as [|[k1 v1] d IH]; simpl.
  - destruct (String.eqb k' k); reflexivity.
  - destruct (String.eqb k k1) eqn:E; simpl.
    + apply String.eqb_eq in E. subst k1. destruct (String.eqb k' k); reflexivity.
    + destruct (String.eqb k' k1) eqn:E1.
      * apply String.eqb_eq in E1. subst k1.
        rewrite String.eqb_sym, E. reflexivity.
      * exact IH.
Qed.

Lemma simulate_outputs_loop uuid4_hex now_isoformat (items : list (string * json)) :
  forall simulated self,
    (forall k v, str_dict_get k simulated = Some v ->
                 first_matching_rule uuid4_hex now_isoformat k v) ->
    exists sim self',
      for_fold items simulated (fun '(key, jsonpath) simulated =>
        v ← simulate_output uuid4_hex now_isoformat key;
        mret (str_dict_set key v simulated)) self = Ok sim self' /\
      (forall k v, str_dict_get k sim = Some v ->
                   first_matching_rule uuid4_hex now_isoformat k v) /\
      (forall k, In k (map fst items) \/ str_dict_get k simulated <> None ->
                 str_dict_get k sim <> None).
Proof.
  induction items as [|[key jsonpath] items IH]; intros simulated self Hrule.
  - exists simulated, self. split; [reflexivity|]. split; [exact Hrule|].
    intros k [[]|H]; exact H.
  - rewrite for_fold_cons.
    destruct (simulate_output_rule uuid4_hex now_isoformat key self)
      as (v & self1 & Hrun & Hv).
    rewrite (bind_run _ _ _ _ _ Hrun).
    destruct (IH (str_dict_set key v simulated) self1) as (sim & self' & Hloop & Hsim & Hkeys).
    + intros k v'. rewrite str_dict_get_set.
      destruct (String.eqb k key) eqn:E; [|apply Hrule].
      apply String.eqb_eq in E. subst k. intros [= <-]. exact Hv.
    + exists sim, self'. split; [exact Hloop|]. split; [exact Hsim|].
      intros k Hk. apply Hkeys. rewrite str_dict_get_set.
      destruct (String.eqb k key) eqn:E; [right; discriminate|].
      destruct Hk as [[Hk|Hk]|Hk]; [|left; exact Hk|right; exact Hk].
      simpl in Hk. subst k. rewrite String.eqb_refl in E. discriminate.
Qed.

(** C3, amended. Every field declared in the [outputs] dictionary of a
    step gets a value, and the value is the one of the first rule that
    applies, in the order id, name, date or time, count, default.  Of the
    examples, [customer_count] gives 42, [created_date] the time read
    from the clock, [status] gives [<mock_status>]; [widget_name] contains
    [id] and gives [mock_widget_name_] and eight hexadecimal digits, while
    a name without [id] such as [full_name] gives [Mock Full_Name]. *)
Theorem outputs_follow_the_first_rule (uuid4_hex now_isoformat : nat -> string)
    (m outputs : list (string * json)) (self : DryRunExecutor) :
  lookup_key "outputs" m = Some (JObj outputs) ->
  (exists sim self',
     _simulate_outputs uuid4_hex now_isoformat (JObj m) self = Ok sim self' /\
     forall field, In field (map fst outputs) ->
       exists v, str_dict_get field sim = Some v /\
                 first_matching_rule uuid4_hex now_isoformat field v) /\
  synthesized uuid4_hex now_isoformat self "customer_count" = MockInt 42 /\
  synthesized uuid4_hex now_isoformat self "created_date"
  = MockStr (now_isoformat (clock_reads self)) /\
  synthesized uuid4_hex now_isoformat self "widget_name"
  = MockStr ("mock_widget_name_" +:+ substring 0 8 (uuid4_hex (uuids_drawn self))) /\
  synthesized uuid4_hex now_isoformat self "status" = MockStr "<mock_status>" /\
  synthesized uuid4_hex now_isoformat self "full_name" = MockStr "Mock Full_Name".
Proof.
  intros Hout. split; [|repeat split; reflexivity].
  unfold _simulate_outputs. rewrite py_get_obj, Hout, lift_inr_bind. cbv beta.
  change (py_items (JObj outputs)) with (@inr exn _ outputs).
  rewrite lift_inr_bind. cbv beta.
  destruct (simulate_outputs_loop uuid4_hex now_isoformat outputs [] self)
    as (sim & self' & Hrun & Hrule & Hkeys); [discriminate|].
  exists sim, self'. split; [exact Hrun|].
  intros field Hin. specialize (Hkeys field (or_introl Hin)).
  destruct (str_dict_get field sim) as [v|] eqn:Hv; [|congruence].
  exists v. split; [reflexivity | apply Hrule, Hv].
Qed.

(** ** C5: a dependency declared later *)

Lemma modify_bind {S B} (g : S -> S) (f : unit -> Py S B) (s : S) :
  (modify g ≫= f) s = f tt (g s).
Proof. reflexivity. Qed.

Lemma gets_bind {S A B} (g : S -> A) (f : A -> Py S B) (s : S) :
  (gets g ≫= f) s = f (g s) s.
Proof. reflexivity. Qed.

Section execution.
Variables uuid4_hex now_isoformat : nat -> string.

Lemma simulate_output_frame field self v self' :
  simulate_output uuid4_hex now_isoformat field self = Ok v self' ->
  simulated_outputs self' = simulated_outputs self /\ stdout self' = stdout self /\
  verbose self' = verbose self.
Proof.
  unfold simulate_output.
  destruct (contains "id" (lower field)); [intros [= <- <-]; auto|].
  destruct (contains "name" (lower field)); [intros [= <- <-]; auto|].
  destruct (contains "date" (lower field) || contains "time" (lower field));
    [intros [= <- <-]; auto|].
  destruct (contains "count" (lower field)); intros [= <- <-]; auto.
Qed.

Lemma simulate_outputs_frame (items : list (string * json)) :
  forall simulated self, exists sim self',
    for_fold items simulated (fun '(key, jsonpath) simulated =>
      v ← simulate_output uuid4_hex now_isoformat key;
      mret (str_dict_set key v simulated)) self = Ok sim self' /\
    simulated_outputs self' = simulated_outputs self /\ stdout self' = stdout self /\
    verbose self' = verbose self.
Proof.
  induction items as [|[key jsonpath] items IH]; intros simulated self.
  - exists simulated, self. auto.
  - rewrite for_fold_cons.
    destruct (simulate_output_rule uuid4_hex now_isoformat key self)
      as (v & self1 & Hrun & _).
    rewrite (bind_run _ _ _ _ _ Hrun).
    apply simulate_output_frame in Hrun as (H1 & H2 & H3).
    destruct (IH (str_dict_set key v simulated) self1)
      as (sim & self' & Hloop & H1' & H2' & H3').
    exists sim, self'. split; [exact Hloop|]. repeat split; congruence.
Qed.

Lemma simulate_outputs_run step self :
  is_obj step = true -> is_obj (step_outputs step) = true ->
  exists sim self',
    _simulate_outputs uuid4_hex now_isoformat step self = Ok sim self' /\
    simulated_outputs self' = simulated_outputs self /\ stdout self' = stdout self /\
    verbose self' = verbose self.
Proof.
  intros Hobj Hout. destruct step as [| | | | |m]; try discriminate.
  unfold _simulate_outputs. rewrite py_get_obj, lift_inr_bind. cbv beta.
  unfold step_outputs in Hout.
  destruct (match lookup_key "outputs" m with Some v => v | None => JObj [] end)
    as [| | | | |outputs]; try discriminate.
  change (py_items (JObj outputs)) with (@inr exn _ outputs).
  rewrite lift_inr_bind. cbv beta. apply simulate_outputs_frame.
Qed.

Ltac exec :=
  repeat first [ rewrite lift_inr_bind | rewrite modify_bind | rewrite gets_bind
               | progress cbv beta ].

Lemma when_bind {S B} (c : bool) (m : Py S unit) (f : unit -> Py S B) (s : S) :
  (when c m ≫= f) s = if c then (m ≫= f) s else f tt s.
Proof. destruct c; reflexivity. Qed.

Lemma print_bind {B} (m : message) (f : unit -> E B) self :
  (print m ≫= f) self = f tt (printed self m).
Proof. reflexivity. Qed.

Lemma record_bind {B} key outputs (f : unit -> E B) self :
  (record_outputs key outputs ≫= f) self = f tt (recorded self key outputs).
Proof. reflexivity. Qed.

Lemma simulate_operation_run m self :
  negb (synthesizes (JObj m))
  || is_obj (step_outputs (JObj m)) && can_hash (step_id_of (JObj m)) = true ->
  exists self',
    simulate_operation uuid4_hex now_isoformat (JObj m) (step_id_of (JObj m))
      (step_operation (JObj m)) self = Ok tt self' /\
    forall k, known self' k -> known self k \/ records (JObj m) = Some k.
Proof.
  intros Hsyn. unfold records, synthesizes in *. unfold simulate_operation.
  assert (forall label,
    is_obj (step_outputs (JObj m)) && can_hash (step_id_of (JObj m)) = true ->
    exists self',
      (print [Txt label];;
       outputs ← _simulate_outputs uuid4_hex now_isoformat (JObj m);
       key ← lift (hash_key (step_id_of (JObj m)));
       record_outputs key outputs;;
       when (negb (Nat.eqb (length outputs) 0))
         (print [Txt (if String.eqb label "       [+] Query executed (read-only)"
                      then "       Outputs: " else "       Simulated Outputs: ");
                 Val (mocks_json outputs)])) self = Ok tt self' /\
      forall k, known self' k ->
        known self k \/
        match hash_key (step_id_of (JObj m)) with
        | inr k0 => Some k0
        | inl _ => None
        end = Some k) as Hrecord.
  { intros label Hok. apply andb_prop in Hok as [Hout Hid].
    apply can_hash_inr in Hid as (key & Hkey). rewrite Hkey.
    rewrite print_bind.
    match goal with |- context [(_simulate_outputs _ _ _ ≫= _) ?s] =>
      destruct (simulate_outputs_run (JObj m) s eq_refl Hout)
        as (sim & s1 & Hrun & Hsim & _) end.
    rewrite (bind_run _ _ _ _ _ Hrun). rewrite lift_inr_bind. cbv beta.
    rewrite record_bind.
    assert (forall k, known (recorded s1 key sim) k ->
              known self k \/ Some key = Some k) as Hknown.
    { intros k. unfold known. simpl. destruct (decide (key = k)) as [->|Hne]; [auto|].
      rewrite dict_get_set_ne by exact Hne. rewrite Hsim. auto. }
    destruct (negb (length sim =? 0)); eexists; (split; [reflexivity|]);
      exact Hknown. }
  destruct (is_str "query" (step_operation (JObj m))) eqn:Hq.
  { simpl in Hsyn. apply (Hrecord "       [+] Query executed (read-only)" Hsyn). }
  destruct (is_str "mutation" (step_operation (JObj m))) eqn:Hm.
  { simpl in Hsyn. apply (Hrecord "       [~] Mutation SKIPPED (dry-run mode)" Hsyn). }
  destruct (is_str "workflow" (step_operation (JObj m))).
  - rewrite py_get_obj, lift_inr_bind. eexists. split; [reflexivity|]. auto.
  - eexists. split; [reflexivity|]. auto.
Qed.

Lemma collect_run {A B} (f : A -> result B) (l : list A) :
  (forall x, In x l -> exists y, f x = inr y) -> exists ys, collect f l = inr ys.
Proof.
  induction l as [|x l IH]; intros Hf; [exists []; reflexivity|].
  destruct (Hf x (or_introl eq_refl)) as (y & Hy).
  destruct IH as (ys & Hys); [intros x' Hx'; apply Hf; right; exact Hx'|].
  exists (y :: ys). simpl. rewrite Hy, Hys. reflexivity.
Qed.

Lemma nesting_item (l : list json) (x : json) : In x l -> nesting x <= list_max (map nesting l).
Proof.
  intros Hx.
  pose proof (proj1 (list_max_le (map nesting l) (list_max (map nesting l)))
                (Nat.le_refl _)) as Hall.
  rewrite List.Forall_forall in Hall. apply Hall, in_map, Hx.
Qed.

Lemma nesting_member (m : list (string * json)) (kv : string * json) :
  In kv m -> nesting (snd kv) <= list_max (map (fun kv => nesting (snd kv)) m).
Proof.
  intros Hkv.
  pose proof (proj1 (list_max_le (map (fun kv => nesting (snd kv)) m)
                       (list_max (map (fun kv => nesting (snd kv)) m)))
                (Nat.le_refl _)) as Hall.
  rewrite List.Forall_forall in Hall.
  apply Hall. apply (in_map (fun kv => nesting (snd kv))). exact Hkv.
Qed.

(** With room for the nesting of the value, [_resolve_inputs] returns. *)
Lemma resolve_run depth : forall sim v,
  nesting v <= depth -> exists v', resolve depth sim v = inr v'.
Proof.
  induction depth as [|depth IH]; intros sim v Hv.
  - destruct v; simpl in Hv; lia.
  - destruct v as [| | | |l|m]; try (eexists; reflexivity).
    + cbn [nesting] in Hv. apply le_S_n in Hv.
      destruct (collect_run (resolve depth sim) l) as (l' & Hl).
      { intros x Hx. apply IH. etrans; [apply nesting_item, Hx | exact Hv]. }
      exists (JArr l'). cbn [resolve]. rewrite Hl. reflexivity.
    + cbn [nesting] in Hv. apply le_S_n in Hv.
      destruct (collect_run (fun kv : string * json =>
                               match resolve depth sim (snd kv) with
                               | inl e => inl e
                               | inr v => inr (fst kv, v)
                               end) m) as (m' & Hm).
      { intros kv Hkv. destruct (IH sim (snd kv)) as (v' & Hv').
        - etrans; [apply nesting_member, Hkv | exact Hv].
        - rewrite Hv'. eexists. reflexivity. }
      exists (JObj m'). cbn [resolve]. rewrite Hm. reflexivity.
Qed.

Lemma resolve_inputs_run inputs self :
  nesting inputs <= resolve_limit ->
  exists resolved, _resolve_inputs inputs self = Ok resolved self.
Proof.
  intros Hroom. destruct (resolve_run _ (simulated_outputs self) _ Hroom) as (v' & Hv').
  exists v'. unfold _resolve_inputs. rewrite gets_bind, Hv'. reflexivity.
Qed.

Lemma resolve_inputs_Ok inputs self resolved self' :
  _resolve_inputs inputs self = Ok resolved self' -> self' = self.
Proof.
  unfold _resolve_inputs. rewrite gets_bind. unfold lift.
  destruct (resolve resolve_limit (simulated_outputs self) inputs); [discriminate|].
  intros [= _ <-]. reflexivity.
Qed.

Lemma simulate_step_run step self :
  execution_shaped step = true ->
  resolvable step = true ->
  exists self',
    _simulate_step uuid4_hex now_isoformat step self = Ok true self' /\
    forall k, known self' k -> known self k \/ records step = Some k.
Proof.
  intros Hshape Hroom. unfold execution_shaped in Hshape.
  apply andb_prop in Hshape as [Hshape Hsyn]. apply andb_prop in Hshape as [Hobj _].
  destruct step as [| | | | |m]; try discriminate.
  unfold resolvable, step_inputs in Hroom. apply Nat.leb_le in Hroom.
  destruct (resolve_inputs_run _ self Hroom) as (resolved & Hresolved).
  unfold _simulate_step.
  rewrite !py_get_obj. exec.
  rewrite (bind_run _ _ _ _ _ Hresolved).
  exec. rewrite when_bind.
  match goal with |- context [if ?c then _ else _] => destruct c end.
  - rewrite print_bind.
    match goal with |- context [(simulate_operation _ _ _ _ _ ≫= _) ?s] =>
      destruct (simulate_operation_run m s Hsyn) as (self' & Hrun & Hknown) end.
    unfold step_id_of, step_operation in Hrun.
    rewrite (bind_run _ _ _ _ _ Hrun). exists self'. split; [reflexivity|].
    exact Hknown.
  - destruct (simulate_operation_run m self Hsyn) as (self' & Hrun & Hknown).
    unfold step_id_of, step_operation in Hrun.
    rewrite (bind_run _ _ _ _ _ Hrun). exists self'. split; [reflexivity|].
    exact Hknown.
Qed.

Lemma all_str_In l ss dep :
  all_str l = inr ss -> In dep l -> exists s, dep = JStr s.
Proof.
  revert ss. induction l as [|x l IH]; intros ss Hall Hin; [destruct Hin|].
  simpl in Hall. destruct x; try discriminate.
  destruct (all_str l) as [|ss'] eqn:Hl; [discriminate|].
  destruct Hin as [<-|Hin]; [eauto | eapply IH; eauto].
Qed.

Lemma check_dependencies_cons dep deps :
  check_dependencies (dep :: deps) =
  (key ← lift (hash_key dep);
   sim ← gets simulated_outputs;
   match dict_get key sim with
   | None =>
       print [Txt "       [-] ERROR: Dependency '"; Val dep; Txt "' not satisfied"];;
       mret false
   | Some _ => check_dependencies deps
   end).
Proof. reflexivity. Qed.

(** The loop over [depends_on] stops at the first dependency without an
    entry; the fault is then the last line printed. *)
Lemma check_dependencies_run deps : forall ss self,
  all_str deps = inr ss ->
  exists satisfied self',
    check_dependencies deps self = Ok satisfied self' /\
    (satisfied = true ->
     self' = self /\
     forall dep k, In dep deps -> hash_key dep = inr k -> known self k) /\
    (satisfied = false ->
     exists dep, In dep deps /\ last (stdout self') = Some (dependency_fault dep)).
Proof.
  induction deps as [|dep deps IH]; intros ss self Hall.
  - exists true, self. split; [reflexivity|]. split; [|discriminate].
    intros _. split; [reflexivity|]. intros ? ? [].
  - simpl in Hall. destruct dep as [| | |s| |]; try discriminate.
    destruct (all_str deps) as [|ss'] eqn:Hdeps; [discriminate|].
    rewrite check_dependencies_cons.
    change (hash_key (JStr s)) with (@inr exn _ (KStr s)).
    rewrite lift_inr_bind. cbv beta. rewrite gets_bind.
    destruct (dict_get (KStr s) (simulated_outputs self)) as [outputs|] eqn:Hget.
    + destruct (IH ss' self eq_refl) as (b & self' & Hrun & Htrue & Hfalse).
      exists b, self'. split; [exact Hrun|]. split.
      * intros Hb. destruct (Htrue Hb) as (-> & Hall'). split; [reflexivity|].
        intros dep k [<-|Hin] Hk; [|eauto].
        injection Hk as <-. unfold known. rewrite Hget. discriminate.
      * intros Hb. destruct (Hfalse Hb) as (dep & Hin & Hlast).
        exists dep. split; [right; exact Hin | exact Hlast].
    + rewrite print_bind. eexists false, _. split; [reflexivity|].
      split; [discriminate|]. intros _. exists (JStr s). split; [left; reflexivity|].
      simpl. apply last_snoc.
Qed.

Lemma py_join_inr sep v joined :
  py_join sep v = inr joined ->
  exists l ss, py_iter v = inr l /\ all_str l = inr ss.
Proof.
  unfold py_join. destruct (py_iter v) as [|l]; [discriminate|].
  destruct (all_str l) as [|ss] eqn:Hall; [discriminate|].
  intros _. exists l, ss. split; [reflexivity | exact Hall].
Qed.

(** One turn of the loop on a well-shaped step, whose inputs are read to
    the end or one of whose dependencies has no entry: it goes on, and
    then every dependency had an entry and the only new entry is the one
    the step records; or it stops on a fault. *)
Lemma execute_step_run i step self :
  execution_shaped step = true ->
  resolvable step = true \/
  (exists l dep k, py_iter (depends_on_of step) = inr l /\ In dep l /\
                   hash_key dep = inr k /\ ~ known self k) ->
  exists continue self',
    execute_step uuid4_hex now_isoformat i step self = Ok continue self' /\
    (continue = true ->
     (forall k, known self' k -> known self k \/ records step = Some k) /\
     (forall l dep k, py_iter (depends_on_of step) = inr l -> In dep l ->
                      hash_key dep = inr k -> known self k)) /\
    (continue = false ->
     exists dep, last (stdout self') = Some (dependency_fault dep)).
Proof.
  intros Hshape Hroom. pose proof Hshape as Hstep. unfold execution_shaped in Hshape.
  apply andb_prop in Hshape as [Hshape _]. apply andb_prop in Hshape as [Hobj Hdeps].
  destruct step as [| | | | |m]; try discriminate.
  unfold execute_step. rewrite !py_get_obj. exec.
  unfold depends_on_of in *.
  set (depends_on := match lookup_key "depends_on" m with
                     | Some v => v
                     | None => JArr []
                     end) in *.
  rewrite !print_bind, when_bind.
  set (s0 := printed (printed self _) _).
  match goal with
  | |- context [if _ then (print ?msg ≫= _) s0 else ?r s0] =>
      set (rest := r); set (line := msg)
  end.
  cut (forall s : DryRunExecutor, simulated_outputs s = simulated_outputs self ->
         exists continue self',
           rest s = Ok continue self' /\
           (continue = true ->
            (forall k, known self' k -> known self k \/ records (JObj m) = Some k) /\
            (forall l dep k, py_iter depends_on = inr l -> In dep l ->
                             hash_key dep = inr k -> known self k)) /\
           (continue = false ->
            exists dep, last (stdout self') = Some (dependency_fault dep))).
  { intros Hrest.
    destruct (truthy match lookup_key "description" m with
                     | Some v => v
                     | None => JStr ""
                     end).
    - apply (Hrest (printed s0 line)). reflexivity.
    - apply (Hrest s0). reflexivity. }
  intros s Hs. unfold rest. exec.
  assert (resolvable (JObj m) = true ->
    forall s1 : DryRunExecutor, simulated_outputs s1 = simulated_outputs self ->
    exists self',
      (simulated ← _simulate_step uuid4_hex now_isoformat (JObj m);
       if negb simulated then mret false else print [];; mret true) s1
      = Ok true self' /\
      (forall k, known self' k -> known self k \/ records (JObj m) = Some k)) as Hsim.
  { intros Hres s1 Hs1.
    destruct (simulate_step_run (JObj m) s1 Hstep Hres) as (s2 & Hrun & Hknown).
    rewrite (bind_run _ _ _ _ _ Hrun). cbv beta.
    change (negb true) with false. cbv iota. rewrite print_bind.
    eexists. split; [reflexivity|].
    intros k Hk. destruct (Hknown k Hk) as [H|H]; [left|right; exact H].
    unfold known in *. rewrite <- Hs1. exact H. }
  destruct (truthy depends_on) eqn:Htruthy.
  - change (negb true || ?x) with x in Hdeps.
    destruct (py_join ", " depends_on) as [|joined] eqn:Hjoin; [discriminate|].
    destruct (py_join_inr _ _ _ Hjoin) as (l & ss & Hiter & Hall).
    destruct (check_dependencies_run l ss
                (printed s [Txt "       Dependencies: "; Val (JStr joined)]) Hall)
      as (b & s2 & Hrun & Htrue & Hfalse).
    assert ((joined ← lift (@inr exn _ joined);
             print [Txt "       Dependencies: "; Val (JStr joined)];;
             deps ← lift (py_iter depends_on);
             check_dependencies deps) s = Ok b s2) as Hrun'.
    { rewrite lift_inr_bind. cbv beta. rewrite print_bind, Hiter, lift_inr_bind.
      exact Hrun. }
    rewrite (bind_run _ _ _ _ _ Hrun'). cbv beta.
    destruct b; [change (negb true) with false | change (negb false) with true];
      cbv iota.
    + destruct (Htrue eq_refl) as (-> & Hsat).
      assert (resolvable (JObj m) = true) as Hres.
      { destruct Hroom as [Hres|(l' & dep & k & Hl' & Hin & Hk & Hnew)]; [exact Hres|].
        exfalso. apply Hnew. rewrite Hiter in Hl'. injection Hl' as <-.
        specialize (Hsat dep k Hin Hk). unfold known in *. simpl in Hsat.
        rewrite <- Hs. exact Hsat. }
      destruct (Hsim Hres (printed s [Txt "       Dependencies: "; Val (JStr joined)]) Hs)
        as (self' & Hrun2 & Hknown).
      exists true, self'. split; [exact Hrun2|]. split; [|discriminate].
      intros _. split; [exact Hknown|]. intros l' dep k Hl' Hin Hk.
      rewrite Hiter in Hl'. injection Hl' as <-.
      specialize (Hsat dep k Hin Hk). unfold known in *. simpl in Hsat.
      rewrite <- Hs. exact Hsat.
    + exists false, s2. split; [reflexivity|]. split; [discriminate|].
      intros _. destruct (Hfalse eq_refl) as (dep & _ & Hlast). eauto.
  - rewrite (bind_run (py_ret true) _ s true s eq_refl). cbv beta.
    change (negb true) with false. cbv iota.
    assert (forall l dep, py_iter depends_on = inr l -> In dep l -> False) as Hnone.
    { intros l dep Hl Hin.
      destruct depends_on as [| | |str|items|members]; try discriminate;
        injection Hl as <-; simpl in Htruthy.
      + destruct str; [destruct Hin | discriminate].
      + destruct items; [destruct Hin | discriminate].
      + destruct members; [destruct Hin | discriminate]. }
    assert (resolvable (JObj m) = true) as Hres.
    { destruct Hroom as [Hres|(l' & dep & k & Hl' & Hin & _)]; [exact Hres|].
      destruct (Hnone l' dep Hl' Hin). }
    destruct (Hsim Hres s Hs) as (self' & Hrun & Hknown).
    exists true, self'. split; [exact Hrun|]. split; [|discriminate].
    intros _. split; [exact Hknown|].
    intros l dep k Hl Hin. destruct (Hnone l dep Hl Hin).
Qed.

Lemma execute_steps_loop_cons i step steps self :
  execute_steps_loop uuid4_hex now_isoformat ((i, step) :: steps) self =
  match execute_step uuid4_hex now_isoformat i step self with
  | Ok true self' => execute_steps_loop uuid4_hex now_isoformat steps self'
  | Ok false self' => Ok false self'
  | Raise e self' => Raise e self'
  end.
Proof.
  simpl. unfold mbind, Py_bind, py_bind.
  destruct (execute_step uuid4_hex now_isoformat i step self) as [[] s|e s];
    reflexivity.
Qed.

Lemma execute_steps_loop_run pre : forall i self,
  forallb execution_shaped pre = true ->
  forallb resolvable pre = true ->
  exists continue self',
    execute_steps_loop uuid4_hex now_isoformat (enumerate_from i pre) self
    = Ok continue self' /\
    (continue = true ->
     forall k, known self' k ->
       known self k \/ exists P, In P pre /\ records P = Some k) /\
    (continue = false ->
     exists dep, last (stdout self') = Some (dependency_fault dep)).
Proof.
  induction pre as [|step pre IH]; intros i self Hshape Hroom.
  - exists true, self. split; [reflexivity|]. split; [auto | discriminate].
  - simpl in Hshape, Hroom. apply andb_prop in Hshape as [Hstep Hpre].
    apply andb_prop in Hroom as [Hres Hroom].
    simpl enumerate_from. rewrite execute_steps_loop_cons.
    destruct (execute_step_run i step self Hstep (or_introl Hres))
      as (c & s1 & -> & Htrue & Hfalse).
    destruct c.
    + destruct (Htrue eq_refl) as (Hknown & _).
      destruct (IH (S i) s1 Hpre Hroom) as (c & self' & Hrun & Htrue' & Hfalse').
      exists c, self'. split; [exact Hrun|]. split; [|exact Hfalse'].
      intros Hc k Hk. destruct (Htrue' Hc k Hk) as [H|(P & HP & HPk)].
      * destruct (Hknown k H) as [H'|H']; [left; exact H'|].
        right. exists step. split; [left; reflexivity | exact H'].
      * right. exists P. split; [right; exact HP | exact HPk].
    + exists false, s1. split; [reflexivity|]. split; [discriminate | exact Hfalse].
Qed.

Lemma enumerate_from_app {A} (l1 l2 : list A) i :
  enumerate_from i (l1 ++ l2) = enumerate_from i l1 ++ enumerate_from (i + length l1) l2.
Proof.
  revert i. induction l1 as [|x l1 IH]; intros i; simpl.
  - rewrite Nat.add_0_r. reflexivity.
  - rewrite IH. do 3 f_equal. lia.
Qed.

Lemma execute_steps_loop_app steps1 steps2 self :
  execute_steps_loop uuid4_hex now_isoformat (steps1 ++ steps2) self =
  match execute_steps_loop uuid4_hex now_isoformat steps1 self with
  | Ok true self' => execute_steps_loop uuid4_hex now_isoformat steps2 self'
  | Ok false self' => Ok false self'
  | Raise e self' => Raise e self'
  end.
Proof.
  revert self. induction steps1 as [|[i step] steps1 IH]; intros self; [reflexivity|].
  rewrite <- app_comm_cons, !execute_steps_loop_cons.
  destruct (execute_step uuid4_hex now_isoformat i step self) as [[] s|e s];
    [apply IH | reflexivity | reflexivity].
Qed.

(** C5. Let the steps of a workflow be well-shaped up to a step [S]
    whose [depends_on] names [D], let the inputs of the steps before [S]
    nest no deeper than the interpreter allows, and let no entry for [D]
    exist when the loop starts nor be recorded by a step before [S], as
    when [D] is the id of a later step only.  Then [_execute_steps]
    returns [False], and the last line it prints is the fault of a
    dependency that is not satisfied. *)
Theorem later_dependency_aborts (m : list (string * json)) (pre post : list json)
    (S : json) (deps : list json) (D : string) (self : DryRunExecutor) :
  lookup_key "steps" m = Some (JArr (pre ++ S :: post)) ->
  forallb execution_shaped (pre ++ [S]) = true ->
  forallb resolvable pre = true ->
  depends_on_of S = JArr deps ->
  In (JStr D) deps ->
  (forall P, In P pre -> records P <> Some (KStr D)) ->
  ~ known self (KStr D) ->
  exists self' dep,
    _execute_steps uuid4_hex now_isoformat (JObj m) self = Ok false self' /\
    last (stdout self') = Some (dependency_fault dep).
Proof.
  intros Hsteps Hshape Hroom Hdeps HD Hpre Hself.
  rewrite forallb_app in Hshape. apply andb_prop in Hshape as [Hshape HS].
  simpl in HS. rewrite andb_true_r in HS.
  unfold _execute_steps. rewrite py_get_obj, Hsteps, lift_inr_bind. cbv beta.
  change (py_len (JArr ?l)) with (@inr exn _ (length l)).
  rewrite lift_inr_bind. cbv beta. rewrite print_bind.
  change (py_iter (JArr ?l)) with (@inr exn _ l).
  rewrite lift_inr_bind. cbv beta.
  unfold enumerate. rewrite enumerate_from_app, execute_steps_loop_app.
  match goal with |- context [execute_steps_loop _ _ (enumerate_from 0 pre) ?s] =>
    destruct (execute_steps_loop_run pre 0 s Hshape Hroom)
      as (c & s1 & -> & Htrue & Hfalse)
  end.
  destruct c; [|exists s1; destruct (Hfalse eq_refl) as (dep & Hlast); eauto].
  simpl enumerate_from. rewrite execute_steps_loop_cons.
  assert (~ known s1 (KStr D)) as Hnew.
  { intros Hknown. destruct (Htrue eq_refl _ Hknown) as [Hk|(P & HP & HPD)].
    - apply Hself. exact Hk.
    - exact (Hpre P HP HPD). }
  destruct (execute_step_run (length pre) S s1 HS) as (c & s2 & -> & Htrue2 & Hfalse2).
  { right. exists deps, (JStr D), (KStr D). rewrite Hdeps. auto. }
  destruct c; [exfalso|exists s2; destruct (Hfalse2 eq_refl) as (dep & Hlast); eauto].
  destruct (Htrue2 eq_refl) as (_ & Hsat).
  rewrite Hdeps in Hsat. exact (Hnew (Hsat deps (JStr D) (KStr D) eq_refl HD eq_refl)).
Qed.
End execution.

(** ** Findings are only appended *)

Lemma after_init self : after self (init (strict_mode self)) = self.
Proof. destruct self. unfold after. simpl. rewrite !app_nil_r. reflexivity. Qed.

Lemma after_after self s1 s2 : after self (after s1 s2) = after (after self s1) s2.
Proof. unfold after. simpl. rewrite !app_assoc. reflexivity. Qed.

Lemma appends_ret {A} (a : A) : appends (mret a).
Proof. intros self. simpl. unfold mret, Py_ret, py_ret. rewrite after_init. reflexivity. Qed.

Lemma appends_raise {A} (e : exn) : appends (py_raise (A := A) e).
Proof. intros self. unfold py_raise. simpl. rewrite after_init. reflexivity. Qed.

Lemma appends_lift {A} (r : result A) : appends (lift r).
Proof. destruct r; [apply appends_raise | apply (appends_ret a)]. Qed.

Lemma appends_strict {A} (m : V A) self :
  appends m -> strict_mode (final_state (m self)) = strict_mode self.
Proof. intros Hm. rewrite Hm. destruct (m (init (strict_mode self))); reflexivity. Qed.

Lemma appends_bind {A B} (m : V A) (f : A -> V B) :
  appends m -> (forall a, appends (f a)) -> appends (m ≫= f).
Proof.
  intros Hm Hf self. unfold mbind, Py_bind, py_bind.
  pose proof (appends_strict m (init (strict_mode self)) Hm) as Hstrict.
  rewrite Hm. destruct (m (init (strict_mode self))) as [a s1|e s1]; simpl in *;
    [|reflexivity].
  rewrite (Hf a (after self s1)), (Hf a s1). simpl. rewrite Hstrict.
  destruct (f a (init (strict_mode self))); simpl; rewrite after_after; reflexivity.
Qed.

Lemma appends_add_error m : appends (add_error m).
Proof. intros self. unfold add_error, modify, after. simpl. rewrite !app_nil_r. reflexivity. Qed.
Lemma appends_add_warning m : appends (add_warning m).
Proof. intros self. unfold add_warning, modify, after. simpl. rewrite !app_nil_r. reflexivity. Qed.
Lemma appends_add_info m : appends (add_info m).
Proof. intros self. unfold add_info, modify, after. simpl. rewrite !app_nil_r. reflexivity. Qed.

Lemma appends_when (c : bool) (m : V unit) : appends m -> appends (when c m).
Proof. destruct c; simpl; [auto | intros _; apply (appends_ret tt)]. Qed.

Lemma appends_for_each {A} (xs : list A) (body : A -> V unit) :
  (forall x, appends (body x)) -> appends (for_each xs body).
Proof.
  intros Hb. induction xs as [|x xs IH]; simpl.
  - apply (appends_ret tt).
  - apply (appends_bind (body x)); auto.
Qed.

Lemma appends_for_fold {A B} (xs : list A) (acc : B) (body : A -> B -> V B) :
  (forall x acc, appends (body x acc)) -> appends (for_fold xs acc body).
Proof.
  intros Hb. revert acc. induction xs as [|x xs IH]; intros acc; simpl.
  - apply (appends_ret acc).
  - apply (appends_bind (body x acc)); auto.
Qed.

Ltac appends_known := fail.

Ltac appending :=
  repeat first
    [ appends_known | apply appends_ret | apply appends_raise | apply appends_lift
    | apply appends_add_error | apply appends_add_warning | apply appends_add_info
    | apply appends_when | apply appends_for_each | apply appends_for_fold
    | apply appends_bind
    | match goal with
      | |- forall _, _ => intro
      | |- appends (let _ := _ in _) => cbv zeta
      | |- appends (if ?c then _ else _) => destruct c
      | |- appends (match ?x with _ => _ end) => destruct x
      | |- appends ((match ?x with _ => _ end) _) => destruct x
      end ].

Lemma appends_validate_structure w : appends (_validate_structure w).
Proof. unfold _validate_structure. appending. Qed.

Lemma appends_validate_metadata x : appends (_validate_metadata x).
Proof. unfold _validate_metadata. appending. Qed.

Lemma appends_validate_inputs x : appends (_validate_inputs x).
Proof. unfold _validate_inputs. appending. Qed.

Lemma appends_validate_security x : appends (_validate_security x).
Proof. unfold _validate_security. appending. Qed.

Lemma appends_validate_steps x : appends (_validate_steps x).
Proof. unfold _validate_steps. appending. Qed.

Lemma appends_has_circular_dependency x : appends (_has_circular_dependency x).
Proof. unfold _has_circular_dependency, build_graph. appending. Qed.

Lemma appends_validate_dependencies x : appends (_validate_dependencies x).
Proof.
  unfold _validate_dependencies.
  repeat first [ apply appends_has_circular_dependency | progress appending ].
Qed.

Lemma appends_validate_data_flow x : appends (_validate_data_flow x).
Proof. unfold _validate_data_flow, data_flow_step, check_ref. appending. Qed.

Lemma appends_audit_security x : appends (_audit_security x).
Proof. unfold _audit_security, suspicious_patterns. appending. Qed.

Lemma appends_check_best_practices x : appends (_check_best_practices x).
Proof. unfold _check_best_practices. appending. Qed.

Lemma settle_bind {A} (m : V A) (f : A -> V bool) :
  appends m ->
  (forall a self, f a self = settle self (f a (init (strict_mode self)))) ->
  forall self, (m ≫= f) self = settle self ((m ≫= f) (init (strict_mode self))).
Proof.
  intros Hm Hf self. unfold mbind, Py_bind, py_bind.
  pose proof (appends_strict m (init (strict_mode self)) Hm) as Hstrict.
  rewrite Hm. destruct (m (init (strict_mode self))) as [a s1|e s1]; simpl in *;
    [|reflexivity].
  rewrite (Hf a (after self s1)), (Hf a s1). simpl. rewrite Hstrict.
  destruct (f a (init (strict_mode self))) as [passed s2|e s2]; simpl;
    rewrite after_after; [|reflexivity].
  rewrite length_app. f_equal.
  destruct (length (errors self)), (length (errors s1)); reflexivity.
Qed.

Lemma validate_settles workflow self :
  validate workflow self = settle self (validate workflow (init (strict_mode self))).
Proof.
  revert self. unfold validate.
  repeat first
    [ apply settle_bind;
      [ first [ apply appends_validate_structure | apply appends_validate_metadata
              | apply appends_validate_inputs | apply appends_validate_security
              | apply appends_validate_steps | apply appends_validate_dependencies
              | apply appends_validate_data_flow | apply appends_audit_security
              | apply appends_check_best_practices | apply appends_lift ]
      | intros ? ]
    | intro ].
  unfold mbind, Py_bind, py_bind, gets, mret, Py_ret, py_ret, settle. simpl.
  rewrite after_init, andb_true_r. reflexivity.
Qed.

(** ** The search finds a cycle exactly when there is one *)

Section any_cycle.
Variable graph : list (hkey * json).
Variable a : hkey.
Hypothesis cycle : tc (edge graph) a a.

Lemma black_follows m :
  (forall u v, black m u -> edge graph u v -> black m v) ->
  forall u v, tc (edge graph) u v -> black m u -> black m v.
Proof. intros Hclosed u v Huv. induction Huv; eauto. Qed.

Lemma dfs_false_cycle depth :
  forall node m m', steady graph a m -> node ∉ visited m ->
    dfs graph depth node m = Ok false m' ->
    steady graph a m' /\ rec_stack m' = rec_stack m /\ visited m ∪ {[node]} ⊆ visited m'.
Proof.
  induction depth as [|depth IH]; intros node m m' Hm Hnew H; [discriminate|].
  rewrite dfs_S in H.
  destruct (py_iter (neighbors graph node)) as [e|ns] eqn:Hns; [discriminate|].
  destruct (dfs_neighbors (dfs graph depth) ns (enter node m)) as [[] m2|e m2] eqn:Hloop;
    try discriminate.
  destruct (bool_decide (node ∈ rec_stack m2)) eqn:Hin; [|discriminate].
  injection H as <-.
  destruct Hm as (Hsub & Hclosed & Ha).
  assert (node ∉ rec_stack m) as Hnr by (clear - Hsub Hnew; set_solver).
  assert (forall u, black (enter node m) u <-> black m u) as Hsame.
  { intros u. unfold black, enter; simpl. clear - Hnew Hnr. set_solver. }
  assert (steady graph a (enter node m)) as Hm1.
  { split; [simpl; clear - Hsub; set_solver|]. split.
    - intros u v Hu Huv. apply Hsame. apply Hsame in Hu. eauto.
    - intros Hb. apply Hsame in Hb. auto. }
  destruct (neighbors_false_steady graph a depth IH _ _ _ Hm1 Hloop)
    as ((Hsub2 & Hclosed2 & Ha2) & Hrec2 & Hvis2 & Hblack).
  simpl in Hrec2, Hvis2.
  assert (forall v, edge graph node v -> black m2 v) as Hout.
  { intros v (n & Hn & Hv). unfold iterable in Hn. rewrite Hns in Hn. eauto. }
  assert (node <> a) as Hna.
  { intros ->. apply Ha2. inversion cycle as [? ? Ha1|? y ? Hay Hya]; subst.
    - apply Hout. exact Ha1.
    - apply (black_follows m2 Hclosed2 y a Hya). apply Hout. exact Hay. }
  set (m3 := mkMarks (visited m2) (rec_stack m2 ∖ {[node]})).
  assert (forall u, black m3 u <-> black m2 u \/ u = node) as Hm3.
  { intros u. unfold black, m3; simpl. rewrite Hrec2.
    clear - Hvis2 Hnr. split.
    - intros [? ?]. destruct (decide (u = node)); [auto|left; set_solver].
    - intros [[? ?]| ->]; set_solver. }
  split; [|split].
  - split; [simpl; rewrite Hrec2; clear - Hsub Hvis2 Hnr; set_solver|]. split.
    + intros u v Hu Huv. apply Hm3. left. apply Hm3 in Hu as [Hu| ->]; eauto.
    + intros Hb. apply Hm3 in Hb as [Hb|Hb]; [auto | congruence].
  - simpl. rewrite Hrec2. clear - Hnr. set_solver.
  - simpl. exact Hvis2.
Qed.

Lemma dfs_all_false_cycle depth nodes :
  forall m m', steady graph a m -> rec_stack m = ∅ ->
    dfs_all graph depth nodes m = Ok false m' ->
    steady graph a m' /\ rec_stack m' = ∅ /\
    visited m ⊆ visited m' /\ forall node, In node nodes -> node ∈ visited m'.
Proof.
  induction nodes as [|node nodes IH]; intros m m' Hm Hrec H.
  - injection H as <-. split; [exact Hm|]. split; [exact Hrec|].
    split; [reflexivity|]. intros ? [].
  - rewrite dfs_all_cons in H.
    destruct (bool_decide (node ∉ visited m)) eqn:Hseen.
    + apply bool_decide_eq_true in Hseen.
      destruct (dfs graph depth node m) as [[] m1|e m1] eqn:Hdfs; try discriminate.
      destruct (dfs_false_cycle _ _ _ _ Hm Hseen Hdfs) as (Hm1 & Hrec1 & Hvis1).
      destruct (IH _ _ Hm1 ltac:(congruence) H) as (Hm' & Hrec' & Hvis' & Hall).
      split; [exact Hm'|]. split; [exact Hrec'|].
      split; [clear - Hvis1 Hvis'; set_solver|].
      intros x [<-|Hx]; [clear - Hvis1 Hvis'; set_solver | auto].
    + apply bool_decide_eq_false in Hseen. apply dec_stable in Hseen.
      destruct (IH _ _ Hm Hrec H) as (Hm' & Hrec' & Hvis' & Hall).
      split; [exact Hm'|]. split; [exact Hrec'|]. split; [exact Hvis'|].
      intros x [<-|Hx]; [apply Hvis', Hseen | auto].
Qed.

(** A node on a cycle has neighbours, so it is a key of the graph. *)
Lemma cycle_node_is_key : In a (map fst graph).
Proof.
  assert (exists v, edge graph a v) as (v & n & Hn & _).
  { inversion cycle; subst; eauto. }
  unfold iterable, neighbors in Hn.
  destruct (dict_get a graph) as [x|] eqn:Hget; [|destruct Hn].
  apply in_map_iff. exists (a, x). split; [reflexivity | apply dict_get_In, Hget].
Qed.

Lemma dfs_all_finds_cycle depth m' :
  dfs_all graph depth (map fst graph) (mkMarks ∅ ∅) <> Ok false m'.
Proof.
  intros H.
  assert (steady graph a (mkMarks ∅ ∅)) as H0.
  { unfold steady, black; simpl. repeat split; set_solver. }
  destruct (dfs_all_false_cycle _ _ _ _ H0 eq_refl H) as ((_ & _ & Hna) & Hrec & _ & Hall).
  apply Hna. split; [apply Hall, cycle_node_is_key|]. rewrite Hrec. set_solver.
Qed.
End any_cycle.

Section no_false_alarm.
Variable graph : list (hkey * json).

Lemma neighbors_true_cyclic depth node :
  (forall key m found m', rec_stack m ⊆ visited m -> key ∉ visited m ->
     stack_leads_to graph m key ->
     dfs graph depth key m = Ok found m' ->
     if found then cyclic graph
     else rec_stack m' = rec_stack m /\ visited m ∪ {[key]} ⊆ visited m') ->
  forall ns m found m', rec_stack m ⊆ visited m -> stack_leads_to graph m node ->
    (forall n key, In n ns -> hash_key n = inr key -> edge graph node key) ->
    dfs_neighbors (dfs graph depth) ns m = Ok found m' ->
    if found then cyclic graph
    else rec_stack m' = rec_stack m /\ visited m ⊆ visited m'.
Proof.
  intros IH ns. induction ns as [|n ns IHns]; intros m found m' Hsub Hstack Hedges H.
  - injection H as <- <-. split; reflexivity.
  - rewrite dfs_neighbors_cons in H.
    destruct (hash_key n) as [e|key] eqn:Hkey; [discriminate|].
    assert (edge graph node key) as Hedge by (eapply Hedges; [left; reflexivity | exact Hkey]).
    assert (forall n' key', In n' ns -> hash_key n' = inr key' -> edge graph node key')
      as Hedges' by (intros; eapply Hedges; [right|]; eassumption).
    destruct (bool_decide (key ∉ visited m)) eqn:Hseen.
    + apply bool_decide_eq_true in Hseen.
      destruct (dfs graph depth key m) as [[] m1|e m1] eqn:Hdfs; try discriminate.
      * injection H as <- <-.
        apply (IH key m true m1 Hsub Hseen); [|exact Hdfs].
        intros x Hx. eapply rtc_r; [apply Hstack, Hx | exact Hedge].
      * assert (rec_stack m1 = rec_stack m /\ visited m ∪ {[key]} ⊆ visited m1)
          as (Hrec1 & Hvis1).
        { apply (IH key m false m1 Hsub Hseen); [|exact Hdfs].
          intros x Hx. eapply rtc_r; [apply Hstack, Hx | exact Hedge]. }
        specialize (IHns m1 found m').
        destruct found.
        -- apply IHns; [rewrite Hrec1; clear - Hsub Hvis1; set_solver | | exact Hedges' | exact H].
           intros x Hx. apply Hstack. rewrite <- Hrec1. exact Hx.
        -- destruct IHns as (Hrec' & Hvis');
             [rewrite Hrec1; clear - Hsub Hvis1; set_solver | | exact Hedges' | exact H |].
           ++ intros x Hx. apply Hstack. rewrite <- Hrec1. exact Hx.
           ++ split; [congruence | clear - Hvis1 Hvis'; set_solver].
    + destruct (bool_decide (key ∈ rec_stack m)) eqn:Hact.
      * injection H as <- <-. apply bool_decide_eq_true in Hact.
        exists key. eapply tc_rtc_l; [apply Hstack, Hact | apply tc_once, Hedge].
      * apply (IHns m found m' Hsub Hstack Hedges' H).
Qed.

Lemma dfs_true_cyclic depth :
  forall node m found m', rec_stack m ⊆ visited m -> node ∉ visited m ->
    stack_leads_to graph m node ->
    dfs graph depth node m = Ok found m' ->
    if found then cyclic graph
    else rec_stack m' = rec_stack m /\ visited m ∪ {[node]} ⊆ visited m'.
Proof.
  induction depth as [|depth IH]; intros node m found m' Hsub Hnew Hstack H;
    [discriminate|].
  rewrite dfs_S in H.
  destruct (py_iter (neighbors graph node)) as [e|ns] eqn:Hns; [discriminate|].
  assert (node ∉ rec_stack m) as Hnr by (clear - Hsub Hnew; set_solver).
  pose proof (neighbors_true_cyclic depth node IH ns (enter node m)) as Hloop.
  destruct (dfs_neighbors (dfs graph depth) ns (enter node m)) as [b m2|e m2];
    [|discriminate].
  specialize (Hloop b m2).
  assert (if b then cyclic graph
          else rec_stack m2 = rec_stack (enter node m) /\
               visited (enter node m) ⊆ visited m2) as Hb.
  { apply Hloop; [simpl; clear - Hsub; set_solver | | | reflexivity].
    - intros x Hx. simpl in Hx. apply elem_of_union in Hx as [Hx|Hx].
      + apply Hstack, Hx.
      + apply elem_of_singleton in Hx. subst x. reflexivity.
    - intros n key Hn Hkey. exists n. unfold iterable. rewrite Hns. auto. }
  destruct b.
  - injection H as <- <-. exact Hb.
  - destruct Hb as (Hrec2 & Hvis2). simpl in Hrec2, Hvis2.
    destruct (bool_decide (node ∈ rec_stack m2)); [|discriminate].
    injection H as <- <-. simpl. rewrite Hrec2.
    split; [clear - Hnr; set_solver | exact Hvis2].
Qed.

Lemma dfs_all_true_cyclic depth nodes :
  forall m m', rec_stack m = ∅ ->
    dfs_all graph depth nodes m = Ok true m' -> cyclic graph.
Proof.
  induction nodes as [|node nodes IH]; intros m m' Hrec H; [discriminate|].
  rewrite dfs_all_cons in H.
  destruct (bool_decide (node ∉ visited m)) eqn:Hseen; [|eauto].
  apply bool_decide_eq_true in Hseen.
  destruct (dfs graph depth node m) as [[] m1|e m1] eqn:Hdfs; try discriminate.
  - apply (dfs_true_cyclic depth node m true m1); [rewrite Hrec; set_solver | exact Hseen | | exact Hdfs].
    intros x Hx. rewrite Hrec in Hx. set_solver.
  - assert (rec_stack m1 = rec_stack m) as Hrec1.
    { apply (dfs_true_cyclic depth node m false m1); [rewrite Hrec; set_solver | exact Hseen | | exact Hdfs].
      intros x Hx. rewrite Hrec in Hx. set_solver. }
    apply (IH m1 m'); [congruence | exact H].
Qed.
End no_false_alarm.

Lemma has_circular_dependency_run (items : list json) (self : WorkflowValidator) :
  forallb dependency_shaped items = true ->
  searchable items ->
  exists found,
    _has_circular_dependency (JArr items) self = Ok found self /\
    (found = true <-> cyclic (graph_of items [])).
Proof.
  intros Hshape Hroom. unfold _has_circular_dependency.
  change (py_iter (JArr items)) with (@inr exn _ items).
  rewrite lift_inr_bind. cbv beta.
  rewrite (bind_run _ _ _ _ _ (build_graph_run items [] self Hshape)).
  unfold searchable in Hroom.
  set (graph := graph_of items []) in *.
  destruct (dfs_all_depth graph (graph_of_ok items Hshape) dfs_limit (map fst graph)
              Hroom (mkMarks ∅ ∅))
    as (found & m' & Hrun & _).
  - simpl. set_solver.
  - intros node Hin. apply elem_of_list_to_set, list_elem_of_In, in_or_app.
    left. exact Hin.
  - rewrite Hrun. exists found. split; [reflexivity|]. split.
    + intros ->. eapply dfs_all_true_cyclic; [|exact Hrun]. reflexivity.
    + intros (a & Ha). destruct found; [reflexivity|]. exfalso.
      exact (dfs_all_finds_cycle graph a Ha _ _ Hrun).
Qed.

(** ** The dependency check, in full *)

Lemma step_ids_exact (items : list json) :
  forallb dependency_shaped items = true ->
  forall (acc : gset hkey) (self : WorkflowValidator),
    for_fold items acc (fun step step_ids =>
      has_id ← lift (py_in "id" step);
      if has_id : bool then
        step_id ← lift (py_getitem step "id");
        key ← lift (hash_key step_id);
        mret (step_ids ∪ {[key]})
      else mret step_ids) self = Ok (acc ∪ declared_ids items) self.
Proof.
  unfold declared_ids.
  induction items as [|step items IH]; intros Hshape acc self.
  - simpl. f_equal. set_solver.
  - simpl in Hshape. apply andb_prop in Hshape as [Hstep Hitems].
    rewrite for_fold_cons.
    destruct step as [| | | | |m]; try discriminate.
    unfold dependency_shaped in Hstep. apply andb_prop in Hstep as [Hid _].
    unfold mbind, Py_bind, py_bind, lift, py_in, py_getitem, has_key. simpl.
    destruct (lookup_key "id" m) as [v|]; simpl.
    + apply can_hash_inr in Hid as (k & ->). simpl.
      etrans; [apply IH, Hitems|]. f_equal. set_solver.
    + apply IH, Hitems.
Qed.

Lemma unknown_deps_exact (step_ids : gset hkey) (step_id : json) (deps : list json) :
  forallb can_hash deps = true ->
  forall self,
    for_each deps (fun dep_id =>
      key ← lift (hash_key dep_id);
      when (bool_decide (key ∉ step_ids))
        (add_error [Txt "Step '"; Val step_id; Txt "' depends on unknown step '";
                    Val dep_id; Txt "'"])) self
    = Ok tt (with_errors self
               (flat_map (fun dep => match hash_key dep with
                                     | inr k => if bool_decide (k ∉ step_ids)
                                                then [unknown_dependency_error step_id dep]
                                                else []
                                     | inl _ => []
                                     end) deps)).
Proof.
  induction deps as [|dep deps IH]; intros Hhash self.
  - simpl. rewrite with_errors_nil. reflexivity.
  - simpl in Hhash. apply andb_prop in Hhash as [Hdep Hdeps].
    apply can_hash_inr in Hdep as (k & Hk).
    rewrite for_each_cons. cbv beta. simpl flat_map. rewrite Hk, lift_inr_bind.
    destruct (bool_decide (k ∉ step_ids)).
    + change (when true ?m) with m.
      rewrite add_error_run. cbv beta iota.
      rewrite (IH Hdeps), with_errors_app. reflexivity.
    + change (when false ?m) with (py_ret (S := WorkflowValidator) tt).
      cbv beta iota. apply IH, Hdeps.
Qed.

Lemma unknown_steps_exact (step_ids : gset hkey) (items : list json) :
  forallb dependency_shaped items = true ->
  forall self,
    for_each items (fun step =>
      step_id ← lift (py_get step "id" (JStr "unknown"));
      depends_on ← lift (py_get step "depends_on" (JArr []));
      deps ← lift (py_iter depends_on);
      for_each deps (fun dep_id =>
        key ← lift (hash_key dep_id);
        when (bool_decide (key ∉ step_ids))
          (add_error [Txt "Step '"; Val step_id; Txt "' depends on unknown step '";
                      Val dep_id; Txt "'"]))) self
    = Ok tt (with_errors self (flat_map (unknown_of step_ids) items)).
Proof.
  induction items as [|step items IH]; intros Hshape self.
  - simpl. rewrite with_errors_nil. reflexivity.
  - simpl in Hshape. apply andb_prop in Hshape as [Hstep Hitems].
    destruct step as [| | | | |m]; try discriminate.
    unfold dependency_shaped in Hstep. apply andb_prop in Hstep as [_ Hdeps].
    rewrite for_each_cons. cbv beta.
    rewrite !py_get_obj, lift_inr_bind. cbv beta.
    rewrite lift_inr_bind. cbv beta.
    simpl flat_map. unfold unknown_of at 1. unfold iterable, step_id_of.
    unfold depends_on_of in *.
    destruct (py_iter match lookup_key "depends_on" m with
                      | Some v => v
                      | None => JArr []
                      end) as [|deps]; [discriminate|].
    rewrite lift_inr_bind. cbv beta.
    rewrite (unknown_deps_exact step_ids _ deps Hdeps self). cbv beta iota.
    rewrite (IH Hitems), with_errors_app. reflexivity.
Qed.

Lemma validate_dependencies_run (items : list json) (self : WorkflowValidator) :
  forallb dependency_shaped items = true ->
  searchable items ->
  exists found,
    (found = true <-> cyclic (graph_of items [])) /\
    _validate_dependencies (JArr items) self
    = Ok tt (with_errors self
               (flat_map (unknown_of (declared_ids items)) items
                ++ if found : bool then [circular_error] else [])).
Proof.
  intros Hshape Hroom. unfold _validate_dependencies.
  change (py_iter (JArr items)) with (@inr exn _ items).
  rewrite lift_inr_bind. cbv beta.
  rewrite (bind_run _ _ _ _ _ (step_ids_exact items Hshape ∅ self)).
  replace (∅ ∪ declared_ids items) with (declared_ids items) by set_solver.
  rewrite (bind_run _ _ _ _ _ (unknown_steps_exact _ items Hshape self)).
  match goal with |- context [(_has_circular_dependency _ ≫= _) ?s] =>
    destruct (has_circular_dependency_run items s Hshape Hroom) as (found & Hrun & Hiff)
  end.
  rewrite (bind_run _ _ _ _ _ Hrun). exists found. split; [exact Hiff|].
  destruct found.
  - change (when true ?m) with m. rewrite add_error_run, with_errors_app. reflexivity.
  - rewrite app_nil_r. reflexivity.
Qed.

Lemma with_errors_same self es : with_errors self es = self -> es = [].
Proof.
  destruct self as [sm e w n]. unfold with_errors. simpl. intros [= H].
  apply (app_inv_head e). rewrite app_nil_r. exact H.
Qed.

Lemma unknown_of_nil ids step :
  unknown_of ids step = [] <-> forall d, In d (step_deps step) -> d ∈ ids.
Proof.
  unfold unknown_of, step_deps.
  induction (iterable (depends_on_of step)) as [|dep deps IH].
  - simpl. split; [intros _ ? [] | reflexivity].
  - cbn [flat_map]. unfold hashable at 1.
    destruct (hash_key dep) as [e|k].
    + exact IH.
    + destruct (bool_decide (k ∉ ids)) eqn:Hk.
      * apply bool_decide_eq_true in Hk. split; [discriminate|].
        intros H. exfalso. apply Hk, H. left. reflexivity.
      * apply bool_decide_eq_false in Hk. apply dec_stable in Hk.
        cbn [app]. rewrite IH. split.
        -- intros H d [<-|Hd]; auto.
        -- intros H d Hd. apply H. right. exact Hd.
Qed.

(** ** What [validate] and the dependency check do in general *)

(** X1. [validate] only appends: run on a validator that already holds
    findings, it keeps them, puts after them the findings that a new
    validator would hold for the same workflow, raises what the new one
    would raise, and returns [True] when the new one would and no error
    was held before. *)
Theorem validate_keeps_earlier_findings (workflow : json) (self : WorkflowValidator) :
  validate workflow self = settle self (validate workflow (init (strict_mode self))).
Proof. apply validate_settles. Qed.

(** X2. A validator that holds an error returns [False] from every later
    call of [validate], whatever the workflow: the lists are never
    cleared. *)
Theorem validator_with_errors_never_passes (workflow : json)
    (self self' : WorkflowValidator) (passed : bool) :
  errors self <> [] ->
  validate workflow self = Ok passed self' ->
  passed = false.
Proof.
  intros Herr H. rewrite validate_settles in H.
  destruct (validate workflow (init (strict_mode self))); [|discriminate].
  injection H as <- _. destruct (errors self); [congruence | reflexivity].
Qed.

(** X3. On well-shaped steps for which the search has room
    ([searchable]), [_has_circular_dependency] returns, leaves the
    validator as it was, and returns [True] exactly when the graph that
    it builds from the steps has a cycle, of any length. *)
Theorem circular_dependency_iff_cycle (items : list json) (self : WorkflowValidator) :
  forallb dependency_shaped items = true ->
  searchable items ->
  exists found,
    _has_circular_dependency (JArr items) self = Ok found self /\
    (found = true <-> cyclic (graph_of items [])).
Proof. apply has_circular_dependency_run. Qed.

(** X4. On well-shaped steps, a dependency that is the id of no step is
    reported: the error that names the step and the dependency is among
    the errors after the check, whether the check returns or the search
    for cycles that follows raises [RecursionError]. *)
Theorem unknown_dependency_is_reported (items : list json) (step dep : json) (k : hkey)
    (self : WorkflowValidator) :
  forallb dependency_shaped items = true ->
  In step items ->
  In dep (iterable (depends_on_of step)) ->
  hash_key dep = inr k ->
  ~ In k (omap step_key items) ->
  In (unknown_dependency_error (step_id_of step) dep)
     (errors (final_state (_validate_dependencies (JArr items) self))).
Proof.
  intros Hshape Hstep Hdep Hk Hnew.
  assert (In (unknown_dependency_error (step_id_of step) dep)
            (errors (with_errors self (flat_map (unknown_of (declared_ids items)) items))))
    as Hheld.
  { unfold with_errors. cbn [errors]. apply in_or_app. right.
    apply in_flat_map. exists step. split; [exact Hstep|].
    unfold unknown_of. apply in_flat_map. exists dep. split; [exact Hdep|].
    rewrite Hk. rewrite bool_decide_eq_true_2; [left; reflexivity|].
    unfold declared_ids. rewrite elem_of_list_to_set, list_elem_of_In. exact Hnew. }
  unfold _validate_dependencies.
  change (py_iter (JArr items)) with (@inr exn _ items).
  rewrite lift_inr_bind. cbv beta.
  rewrite (bind_run _ _ _ _ _ (step_ids_exact items Hshape ∅ self)).
  replace (∅ ∪ declared_ids items) with (declared_ids items) by set_solver.
  rewrite (bind_run _ _ _ _ _ (unknown_steps_exact _ items Hshape self)).
  match goal with |- context [final_state (?m ?s)] =>
    assert (appends m) as Happ
      by (apply appends_bind; [apply appends_has_circular_dependency|];
          intros []; [apply appends_add_error | apply appends_ret]);
    rewrite (Happ s);
    destruct (m (init (strict_mode s))); unfold map_state, final_state, after;
    cbn [errors]; apply in_or_app; left; exact Hheld
  end.
Qed.

(** X5. On well-shaped steps for which the search has room
    ([searchable]), the dependency check adds nothing exactly when every
    dependency is the id of some step, declared before or after, and the
    graph has no cycle. *)
Theorem dependencies_accepted_iff (items : list json) (self : WorkflowValidator) :
  forallb dependency_shaped items = true ->
  searchable items ->
  (_validate_dependencies (JArr items) self = Ok tt self <->
   (forall step d, In step items -> In d (step_deps step) -> In d (omap step_key items)) /\
   ~ cyclic (graph_of items [])).
Proof.
  intros Hshape Hroom.
  destruct (validate_dependencies_run items self Hshape Hroom) as (found & Hiff & Hrun).
  rewrite Hrun. split.
  - intros [= H]. apply with_errors_same in H. apply app_eq_nil in H as [Hunk Hcyc].
    split.
    + intros step d Hstep Hd.
      assert (unknown_of (declared_ids items) step = []) as Hnil.
      { clear - Hunk Hstep. generalize dependent (declared_ids items). intros ids Hunk.
        induction items as [|x items IH]; [destruct Hstep|].
        simpl in Hunk. apply app_eq_nil in Hunk as [Hx Hrest].
        destruct Hstep as [<-|Hstep]; [exact Hx | exact (IH Hstep Hrest)]. }
      rewrite unknown_of_nil in Hnil. specialize (Hnil d Hd).
      unfold declared_ids in Hnil.
      rewrite elem_of_list_to_set, list_elem_of_In in Hnil. exact Hnil.
    + destruct found; [discriminate|]. intros Hc. apply Hiff in Hc. discriminate.
  - intros (Hall & Hacyclic).
    assert (found = false) as ->.
    { destruct found; [|reflexivity]. exfalso. apply Hacyclic, Hiff. reflexivity. }
    assert (flat_map (unknown_of (declared_ids items)) items = []) as ->.
    { assert (forall step, In step items -> unknown_of (declared_ids items) step = [])
        as Hnil.
      { intros step Hstep. apply unknown_of_nil. intros d Hd.
        unfold declared_ids. rewrite elem_of_list_to_set, list_elem_of_In. eauto. }
      clear - Hnil. generalize dependent (declared_ids items). intros ids Hnil.
      induction items as [|x items IH]; [reflexivity|]. simpl.
      rewrite (Hnil x (or_introl eq_refl)), IH; [reflexivity|].
      intros; apply Hnil; right; assumption. }
    simpl. rewrite with_errors_nil. reflexivity.
Qed.

(** ** The patterns for names and versions *)

(** A starred character class gives nothing back when what follows it in
    the pattern cannot start with a character of the class. *)
Lemma star_chr_keeps_all {R} (p : ascii -> bool)
    (k : nat -> string -> list string -> option R) :
  (forall c s pos caps, p c = true -> k pos (String c s) caps = None) ->
  forall s pos caps,
    rmatch (Star (Chr p)) pos s caps k
    = k (pos + (String.length s - String.length (skip_while p s))) (skip_while p s) caps.
Proof.
  intros Hk s pos caps. cbn [rmatch].
  assert (forall fuel s pos, String.length s <= fuel ->
    (fix loop (fuel pos : nat) (s : string) (caps : list string) {struct fuel} : option R :=
       match fuel with
       | 0 => k pos s caps
       | S fuel' =>
           match
             match s with
             | String c s' =>
                 if p c
                 then (fun pos' s'0 caps' =>
                         if pos <? pos' then loop fuel' pos' s'0 caps' else None)
                        (S pos) s' caps
                 else None
             | EmptyString => None
             end
           with
           | Some x => Some x
           | None => k pos s caps
           end
       end) fuel pos s caps
    = k (pos + (String.length s - String.length (skip_while p s))) (skip_while p s) caps)
    as Hloop.
  { clear s pos. intros fuel. induction fuel as [|fuel IH]; intros s pos Hlen.
    - destruct s; [|simpl in Hlen; lia]. simpl. rewrite Nat.add_0_r. reflexivity.
    - destruct s as [|c s].
      + simpl. rewrite Nat.add_0_r. reflexivity.
      + cbn [skip_while]. destruct (p c) eqn:Hc.
        * cbv beta. rewrite (proj2 (Nat.ltb_lt pos (S pos))) by lia.
          rewrite IH by (simpl in Hlen; lia).
          assert (String.length (skip_while p s) <= String.length s) as Hle.
          { clear. induction s as [|c' s IHs]; simpl; [lia|].
            destruct (p c'); simpl; lia. }
          replace (pos + (String.length (String c s) - String.length (skip_while p s)))
            with (S pos + (String.length s - String.length (skip_while p s)))
            by (simpl; lia).
          destruct (k (S pos + (String.length s - String.length (skip_while p s)))
                      (skip_while p s) caps) eqn:Hres; [reflexivity|].
          apply Hk, Hc.
        * replace (String.length (String c s) - String.length (String c s)) with 0 by lia.
          rewrite Nat.add_0_r. reflexivity. }
  apply Hloop. reflexivity.
Qed.

Lemma rmatch_seq {R} r1 r2 pos s caps (k : nat -> string -> list string -> option R) :
  rmatch (Seq r1 r2) pos s caps k
  = rmatch r1 pos s caps (fun pos' s' caps' => rmatch r2 pos' s' caps' k).
Proof. reflexivity. Qed.

Lemma rmatch_chr {R} p pos s caps (k : nat -> string -> list string -> option R) :
  rmatch (Chr p) pos s caps k
  = match s with
    | String c s' => if p c then k (S pos) s' caps else None
    | EmptyString => None
    end.
Proof. reflexivity. Qed.

Lemma rmatch_eps {R} pos s caps (k : nat -> string -> list string -> option R) :
  rmatch Eps pos s caps k = k pos s caps.
Proof. reflexivity. Qed.

Lemma rmatch_bol {R} pos s caps (k : nat -> string -> list string -> option R) :
  rmatch Bol pos s caps k = if pos =? 0 then k pos s caps else None.
Proof. reflexivity. Qed.

Lemma rmatch_eol {R} pos s caps (k : nat -> string -> list string -> option R) :
  rmatch Eol pos s caps k = if at_end s then k pos s caps else None.
Proof.
  destruct s as [|c [|c' s]]; reflexivity.
Qed.

Lemma rmatch_group {R} r pos s caps (k : nat -> string -> list string -> option R) :
  rmatch (Group r) pos s caps k
  = rmatch r pos s caps
      (fun pos' s' caps' => k pos' s' (caps' ++ [substring 0 (pos' - pos) s])).
Proof. reflexivity. Qed.

Ltac regex_step :=
  first [ rewrite rmatch_seq | rewrite rmatch_chr | rewrite rmatch_eps
        | rewrite rmatch_bol | rewrite rmatch_eol | rewrite rmatch_group ];
  cbv beta.

(** A character of a class without the newline does not end the subject. *)
Lemma at_end_class (p : ascii -> bool) c s :
  p c = true -> p (ascii_of_nat 10) = false -> at_end (String c s) = false.
Proof.
  intros Hc Hnl. destruct s; [|reflexivity]. simpl.
  apply Nat.eqb_neq. unfold code. intros H.
  rewrite <- (ascii_nat_embedding c), H in Hc. congruence.
Qed.

Lemma snake_case_re_accepts (s : string) :
  re_match snake_case_re s = snake_case s.
Proof.
  unfold re_match, match_at, snake_case_re, snake_case.
  cbn [cat]. do 2 regex_step. cbn [Nat.eqb]. do 2 regex_step.
  destruct s as [|c s]; [reflexivity|].
  destruct (is_lower c); [|reflexivity]. cbn [andb].
  regex_step. fold word_char. rewrite star_chr_keeps_all.
  - do 2 regex_step. destruct (at_end (skip_while word_char s)); reflexivity.
  - intros c0 s0 pos caps Hc0. do 2 regex_step.
    rewrite (at_end_class word_char c0 s0 Hc0 eq_refl). reflexivity.
Qed.

Lemma plus_digits {R} (k : nat -> string -> list string -> option R) :
  (forall c s pos caps, is_digit c = true -> k pos (String c s) caps = None) ->
  forall s pos caps,
    rmatch (Plus (Chr is_digit)) pos s caps k
    = match s with
      | String c s' =>
          if is_digit c
          then k (S pos + (String.length s' - String.length (skip_while is_digit s')))
                 (skip_while is_digit s') caps
          else None
      | EmptyString => None
      end.
Proof.
  intros Hk s pos caps. unfold Plus. do 2 regex_step.
  destruct s as [|c s]; [reflexivity|].
  destruct (is_digit c); [|reflexivity].
  apply star_chr_keeps_all, Hk.
Qed.

Lemma lit_dot {R} (k : nat -> string -> list string -> option R) pos s caps :
  rmatch (Lit ".") pos s caps k
  = match s with
    | String c s' => if is_char "." c then k (S pos) s' caps else None
    | EmptyString => None
    end.
Proof.
  cbn [Lit]. do 2 regex_step. destruct s as [|c s]; [reflexivity|].
  unfold is_char. rewrite Ascii.eqb_sym.
  destruct (Ascii.eqb c "."); [regex_step|]; reflexivity.
Qed.

Lemma semver_re_accepts (s : string) :
  re_match semver_re s = semver s.
Proof.
  unfold re_match, match_at, semver_re, semver.
  cbn [cat]. do 2 regex_step. cbn [Nat.eqb]. regex_step.
  assert (forall c s pos caps (k : nat -> string -> list string -> option (nat * list string)),
            is_digit c = true -> rmatch (Lit ".") pos (String c s) caps k = None) as Hdot.
  { intros c s0 pos caps k Hc. rewrite lit_dot.
    destruct (is_char "." c) eqn:Hd; [|reflexivity].
    unfold is_char in Hd. apply Ascii.eqb_eq in Hd. subst c. discriminate Hc. }
  assert (forall c s pos caps (k : nat -> string -> list string -> option (nat * list string)),
            is_digit c = true -> rmatch Eol pos (String c s) caps k = None) as Heol.
  { intros c s0 pos caps k Hc. rewrite rmatch_eol.
    rewrite (at_end_class is_digit c s0 Hc eq_refl). reflexivity. }
  rewrite plus_digits by (intros; regex_step; apply Hdot; assumption).
  unfold digits_then at 1.
  destruct s as [|c s]; [reflexivity|]. destruct (is_digit c); [|reflexivity].
  cbn [andb]. generalize (skip_while is_digit s). intros s1.
  generalize (1 + (String.length s - String.length s1)). intros p1.
  regex_step. rewrite lit_dot. unfold dot_then at 1.
  destruct s1 as [|c1 s1]; [reflexivity|]. destruct (is_char "." c1); [|reflexivity].
  cbn [andb]. regex_step.
  rewrite plus_digits by (intros; regex_step; apply Hdot; assumption).
  unfold digits_then at 1.
  destruct s1 as [|c2 s2]; [reflexivity|]. destruct (is_digit c2); [|reflexivity].
  cbn [andb]. generalize (skip_while is_digit s2). intros s3.
  generalize (S (S p1) + (String.length s2 - String.length s3)). intros p3.
  regex_step. rewrite lit_dot. unfold dot_then at 1.
  destruct s3 as [|c3 s3]; [reflexivity|]. destruct (is_char "." c3); [|reflexivity].
  cbn [andb]. regex_step.
  rewrite plus_digits by (intros; regex_step; apply Heol; assumption).
  unfold digits_then.
  destruct s3 as [|c4 s4]; [reflexivity|]. destruct (is_digit c4); [|reflexivity].
  cbn [andb]. do 2 regex_step.
  destruct (at_end (skip_while is_digit s4)); reflexivity.
Qed.

(** ** Sections that are missing, and workflows that are no dictionary *)

Lemma appends_keeps {A} (m : V A) : appends m -> keeps_errors m.
Proof.
  intros Hm self e He. rewrite Hm.
  destruct (m (init (strict_mode self))); simpl; apply in_or_app; left; exact He.
Qed.

Lemma keeps_bind {A B} (m : V A) (f : A -> V B) :
  keeps_errors m -> (forall a, keeps_errors (f a)) -> keeps_errors (m ≫= f).
Proof.
  intros Hm Hf self e He. specialize (Hm self e He).
  unfold mbind, Py_bind, py_bind. destruct (m self) as [a s|x s]; simpl in *.
  - apply Hf, Hm.
  - exact Hm.
Qed.

Lemma keeps_verdict : keeps_errors (errs ← gets errors; mret (Nat.eqb (length errs) 0)).
Proof. intros self e He. exact He. Qed.

(** The checks that follow [_validate_structure] in [validate]. *)
Lemma validate_keeps_errors workflow :
  keeps_errors (
    metadata ← lift (py_get workflow "metadata" (JObj []));
    _validate_metadata metadata;;
    inputs ← lift (py_get workflow "inputs" (JObj []));
    _validate_inputs inputs;;
    security ← lift (py_get workflow "security" (JObj []));
    _validate_security security;;
    steps ← lift (py_get workflow "steps" (JArr []));
    _validate_steps steps;;
    steps ← lift (py_get workflow "steps" (JArr []));
    _validate_dependencies steps;;
    steps ← lift (py_get workflow "steps" (JArr []));
    _validate_data_flow steps;;
    _audit_security workflow;;
    _check_best_practices workflow;;
    errs ← gets errors;
    mret (Nat.eqb (length errs) 0)).
Proof.
  repeat first
    [ apply keeps_verdict
    | apply keeps_bind;
      [ apply appends_keeps;
        first [ apply appends_validate_metadata
              | apply appends_validate_inputs | apply appends_validate_security
              | apply appends_validate_steps | apply appends_validate_dependencies
              | apply appends_validate_data_flow | apply appends_audit_security
              | apply appends_check_best_practices | apply appends_lift ]
      | intros ? ] ].
Qed.

(** On a dictionary [_validate_structure] returns; its errors are those
    for the required keys that are missing, in their order. *)
Lemma validate_structure_run (m : list (string * json)) (self : WorkflowValidator) :
  exists ws,
    _validate_structure (JObj m) self
    = Ok tt (extended self
               (flat_map (fun key => if has_key key m then [] else [missing_key_error key])
                         required_keys) ws).
Proof.
  unfold _validate_structure.
  assert (forall keys self,
    for_each keys (fun key =>
      present ← lift (py_in key (JObj m));
      when (negb present)
        (add_error [Txt "Missing required key: '"; Val (JStr key); Txt "'"])) self
    = Ok tt (extended self
               (flat_map (fun key => if has_key key m then [] else [missing_key_error key])
                         keys) [])) as Hloop.
  { clear self. induction keys as [|key keys IH]; intros self.
    - simpl. rewrite extended_nil. reflexivity.
    - rewrite for_each_cons. cbv beta. unfold py_in at 1. rewrite lift_inr_bind.
      simpl flat_map. destruct (has_key key m).
      + change (when (negb true) ?x) with (py_ret (S := WorkflowValidator) tt).
        cbv beta iota. apply IH.
      + change (when (negb false) ?x) with x. rewrite add_error_ext. cbv beta iota.
        rewrite IH, extended_app. reflexivity. }
  rewrite (bind_run _ _ _ _ _ (Hloop _ self)). fold required_keys.
  change (py_keys (JObj m)) with (@inr exn _ (map fst m)).
  rewrite lift_inr_bind. cbv beta zeta.
  match goal with |- context [when ?c _] => destruct c end.
  - change (when true ?x) with x. eexists.
    rewrite add_warning_ext, extended_app, app_nil_r. reflexivity.
  - exists []. reflexivity.
Qed.

Lemma raise_bind {S A B} (m : Py S A) (f : A -> Py S B) s e s' :
  m s = Raise e s' -> (m ≫= f) s = Raise e s'.
Proof. unfold mbind, Py_bind, py_bind. intros ->. reflexivity. Qed.

Lemma presence_loop (c : json) (msg : string -> message) (keys : list string) :
  (forall k, exists b, py_in k c = inr b) ->
  forall self, exists self',
    for_each keys (fun key =>
      present ← lift (py_in key c);
      when (negb present) (add_error (msg key))) self = Ok tt self'.
Proof.
  intros Hin. induction keys as [|key keys IH]; intros self.
  - exists self. reflexivity.
  - rewrite for_each_cons. cbv beta. destruct (Hin key) as (b & ->).
    rewrite lift_inr_bind. destruct b.
    + change (when (negb true) ?x) with (py_ret (S := WorkflowValidator) tt).
      cbv beta iota. apply IH.
    + change (when (negb false) ?x) with x. rewrite add_error_run. cbv beta iota.
      apply IH.
Qed.

(** ** Sections that are missing, workflows of another type *)

(** X6. [validate] reports every required section that the workflow lacks,
    whatever else the workflow holds and whether or not a later check
    raises. *)
Theorem missing_section_is_reported (m : list (string * json)) (key : string)
    (self : WorkflowValidator) :
  In key required_keys ->
  lookup_key key m = None ->
  In (missing_key_error key) (errors (final_state (validate (JObj m) self))).
Proof.
  intros Hkey Hnone. unfold validate.
  destruct (validate_structure_run m self) as (ws & Hrun).
  rewrite (bind_run _ _ _ _ _ Hrun).
  apply validate_keeps_errors. unfold extended. cbn [errors]. apply in_or_app. right.
  apply in_flat_map. exists key. split; [exact Hkey|].
  unfold has_key. rewrite Hnone. left. reflexivity.
Qed.

(** X7. A workflow that is not a dictionary makes [validate] raise: a
    list or a string at [workflow.keys()], once the required keys have
    been looked for in it, and anything else at the first test
    [key not in workflow]. *)
Theorem validate_needs_a_dictionary (workflow : json) (self : WorkflowValidator) :
  is_obj workflow = false ->
  exists self',
    validate workflow self
    = Raise match workflow with
            | JArr _ | JStr _ => AttributeError
            | _ => TypeError
            end self'.
Proof.
  intros Hobj. unfold validate.
  assert (forall c, (forall k, exists b, py_in k c = inr b) ->
                    py_keys c = inl AttributeError ->
                    exists self', _validate_structure c self = Raise AttributeError self')
    as Hkeys.
  { intros c Hin Hk. unfold _validate_structure.
    destruct (presence_loop c (fun key => [Txt "Missing required key: '"; Val (JStr key);
                                           Txt "'"])
                ["metadata"; "inputs"; "security"; "steps"] Hin self) as (s1 & Hloop).
    cbv beta in Hloop. rewrite (bind_run _ _ _ _ _ Hloop), Hk.
    exists s1. reflexivity. }
  destruct workflow as [|b|z|s|l|m]; try discriminate.
  - exists self. reflexivity.
  - exists self. reflexivity.
  - exists self. reflexivity.
  - destruct (Hkeys (JStr s)) as (s1 & H1); [simpl; eauto | reflexivity |].
    exists s1. apply raise_bind, H1.
  - destruct (Hkeys (JArr l)) as (s1 & H1); [simpl; eauto | reflexivity |].
    exists s1. apply raise_bind, H1.
Qed.

(** X8. A [workflow_name] that is not a string makes [validate] raise
    [TypeError] at [re.match]. *)
Theorem name_must_be_a_string (m md : list (string * json)) (name : json)
    (self : WorkflowValidator) :
  lookup_key "metadata" m = Some (JObj md) ->
  lookup_key "workflow_name" md = Some name ->
  (forall s, name <> JStr s) ->
  exists self', validate (JObj m) self = Raise TypeError self'.
Proof.
  intros Hmd Hname Hstr. unfold validate.
  destruct (validate_structure_run m self) as (ws & Hrun).
  rewrite (bind_run _ _ _ _ _ Hrun).
  rewrite !py_get_obj, Hmd, lift_inr_bind. cbv beta.
  match goal with |- context [(_validate_metadata _ ≫= _) ?s] => set (s1 := s) end.
  assert (exists self', _validate_metadata (JObj md) s1 = Raise TypeError self')
    as (s2 & H2).
  { unfold _validate_metadata.
    destruct (presence_loop (JObj md)
                (fun field => [Txt "metadata."; Val (JStr field); Txt " is required"])
                ["workflow_name"; "workflow_id"; "platform"; "schema_version"]
                ltac:(simpl; eauto) s1) as (s2 & Hloop).
    cbv beta in Hloop. rewrite (bind_run _ _ _ _ _ Hloop).
    assert (py_in "workflow_name" (JObj md) = inr true) as ->
      by (unfold py_in, has_key; rewrite Hname; reflexivity).
    rewrite lift_inr_bind. cbv beta iota.
    assert (py_getitem (JObj md) "workflow_name" = inr name) as ->
      by (unfold py_getitem; rewrite Hname; reflexivity).
    exists s2. apply raise_bind. rewrite lift_inr_bind. cbv beta.
    destruct name; try reflexivity. exfalso. eapply Hstr. reflexivity. }
  exists s2. apply raise_bind, H2.
Qed.

(** X9. [_validate_inputs] looks at the [required] parameters only: of
    [optional] it uses nothing but its presence. *)
Theorem optional_inputs_are_not_inspected (m m' : list (string * json))
    (self : WorkflowValidator) :
  lookup_key "required" m = lookup_key "required" m' ->
  has_key "optional" m = has_key "optional" m' ->
  _validate_inputs (JObj m) self = _validate_inputs (JObj m') self.
Proof.
  intros Hreq Hopt.
  assert (has_key "required" m = has_key "required" m') as Hhas
    by (unfold has_key; rewrite Hreq; reflexivity).
  unfold _validate_inputs, py_in, py_get. rewrite Hreq, Hhas, Hopt. reflexivity.
Qed.

(** ** Conditions in a dry run *)

Lemma simulate_condition_true condition self passed self' :
  _simulate_condition condition self = Ok passed self' -> passed = true /\ self' = self.
Proof.
  unfold _simulate_condition. intros H.
  apply bind_Ok in H as (cond_type & s1 & H1 & H).
  apply bind_Ok in H as (cond_id & s2 & H2 & H).
  apply bind_Ok in H as (check_auth & s3 & H3 & H).
  assert (forall A (r : result A) a (s s' : DryRunExecutor),
            lift r s = Ok a s' -> s' = s) as Hlift.
  { intros A [e|x] a s s'; unfold lift; [discriminate | intros [= _ <-]; reflexivity]. }
  apply Hlift in H1, H2, H3. subst s1 s2 s3.
  destruct (check_auth || is_str "security" cond_type).
  - apply ret_Ok in H. exact H.
  - apply bind_Ok in H as (exists_ & s4 & H4 & H). apply Hlift in H4. subst s4.
    apply bind_Ok in H as (unique & s5 & H5 & H).
    assert (s5 = self) as ->.
    { destruct exists_; [apply ret_Ok in H5; tauto | apply Hlift in H5; exact H5]. }
    destruct (exists_ || unique); apply ret_Ok in H; exact H.
Qed.

Lemma pre_condition_turn condition all_passed self result self' :
  (cond_id ← lift (py_get condition "id" (JStr "unknown"));
   description ← lift (py_get condition "description" (JStr "No description"));
   critical ← lift (py_get condition "critical" (JBool true));
   print [Txt "   * "; Val cond_id];;
   is_verbose ← gets verbose;
   when is_verbose (print [Txt "     Description: "; Val description]);;
   passed ← _simulate_condition condition;
   all_passed ← (if passed : bool then
                   print [Txt "     [+] PASSED"];;
                   mret all_passed
                 else
                   error_message ← lift (py_get condition "error_message"
                                           (JStr "Check failed"));
                   print [Txt "     ";
                          Txt (if truthy critical then "[!]" else "[?]");
                          Txt " FAILED: "; Val error_message];;
                   mret (if truthy critical then false else all_passed));
   print [];;
   mret all_passed) self = Ok result self' ->
  result = all_passed /\
  last (stdout self') = Some [] /\
  In [Txt "     [+] PASSED"] (stdout self').
Proof.
  intros H.
  apply bind_Ok in H as (cond_id & s1 & H1 & H).
  apply bind_Ok in H as (description & s2 & H2 & H).
  apply bind_Ok in H as (critical & s3 & H3 & H).
  apply bind_Ok in H as ([] & s4 & H4 & H).
  apply bind_Ok in H as (is_verbose & s5 & H5 & H).
  apply bind_Ok in H as ([] & s6 & H6 & H).
  apply bind_Ok in H as (passed & s7 & H7 & H).
  apply simulate_condition_true in H7 as (-> & ->).
  apply bind_Ok in H as (all_passed' & s8 & H8 & H).
  rewrite print_bind in H8, H. apply ret_Ok in H8 as (-> & ->).
  apply ret_Ok in H as (-> & ->).
  split; [reflexivity|]. simpl. split; [apply last_snoc|].
  apply in_or_app. left. apply in_or_app. right. left. reflexivity.
Qed.

Lemma pre_conditions_loop conditions : forall all_passed self result self',
  for_fold conditions all_passed (fun condition all_passed =>
    cond_id ← lift (py_get condition "id" (JStr "unknown"));
    description ← lift (py_get condition "description" (JStr "No description"));
    critical ← lift (py_get condition "critical" (JBool true));
    print [Txt "   * "; Val cond_id];;
    is_verbose ← gets verbose;
    when is_verbose (print [Txt "     Description: "; Val description]);;
    passed ← _simulate_condition condition;
    all_passed ← (if passed : bool then
                    print [Txt "     [+] PASSED"];;
                    mret all_passed
                  else
                    error_message ← lift (py_get condition "error_message"
                                            (JStr "Check failed"));
                    print [Txt "     ";
                           Txt (if truthy critical then "[!]" else "[?]");
                           Txt " FAILED: "; Val error_message];;
                    mret (if truthy critical then false else all_passed));
    print [];;
    mret all_passed) self = Ok result self' ->
  result = all_passed.
Proof.
  induction conditions as [|condition conditions IH]; intros all_passed self result self' H.
  - apply ret_Ok in H. tauto.
  - rewrite for_fold_cons in H.
    match type of H with
    | match ?body with _ => _ end = _ => destruct body as [acc s1|e s1] eqn:Hturn
    end; [|discriminate].
    apply pre_condition_turn in Hturn as (-> & _). exact (IH _ _ _ _ H).
Qed.

Lemma check_pre_conditions_true workflow self passed self' :
  _check_pre_conditions workflow self = Ok passed self' -> passed = true.
Proof.
  unfold _check_pre_conditions. intros H.
  apply bind_Ok in H as (validation & s1 & _ & H).
  apply bind_Ok in H as (pre_conditions & s2 & _ & H).
  destruct (negb (truthy pre_conditions)).
  - rewrite print_bind in H. apply ret_Ok in H. tauto.
  - apply bind_Ok in H as (n & s3 & _ & H). rewrite print_bind in H.
    apply bind_Ok in H as (conditions & s4 & _ & H).
    apply bind_Ok in H as (all_passed & s5 & Hloop & H).
    apply pre_conditions_loop in Hloop. subst all_passed.
    apply bind_Ok in H as ([] & s6 & _ & H). apply ret_Ok in H. tauto.
Qed.

Lemma check_post_conditions_true workflow self passed self' :
  _check_post_conditions workflow self = Ok passed self' -> passed = true.
Proof.
  unfold _check_post_conditions. intros H.
  apply bind_Ok in H as (validation & s1 & _ & H).
  apply bind_Ok in H as (post_conditions & s2 & _ & H).
  destruct (negb (truthy post_conditions)).
  - rewrite print_bind in H. apply ret_Ok in H. tauto.
  - apply bind_Ok in H as (n & s3 & _ & H). rewrite print_bind in H.
    apply bind_Ok in H as (conditions & s4 & _ & H).
    apply bind_Ok in H as ([] & s5 & _ & H). apply ret_Ok in H. tauto.
Qed.

(** ** A dry run that returns [False] *)

Lemma check_dependencies_false deps : forall self self',
  check_dependencies deps self = Ok false self' ->
  exists dep, In dep deps /\ last (stdout self') = Some (dependency_fault dep).
Proof.
  induction deps as [|dep deps IH]; intros self self' H; [discriminate|].
  rewrite check_dependencies_cons in H.
  apply bind_Ok in H as (key & s1 & H1 & H).
  rewrite gets_bind in H.
  assert (s1 = self) as ->.
  { destruct (hash_key dep); [discriminate|]. injection H1 as _ <-. reflexivity. }
  destruct (dict_get key (simulated_outputs self)).
  - destruct (IH _ _ H) as (d & Hd & Hlast). exists d. split; [right; exact Hd | exact Hlast].
  - rewrite print_bind in H. injection H as <-. exists dep.
    split; [left; reflexivity | apply last_snoc].
Qed.

Section failing_runs.
Variables uuid4_hex now_isoformat : nat -> string.

Lemma simulate_step_true step self done self' :
  _simulate_step uuid4_hex now_isoformat step self = Ok done self' -> done = true.
Proof.
  unfold _simulate_step. intros H.
  repeat (apply bind_Ok in H as (? & ? & _ & H)).
  apply ret_Ok in H. tauto.
Qed.

Lemma execute_step_false i step self self' :
  execute_step uuid4_hex now_isoformat i step self = Ok false self' ->
  exists dep, last (stdout self') = Some (dependency_fault dep).
Proof.
  unfold execute_step. intros H.
  apply bind_Ok in H as (step_id & s1 & _ & H).
  apply bind_Ok in H as (operation & s2 & _ & H).
  apply bind_Ok in H as (api_endpoint & s3 & _ & H).
  apply bind_Ok in H as (description & s4 & _ & H).
  rewrite !print_bind in H.
  apply bind_Ok in H as ([] & s5 & _ & H).
  apply bind_Ok in H as (depends_on & s6 & _ & H).
  apply bind_Ok in H as (satisfied & s7 & Hsat & H).
  destruct satisfied; simpl in H.
  - apply bind_Ok in H as (simulated & s8 & Hsim & H).
    apply simulate_step_true in Hsim. subst simulated. simpl in H.
    rewrite print_bind in H. discriminate H.
  - injection H as <-.
    destruct (truthy depends_on); [|discriminate].
    apply bind_Ok in Hsat as (joined & s8 & _ & Hsat). rewrite print_bind in Hsat.
    apply bind_Ok in Hsat as (deps & s9 & _ & Hsat).
    apply check_dependencies_false in Hsat as (dep & _ & Hlast). eauto.
Qed.

Lemma execute_steps_loop_false steps : forall self self',
  execute_steps_loop uuid4_hex now_isoformat steps self = Ok false self' ->
  exists dep, last (stdout self') = Some (dependency_fault dep).
Proof.
  induction steps as [|[i step] steps IH]; intros self self' H; [discriminate|].
  rewrite execute_steps_loop_cons in H.
  destruct (execute_step uuid4_hex now_isoformat i step self) as [[] s1|e s1] eqn:Hstep;
    [eauto | | discriminate].
  injection H as <-. exact (execute_step_false _ _ _ _ Hstep).
Qed.

Lemma execute_false workflow self self' :
  execute uuid4_hex now_isoformat workflow self = Ok false self' ->
  exists dep, last (stdout self') = Some (dependency_fault dep).
Proof.
  unfold execute. intros H. rewrite print_bind, gets_bind, print_bind in H.
  apply bind_Ok in H as (metadata & s1 & _ & H).
  apply bind_Ok in H as (workflow_name & s2 & _ & H). rewrite print_bind in H.
  apply bind_Ok in H as (metadata' & s3 & _ & H).
  apply bind_Ok in H as (platform & s4 & _ & H). rewrite print_bind in H.
  apply bind_Ok in H as (started & s5 & _ & H). rewrite print_bind in H.
  apply bind_Ok in H as (exec_config & s6 & _ & H).
  apply bind_Ok in H as (dry_run & s7 & _ & H).
  apply bind_Ok in H as ([] & s8 & _ & H).
  apply bind_Ok in H as (pre & s9 & Hpre & H).
  apply check_pre_conditions_true in Hpre. subst pre. simpl in H.
  apply bind_Ok in H as (steps & s10 & Hsteps & H).
  destruct steps; simpl in H.
  - apply bind_Ok in H as (post & s11 & Hpost & H).
    apply check_post_conditions_true in Hpost. subst post. simpl in H.
    rewrite !print_bind in H. discriminate H.
  - injection H as <-. unfold _execute_steps in Hsteps.
    apply bind_Ok in Hsteps as (items & s11 & _ & Hsteps).
    apply bind_Ok in Hsteps as (n & s12 & _ & Hsteps). rewrite print_bind in Hsteps.
    apply bind_Ok in Hsteps as (l & s13 & _ & Hsteps).
    exact (execute_steps_loop_false _ _ _ Hsteps).
Qed.
End failing_runs.

(** ** The loop over the steps, in full *)

Lemma dict_get_keys {A} k (d : list (hkey * A)) :
  dict_get k d <> None <-> In k (map fst d).
Proof.
  induction d as [|[k' v] d IH]; simpl; [tauto|].
  destruct (bool_decide (k = k')) eqn:E.
  - apply bool_decide_eq_true in E. subst. split; [auto | discriminate].
  - apply bool_decide_eq_false in E. rewrite IH. split; [auto|].
    intros [H|H]; [congruence | exact H].
Qed.

Lemma known_entries self k : known self k <-> k ∈ entries self.
Proof.
  unfold known, entries. rewrite dict_get_keys, elem_of_list_to_set, list_elem_of_In.
  reflexivity.
Qed.

Lemma dict_set_keys {A} k (v : A) (d : list (hkey * A)) :
  (list_to_set (map fst (dict_set k v d)) : gset hkey) = list_to_set (map fst d) ∪ {[k]}.
Proof.
  induction d as [|[k' v'] d IH]; simpl.
  - set_solver.
  - destruct (bool_decide (k = k')) eqn:E; simpl.
    + apply bool_decide_eq_true in E. subst. set_solver.
    + rewrite IH. set_solver.
Qed.

Lemma entries_recorded self key outputs :
  entries (recorded self key outputs) = entries self ∪ {[key]}.
Proof. unfold entries. simpl. apply dict_set_keys. Qed.

Lemma lift_Ok {S A} (r : result A) (a : A) (s s' : S) :
  lift r s = Ok a s' -> r = inr a /\ s' = s.
Proof. destruct r; unfold lift; [discriminate | intros [= <- <-]; auto]. Qed.

Lemma check_dependencies_value deps : forall self satisfied self',
  check_dependencies deps self = Ok satisfied self' ->
  entries self' = entries self /\
  satisfied = forallb (fun d => bool_decide (d ∈ entries self)) (flat_map hashable deps).
Proof.
  induction deps as [|dep deps IH]; intros self satisfied self' H.
  - apply ret_Ok in H as (-> & ->). auto.
  - rewrite check_dependencies_cons in H.
    apply bind_Ok in H as (key & s1 & H1 & H). apply lift_Ok in H1 as (Hkey & ->).
    rewrite gets_bind in H. simpl flat_map. unfold hashable at 1. rewrite Hkey.
    cbn [app forallb].
    destruct (dict_get key (simulated_outputs self)) eqn:Hget.
    + rewrite bool_decide_eq_true_2
        by (apply known_entries; unfold known; rewrite Hget; discriminate).
      exact (IH _ _ _ H).
    + rewrite print_bind in H. apply ret_Ok in H as (-> & ->).
      split; [reflexivity|].
      rewrite bool_decide_eq_false_2; [reflexivity|].
      rewrite <- known_entries. unfold known. rewrite Hget. tauto.
Qed.

Section steps_in_full.
Variables uuid4_hex now_isoformat : nat -> string.

Lemma simulate_outputs_loop_frame (items : list (string * json)) :
  forall simulated self sim self',
    for_fold items simulated (fun '(key, jsonpath) simulated =>
      v ← simulate_output uuid4_hex now_isoformat key;
      mret (str_dict_set key v simulated)) self = Ok sim self' ->
    simulated_outputs self' = simulated_outputs self.
Proof.
  induction items as [|[key jsonpath] items IH]; intros simulated self sim self' H.
  - apply ret_Ok in H as (_ & ->). reflexivity.
  - rewrite for_fold_cons in H.
    destruct (simulate_output_rule uuid4_hex now_isoformat key self)
      as (v & self1 & Hrun & _).
    rewrite (bind_run _ _ _ _ _ Hrun) in H.
    apply simulate_output_frame in Hrun as (H1 & _).
    rewrite <- H1. exact (IH _ _ _ _ H).
Qed.

Lemma simulate_outputs_keeps step self sim self' :
  _simulate_outputs uuid4_hex now_isoformat step self = Ok sim self' ->
  simulated_outputs self' = simulated_outputs self.
Proof.
  unfold _simulate_outputs. intros H.
  apply bind_Ok in H as (outputs & s1 & H1 & H). apply lift_Ok in H1 as (_ & ->).
  apply bind_Ok in H as (items & s2 & H2 & H). apply lift_Ok in H2 as (_ & ->).
  exact (simulate_outputs_loop_frame _ _ _ _ _ H).
Qed.

Lemma simulate_operation_entries m self self' :
  simulate_operation uuid4_hex now_isoformat (JObj m) (step_id_of (JObj m))
    (step_operation (JObj m)) self = Ok tt self' ->
  entries self' = entries_after (entries self) (JObj m).
Proof.
  unfold simulate_operation, entries_after, records, synthesizes.
  assert (forall line label (s : DryRunExecutor),
    (print line;;
     outputs ← _simulate_outputs uuid4_hex now_isoformat (JObj m);
     key ← lift (hash_key (step_id_of (JObj m)));
     record_outputs key outputs;;
     when (negb (Nat.eqb (length outputs) 0))
       (print [Txt label; Val (mocks_json outputs)])) s = Ok tt self' ->
    entries self' =
    match match hash_key (step_id_of (JObj m)) with
          | inr k => Some k
          | inl _ => None
          end with
    | Some k => entries s ∪ {[k]}
    | None => entries s
    end) as Hrecord.
  { intros line label s H. rewrite print_bind in H.
    apply bind_Ok in H as (outputs & s1 & H1 & H).
    apply simulate_outputs_keeps in H1.
    apply bind_Ok in H as (key & s2 & H2 & H). apply lift_Ok in H2 as (-> & ->).
    rewrite record_bind in H.
    assert (entries (recorded s1 key outputs) = entries s ∪ {[key]}) as Hrec.
    { rewrite entries_recorded. unfold entries. rewrite H1. reflexivity. }
    destruct (negb (length outputs =? 0)); injection H as <-; exact Hrec. }
  destruct (is_str "query" (step_operation (JObj m))); [apply Hrecord|].
  destruct (is_str "mutation" (step_operation (JObj m))); [apply Hrecord|].
  cbn [orb]. cbv iota. destruct (is_str "workflow" (step_operation (JObj m))).
  - intros H. apply bind_Ok in H as (workflow_ref & s1 & H1 & H).
    apply lift_Ok in H1 as (_ & ->). injection H as <-. reflexivity.
  - intros [= <-]. reflexivity.
Qed.

Lemma simulate_step_entries step self done self' :
  _simulate_step uuid4_hex now_isoformat step self = Ok done self' ->
  entries self' = entries_after (entries self) step.
Proof.
  unfold _simulate_step. intros H.
  apply bind_Ok in H as (step_id & s1 & H1 & H). apply lift_Ok in H1 as (Hid & ->).
  destruct step as [| | | | |m]; try discriminate.
  rewrite py_get_obj in Hid. injection Hid as <-.
  apply bind_Ok in H as (operation & s2 & H2 & H). apply lift_Ok in H2 as (Hop & ->).
  rewrite py_get_obj in Hop. injection Hop as <-.
  apply bind_Ok in H as (raw_inputs & s3 & H3 & H). apply lift_Ok in H3 as (_ & ->).
  apply bind_Ok in H as (inputs & s4 & H4 & H). apply resolve_inputs_Ok in H4 as ->.
  rewrite gets_bind, when_bind in H.
  assert (forall s : DryRunExecutor, entries s = entries self ->
            (simulate_operation uuid4_hex now_isoformat (JObj m)
               match lookup_key "id" m with Some v => v | None => JStr "unknown" end
               match lookup_key "operation" m with Some v => v | None => JStr "unknown" end;;
             mret true) s = Ok done self' ->
            entries self' = entries_after (entries self) (JObj m)) as Hop.
  { intros s Hs Hrun. apply bind_Ok in Hrun as ([] & s5 & H5 & Hret).
    apply ret_Ok in Hret as (_ & ->).
    apply simulate_operation_entries in H5.
    rewrite <- Hs. exact H5. }
  destruct (verbose self && truthy inputs).
  - rewrite print_bind in H. eapply Hop; [|exact H]. reflexivity.
  - eapply Hop; [|exact H]. reflexivity.
Qed.

Lemma falsy_iterable v : truthy v = false -> iterable v = [].
Proof.
  unfold iterable. destruct v as [| | |s|l|m]; try reflexivity; simpl.
  - destruct s; [reflexivity | discriminate].
  - destruct l; [reflexivity | discriminate].
  - destruct m; [reflexivity | discriminate].
Qed.

Lemma execute_step_value i step self continue self' :
  execute_step uuid4_hex now_isoformat i step self = Ok continue self' ->
  continue = forallb (fun d => bool_decide (d ∈ entries self)) (step_deps step) /\
  (continue = true -> entries self' = entries_after (entries self) step).
Proof.
  unfold execute_step. intros H.
  apply bind_Ok in H as (step_id & s1 & H1 & H). apply lift_Ok in H1 as (Hid & ->).
  destruct step as [| | | | |m]; try discriminate. clear Hid.
  apply bind_Ok in H as (operation & s2 & H2 & H). apply lift_Ok in H2 as (_ & ->).
  apply bind_Ok in H as (api_endpoint & s3 & H3 & H). apply lift_Ok in H3 as (_ & ->).
  apply bind_Ok in H as (description & s4 & H4 & H). apply lift_Ok in H4 as (_ & ->).
  rewrite !print_bind, when_bind in H.
  set (s0 := printed (printed self _) _) in H.
  assert (exists s : DryRunExecutor, entries s = entries self /\
    (depends_on ← lift (py_get (JObj m) "depends_on" (JArr []));
     satisfied ← (if truthy depends_on then
                    joined ← lift (py_join ", " depends_on);
                    print [Txt "       Dependencies: "; Val (JStr joined)];;
                    deps ← lift (py_iter depends_on);
                    check_dependencies deps
                  else mret true);
     if negb satisfied then mret false
     else
       simulated ← _simulate_step uuid4_hex now_isoformat (JObj m);
       if negb simulated then mret false
       else print [];; mret true) s = Ok continue self') as (s & Hs & Hrest).
  { destruct (truthy description).
    - rewrite print_bind in H. eexists. split; [|exact H]. reflexivity.
    - eexists. split; [|exact H]. reflexivity. }
  clear H s0. rewrite py_get_obj, lift_inr_bind in Hrest. cbv beta in Hrest.
  unfold step_deps. change (depends_on_of (JObj m))
    with (match lookup_key "depends_on" m with Some v => v | None => JArr [] end).
  set (depends_on := match lookup_key "depends_on" m with
                     | Some v => v
                     | None => JArr []
                     end) in *.
  apply bind_Ok in Hrest as (satisfied & s7 & Hsat & H).
  assert (entries s7 = entries self /\
          satisfied = forallb (fun d => bool_decide (d ∈ entries self))
                        (flat_map hashable (iterable depends_on))) as (Hs7 & ->).
  { destruct (truthy depends_on) eqn:Htruthy.
    - apply bind_Ok in Hsat as (joined & s8 & H8 & Hsat). apply lift_Ok in H8 as (_ & ->).
      rewrite print_bind in Hsat.
      apply bind_Ok in Hsat as (deps & s9 & H9 & Hsat). apply lift_Ok in H9 as (Hiter & ->).
      apply check_dependencies_value in Hsat as (He & ->).
      unfold iterable. rewrite Hiter.
      change (entries (printed s [Txt "       Dependencies: "; Val (JStr joined)]))
        with (entries s) in *.
      rewrite Hs in *. auto.
    - apply ret_Ok in Hsat as (-> & ->). rewrite (falsy_iterable _ Htruthy). auto. }
  destruct (forallb (fun d => bool_decide (d ∈ entries self))
              (flat_map hashable (iterable depends_on))); cbn [negb] in H; cbv iota in H.
  - apply bind_Ok in H as (simulated & s8 & Hsim & H).
    pose proof (simulate_step_true _ _ _ _ _ _ Hsim) as ->.
    apply simulate_step_entries in Hsim. cbn [negb] in H. cbv iota in H.
    rewrite print_bind in H. apply ret_Ok in H as (-> & ->).
    split; [reflexivity|]. intros _.
    change (entries (printed s8 [])) with (entries s8). rewrite Hsim, Hs7. reflexivity.
  - apply ret_Ok in H as (-> & _). split; [reflexivity | discriminate].
Qed.

Lemma execute_steps_loop_value items : forall i self continue self',
  execute_steps_loop uuid4_hex now_isoformat (enumerate_from i items) self
  = Ok continue self' ->
  continue = in_order (entries self) items.
Proof.
  induction items as [|step items IH]; intros i self continue self' H.
  - apply ret_Ok in H as (-> & _). reflexivity.
  - simpl enumerate_from in H. rewrite execute_steps_loop_cons in H.
    destruct (execute_step uuid4_hex now_isoformat i step self) as [c s1|e s1] eqn:Hstep;
      [|discriminate].
    apply execute_step_value in Hstep as (Hc & Hafter). simpl in_order. rewrite <- Hc.
    destruct c.
    + rewrite <- (Hafter eq_refl). exact (IH _ _ _ _ H).
    + injection H as <- _. reflexivity.
Qed.

Lemma execute_steps_run m items self :
  lookup_key "steps" m = Some (JArr items) ->
  forallb execution_shaped items = true ->
  forallb resolvable items = true ->
  exists self',
    _execute_steps uuid4_hex now_isoformat (JObj m) self
    = Ok (in_order (entries self) items) self'.
Proof.
  intros Hsteps Hshape Hroom.
  unfold _execute_steps. rewrite py_get_obj, Hsteps, lift_inr_bind. cbv beta.
  change (py_len (JArr ?l)) with (@inr exn _ (length l)).
  rewrite lift_inr_bind. cbv beta. rewrite print_bind.
  change (py_iter (JArr ?l)) with (@inr exn _ l).
  rewrite lift_inr_bind. cbv beta. unfold enumerate.
  match goal with |- context [execute_steps_loop _ _ _ ?s] =>
    destruct (execute_steps_loop_run uuid4_hex now_isoformat items 0 s Hshape Hroom)
      as (c & self' & Hrun & _)
  end.
  exists self'. rewrite Hrun. f_equal.
  exact (execute_steps_loop_value _ _ _ _ _ Hrun).
Qed.
End steps_in_full.

(** ** What a dry run leaves alone *)

Lemma extends_refl self : extends self self.
Proof.
  unfold extends. repeat split; try reflexivity.
  exists []. rewrite app_nil_r. reflexivity.
Qed.

Lemma extends_trans s1 s2 s3 : extends s1 s2 -> extends s2 s3 -> extends s1 s3.
Proof.
  intros (Hv & He & Ht & (l1 & Hl1) & Hk & Hu & Hc) (Hv' & He' & Ht' & (l2 & Hl2) & Hk' & Hu' & Hc').
  unfold extends. repeat split; try congruence; try lia.
  - exists (l1 ++ l2). rewrite Hl2, Hl1, app_assoc. reflexivity.
  - etrans; eassumption.
Qed.

Lemma oe_ret {A} (a : A) : only_extends (mret a).
Proof. intros self. apply extends_refl. Qed.

Lemma oe_raise {A} (e : exn) : only_extends (py_raise (A := A) e).
Proof. intros self. apply extends_refl. Qed.

Lemma oe_lift {A} (r : result A) : only_extends (lift r).
Proof. destruct r; [apply oe_raise | apply (oe_ret a)]. Qed.

Lemma oe_gets {A} (f : DryRunExecutor -> A) : only_extends (gets f).
Proof. intros self. apply extends_refl. Qed.

Lemma oe_bind {A B} (m : E A) (f : A -> E B) :
  only_extends m -> (forall a, only_extends (f a)) -> only_extends (m ≫= f).
Proof.
  intros Hm Hf self. specialize (Hm self). unfold mbind, Py_bind, py_bind.
  destruct (m self) as [a s|e s]; simpl in *; [|exact Hm].
  eapply extends_trans; [exact Hm | apply Hf].
Qed.

Lemma oe_print m : only_extends (print m).
Proof.
  intros self. unfold extends. simpl. repeat split; try reflexivity. eauto.
Qed.

Lemma oe_record key outputs : only_extends (record_outputs key outputs).
Proof.
  intros self. unfold extends. simpl. repeat split; try reflexivity.
  - exists []. rewrite app_nil_r. reflexivity.
  - change (entries self ⊆ entries (recorded self key outputs)).
    rewrite entries_recorded. set_solver.
Qed.

Lemma oe_when (c : bool) (m : E unit) : only_extends m -> only_extends (when c m).
Proof. destruct c; simpl; [auto | intros _; apply (oe_ret tt)]. Qed.

Lemma oe_for_each {A} (xs : list A) (body : A -> E unit) :
  (forall x, only_extends (body x)) -> only_extends (for_each xs body).
Proof.
  intros Hb. induction xs as [|x xs IH]; simpl.
  - apply (oe_ret tt).
  - apply (oe_bind (body x)); auto.
Qed.

Lemma oe_for_fold {A B} (xs : list A) (acc : B) (body : A -> B -> E B) :
  (forall x acc, only_extends (body x acc)) -> only_extends (for_fold xs acc body).
Proof.
  intros Hb. revert acc. induction xs as [|x xs IH]; intros acc; simpl.
  - apply (oe_ret acc).
  - apply (oe_bind (body x acc)); auto.
Qed.

Ltac oe_known := fail.

Ltac extending :=
  repeat first
    [ oe_known | apply oe_ret | apply oe_raise | apply oe_lift | apply oe_gets
    | apply oe_print | apply oe_record
    | apply oe_when | apply oe_for_each | apply oe_for_fold
    | apply oe_bind
    | match goal with
      | |- forall _, _ => intro
      | |- only_extends (let _ := _ in _) => cbv zeta
      | |- only_extends (if ?c then _ else _) => destruct c
      | |- only_extends (match ?x with _ => _ end) => destruct x
      | |- only_extends ((match ?x with _ => _ end) _) => destruct x
      end ].

Section leaves_alone.
Variables uuid4_hex now_isoformat : nat -> string.

Lemma oe_draw_uuid_hex : only_extends (draw_uuid_hex uuid4_hex).
Proof.
  intros self. unfold extends. simpl. repeat split; try reflexivity; try lia.
  exists []. rewrite app_nil_r. reflexivity.
Qed.

Lemma oe_read_clock : only_extends (read_clock now_isoformat).
Proof.
  intros self. unfold extends. simpl. repeat split; try reflexivity; try lia.
  exists []. rewrite app_nil_r. reflexivity.
Qed.

Ltac oe_known ::= first [ apply oe_draw_uuid_hex | apply oe_read_clock ].

Lemma oe_simulate_outputs step : only_extends (_simulate_outputs uuid4_hex now_isoformat step).
Proof. unfold _simulate_outputs, simulate_output. extending. Qed.

Lemma oe_resolve_inputs inputs : only_extends (_resolve_inputs inputs).
Proof. unfold _resolve_inputs. extending. Qed.

Ltac oe_known ::=
  first [ apply oe_draw_uuid_hex | apply oe_read_clock | apply oe_simulate_outputs
        | apply oe_resolve_inputs ].

Lemma oe_simulate_step step : only_extends (_simulate_step uuid4_hex now_isoformat step).
Proof. unfold _simulate_step, simulate_operation. extending. Qed.

Lemma oe_check_dependencies deps : only_extends (check_dependencies deps).
Proof.
  induction deps as [|dep deps IH]; [apply (oe_ret true)|].
  rewrite check_dependencies_cons. extending. exact IH.
Qed.

Ltac oe_known ::=
  first [ apply oe_read_clock | apply oe_simulate_step | apply oe_check_dependencies ].

Lemma oe_execute_steps workflow : only_extends (_execute_steps uuid4_hex now_isoformat workflow).
Proof.
  unfold _execute_steps. extending.
  match goal with |- only_extends (execute_steps_loop _ _ ?l) => generalize l end.
  intros steps. induction steps as [|[i step] steps IH].
  - apply (oe_ret true).
  - cbn [execute_steps_loop]. apply oe_bind; [unfold execute_step; extending|].
    intros []; [exact IH | apply (oe_ret false)].
Qed.

Lemma oe_simulate_condition condition : only_extends (_simulate_condition condition).
Proof. unfold _simulate_condition. extending. Qed.

Ltac oe_known ::=
  first [ apply oe_read_clock | apply oe_execute_steps | apply oe_simulate_condition ].

Lemma oe_check_pre_conditions workflow : only_extends (_check_pre_conditions workflow).
Proof. unfold _check_pre_conditions. extending. Qed.

Lemma oe_check_post_conditions workflow : only_extends (_check_post_conditions workflow).
Proof. unfold _check_post_conditions. extending. Qed.

Ltac oe_known ::=
  first [ apply oe_read_clock | apply oe_execute_steps | apply oe_check_pre_conditions
        | apply oe_check_post_conditions ].

Lemma oe_execute workflow : only_extends (execute uuid4_hex now_isoformat workflow).
Proof. unfold execute. extending. Qed.
End leaves_alone.

(** ** No [KeyError] after a validation that passed *)

Lemma quiet_py_get c k d : quiet (py_get c k d).
Proof. intros x. destruct c; discriminate. Qed.
Lemma quiet_py_in k c : quiet (py_in k c).
Proof. intros x. destruct c; discriminate. Qed.
Lemma quiet_py_iter c : quiet (py_iter c).
Proof. intros x. destruct c; discriminate. Qed.
Lemma quiet_py_len c : quiet (py_len c).
Proof. intros x. destruct c; discriminate. Qed.
Lemma quiet_py_items c : quiet (py_items c).
Proof. intros x. destruct c; discriminate. Qed.
Lemma quiet_hash_key v : quiet (hash_key v).
Proof. intros x. destruct v; discriminate. Qed.
Lemma quiet_all_str l : quiet (all_str l).
Proof.
  intros x. induction l as [|v l IH]; [discriminate|].
  simpl. destruct v; try discriminate.
  destruct (all_str l) as [e|ss]; [|discriminate]. intros [= ->]. exact (IH eq_refl).
Qed.
Lemma quiet_py_join sep c : quiet (py_join sep c).
Proof.
  intros x. unfold py_join. pose proof (quiet_py_iter c x) as Hi.
  destruct (py_iter c) as [e|l]; [congruence|].
  pose proof (quiet_all_str l x) as Hs.
  destruct (all_str l); [congruence | discriminate].
Qed.

Lemma collect_raises {A B} (f : A -> result B) (l : list A) (e : exn) :
  collect f l = inl e -> exists x, In x l /\ f x = inl e.
Proof.
  induction l as [|x l IH]; [discriminate|]. simpl.
  destruct (f x) as [e'|y] eqn:Hx.
  - intros [= ->]. exists x. auto.
  - destruct (collect f l) as [e'|ys]; [|discriminate].
    intros [= ->]. destruct (IH eq_refl) as (x' & Hin & Hx'). exists x'. auto.
Qed.

(** [_resolve_inputs] raises nothing but [RecursionError]. *)
Lemma resolve_raises depth : forall sim v e,
  resolve depth sim v = inl e -> e = RecursionError.
Proof.
  induction depth as [|depth IH]; intros sim v e H; [injection H as <-; reflexivity|].
  destruct v as [| | | |l|m]; try discriminate; cbn [resolve] in H.
  - destruct (collect (resolve depth sim) l) as [e'|l'] eqn:Hl; [|discriminate].
    injection H as ->. apply collect_raises in Hl as (x & _ & Hx). exact (IH _ _ _ Hx).
  - match type of H with match ?c with _ => _ end = _ =>
      destruct c as [e'|m'] eqn:Hm; [|discriminate] end.
    injection H as ->. apply collect_raises in Hm as (kv & _ & Hkv).
    destruct (resolve depth sim (snd kv)) as [e'|v'] eqn:Hv; [|discriminate].
    injection Hkv as ->. exact (IH _ _ _ Hv).
Qed.

Lemma quiet_resolve depth sim v : quiet (resolve depth sim v).
Proof. intros k Hk. apply resolve_raises in Hk. discriminate. Qed.

Lemma nk_ret {S A} (a : A) : no_key_error (mret (M := Py S) a).
Proof. intros s k s'. discriminate. Qed.

Lemma nk_lift {S A} (r : result A) : quiet r -> no_key_error (lift (S := S) r).
Proof.
  intros Hr s k s'. destruct r as [e|a]; [|discriminate].
  unfold lift, py_raise. intros [= -> _]. exact (Hr k eq_refl).
Qed.

Lemma nk_gets {S A} (f : S -> A) : no_key_error (gets f).
Proof. intros s k s'. discriminate. Qed.

Lemma nk_modify {S} (f : S -> S) : no_key_error (modify f).
Proof. intros s k s'. discriminate. Qed.

Lemma nk_bind {S A B} (m : Py S A) (f : A -> Py S B) :
  no_key_error m -> (forall a, no_key_error (f a)) -> no_key_error (m ≫= f).
Proof.
  intros Hm Hf s k s'. unfold mbind, Py_bind, py_bind.
  specialize (Hm s k). destruct (m s) as [a s1|e s1]; [apply Hf|].
  intros [= -> ->]. exact (Hm _ eq_refl).
Qed.

Lemma nk_when {S} (c : bool) (m : Py S unit) : no_key_error m -> no_key_error (when c m).
Proof. destruct c; simpl; [auto | intros _; apply (nk_ret tt)]. Qed.

Lemma nk_for_each {S A} (xs : list A) (body : A -> Py S unit) :
  (forall x, no_key_error (body x)) -> no_key_error (for_each xs body).
Proof.
  intros Hb. induction xs as [|x xs IH]; simpl.
  - apply (nk_ret tt).
  - apply (nk_bind (body x)); auto.
Qed.

Lemma nk_for_fold {S A B} (xs : list A) (acc : B) (body : A -> B -> Py S B) :
  (forall x acc, no_key_error (body x acc)) -> no_key_error (for_fold xs acc body).
Proof.
  intros Hb. revert acc. induction xs as [|x xs IH]; intros acc; simpl.
  - apply (nk_ret acc).
  - apply (nk_bind (body x acc)); auto.
Qed.

Ltac nk_known := fail.

Ltac no_key :=
  repeat first
    [ nk_known | apply nk_ret | apply nk_gets | apply nk_modify
    | apply nk_lift;
      first [ apply quiet_py_get | apply quiet_py_in | apply quiet_py_iter
            | apply quiet_py_len | apply quiet_py_items | apply quiet_hash_key
            | apply quiet_py_join | apply quiet_resolve ]
    | apply nk_when | apply nk_for_each | apply nk_for_fold
    | apply nk_bind
    | match goal with
      | |- forall _, _ => intro
      | |- no_key_error (let _ := _ in _) => cbv zeta
      | |- no_key_error (if ?c then _ else _) => destruct c
      | |- no_key_error (match ?x with _ => _ end) => destruct x
      | |- no_key_error ((match ?x with _ => _ end) _) => destruct x
      end ].

Section no_key_error_facts.
Variables uuid4_hex now_isoformat : nat -> string.

Lemma nk_draw_uuid_hex : no_key_error (draw_uuid_hex uuid4_hex).
Proof. intros s k s'. discriminate. Qed.

Lemma nk_read_clock : no_key_error (read_clock now_isoformat).
Proof. intros s k s'. discriminate. Qed.

Ltac nk_known ::= first [ apply nk_draw_uuid_hex | apply nk_read_clock ].

Lemma nk_simulate_step step : no_key_error (_simulate_step uuid4_hex now_isoformat step).
Proof.
  unfold _simulate_step, simulate_operation, _resolve_inputs, _simulate_outputs,
    simulate_output, print, record_outputs.
  no_key.
Qed.

Lemma nk_check_dependencies deps : no_key_error (check_dependencies deps).
Proof.
  induction deps as [|dep deps IH]; [apply (nk_ret true)|].
  rewrite check_dependencies_cons. unfold print. no_key. exact IH.
Qed.

Ltac nk_known ::=
  first [ apply nk_read_clock | apply nk_simulate_step | apply nk_check_dependencies ].

Lemma nk_execute_steps workflow : no_key_error (_execute_steps uuid4_hex now_isoformat workflow).
Proof.
  unfold _execute_steps, print. no_key.
  match goal with |- no_key_error (execute_steps_loop _ _ ?l) => generalize l end.
  intros steps. induction steps as [|[i step] steps IH].
  - apply (nk_ret true).
  - cbn [execute_steps_loop]. apply nk_bind; [unfold execute_step, print; no_key|].
    intros []; [exact IH | apply (nk_ret false)].
Qed.

Lemma nk_check_pre_conditions workflow : no_key_error (_check_pre_conditions workflow).
Proof. unfold _check_pre_conditions, _simulate_condition, print. no_key. Qed.

Lemma nk_check_post_conditions workflow : no_key_error (_check_post_conditions workflow).
Proof. unfold _check_post_conditions, print. no_key. Qed.
End no_key_error_facts.

(** *** What a validation that passed tells about the workflow *)

Lemma validate_verdict workflow self passed self' :
  validate workflow self = Ok passed self' ->
  passed = Nat.eqb (length (errors self')) 0.
Proof.
  intros H. unfold validate in H.
  repeat (apply bind_Ok in H as (? & ? & ? & H)).
  match goal with Hg : gets errors _ = Ok _ _ |- _ => apply gets_Ok in Hg as [-> ->] end.
  apply ret_Ok in H as [-> ->]. reflexivity.
Qed.

Lemma keeps_nil {A} (m : V A) self a self' :
  keeps_errors m -> m self = Ok a self' -> errors self' = [] -> errors self = [].
Proof.
  intros Hm Hrun Hnil. destruct (errors self) as [|e es] eqn:He; [reflexivity|].
  exfalso. specialize (Hm self e). rewrite Hrun, He in Hm. simpl in Hm.
  rewrite Hnil in Hm. apply Hm. left. reflexivity.
Qed.

Ltac keeping :=
  repeat first
    [ apply keeps_verdict
    | apply appends_keeps;
      first [ apply appends_validate_metadata
            | apply appends_validate_inputs | apply appends_validate_security
            | apply appends_validate_steps | apply appends_validate_dependencies
            | apply appends_validate_data_flow | apply appends_audit_security
            | apply appends_check_best_practices | apply appends_lift
            | apply appends_ret | apply appends_add_error | apply appends_add_warning
            | apply appends_when; apply appends_add_error
            | apply appends_when; apply appends_add_warning ]
    | apply keeps_bind
    | match goal with
      | |- forall _, _ => intro
      | |- keeps_errors (if ?c then _ else _) => destruct c
      end ].

Lemma presence_loop_errors (c : json) (msg : string -> message) (keys : list string) :
  forall self self',
    for_each keys (fun key =>
      present ← lift (py_in key c);
      when (negb present) (add_error (msg key))) self = Ok tt self' ->
    errors self' = [] ->
    forall key, In key keys -> py_in key c = inr true.
Proof.
  induction keys as [|key keys IH]; intros self self' H Hnil k Hk; [destruct Hk|].
  rewrite for_each_cons in H. cbv beta in H.
  destruct (py_in key c) as [e|b] eqn:Hin; [discriminate|].
  rewrite lift_inr_bind in H.
  destruct b.
  - change (when (negb true) ?x self) with (Ok tt self) in H. cbv iota in H.
    destruct Hk as [<-|Hk]; [exact Hin | exact (IH _ _ H Hnil k Hk)].
  - exfalso. change (when (negb false) ?x) with x in H.
    rewrite add_error_run in H. cbv iota in H.
    assert (keeps_errors (for_each keys (fun key =>
              present ← lift (py_in key c);
              when (negb present) (add_error (msg key))))) as Hkeeps.
    { apply appends_keeps, appends_for_each. intros x.
      apply appends_bind; [apply appends_lift|].
      intros b. apply appends_when, appends_add_error. }
    pose proof (keeps_nil _ _ _ _ Hkeeps H Hnil) as Hbad. simpl in Hbad.
    destruct (errors self); discriminate Hbad.
Qed.

Lemma metadata_passed metadata self self' :
  _validate_metadata metadata self = Ok tt self' -> errors self' = [] ->
  exists md, metadata = JObj md /\
             has_key "workflow_name" md = true /\ has_key "platform" md = true.
Proof.
  unfold _validate_metadata. intros H Hnil.
  apply bind_Ok in H as ([] & s1 & Hloop & H).
  assert (errors s1 = []) as Hnil1.
  { match type of H with ?t s1 = _ => apply (keeps_nil t s1 tt self') end;
      [keeping | exact H | exact Hnil]. }
  pose proof (presence_loop_errors metadata
                (fun field => [Txt "metadata."; Val (JStr field); Txt " is required"])
                _ _ _ Hloop Hnil1) as Hall.
  pose proof (Hall "workflow_name" ltac:(simpl; auto)) as Hname.
  pose proof (Hall "platform" ltac:(simpl; auto)) as Hplatform.
  rewrite Hname, lift_inr_bind in H. cbv beta iota in H.
  apply bind_Ok in H as ([] & s2 & H2 & _).
  apply bind_Ok in H2 as (name & s3 & H3 & _). apply lift_Ok in H3 as (Hget & _).
  destruct metadata as [| | | | |md]; try discriminate.
  exists md. injection Hname as Hname. injection Hplatform as Hplatform. auto.
Qed.

Lemma validate_passed workflow self self' :
  validate workflow self = Ok true self' ->
  exists m md, workflow = JObj m /\ lookup_key "metadata" m = Some (JObj md) /\
               has_key "workflow_name" md = true /\ has_key "platform" md = true.
Proof.
  intros H. pose proof (validate_verdict _ _ _ _ H) as Hnil.
  assert (errors self' = []) as Herr by (destruct (errors self'); [reflexivity | discriminate]).
  clear Hnil. unfold validate in H.
  apply bind_Ok in H as ([] & s1 & H1 & H).
  apply bind_Ok in H as (metadata & s2 & H2 & H). apply lift_Ok in H2 as (Hget & ->).
  destruct workflow as [| | | | |m]; try discriminate.
  rewrite py_get_obj in Hget. injection Hget as Hget.
  apply bind_Ok in H as ([] & s3 & H3 & H).
  assert (errors s3 = []) as Hnil3.
  { match type of H with ?t s3 = _ => apply (keeps_nil t s3 true self') end;
      [keeping | exact H | exact Herr]. }
  destruct (metadata_passed _ _ _ H3 Hnil3) as (md & -> & Hname & Hplatform).
  assert (errors s1 = []) as Hnil1.
  { apply (keeps_nil (_validate_metadata (JObj md)) s1 tt s3);
      [apply appends_keeps, appends_validate_metadata | exact H3 | exact Hnil3]. }
  destruct (validate_structure_run m self) as (ws & Hrun).
  rewrite Hrun in H1. injection H1 as <-.
  exists m, md. split; [reflexivity|]. split; [|auto].
  destruct (lookup_key "metadata" m) as [v|] eqn:Hmeta; [congruence|].
  exfalso. unfold extended in Hnil1. cbn [errors] in Hnil1.
  apply app_eq_nil in Hnil1 as (_ & Hnil1). unfold required_keys in Hnil1.
  cbn [flat_map] in Hnil1. unfold has_key at 1 in Hnil1. rewrite Hmeta in Hnil1.
  discriminate Hnil1.
Qed.

Lemma has_key_lookup k m : has_key k m = true -> exists v, lookup_key k m = Some v.
Proof. unfold has_key. destruct (lookup_key k m); [eauto | discriminate]. Qed.

Section after_validation.
Variables uuid4_hex now_isoformat : nat -> string.

Ltac nk_known ::=
  first [ apply nk_read_clock | apply nk_execute_steps | apply nk_check_pre_conditions
        | apply nk_check_post_conditions ].

Lemma execute_after_validate workflow (self : WorkflowValidator) self' :
  validate workflow self = Ok true self' ->
  no_key_error (execute uuid4_hex now_isoformat workflow).
Proof.
  intros H. destruct (validate_passed _ _ _ H) as (m & md & -> & Hmeta & Hname & Hplatform).
  apply has_key_lookup in Hname as (name & Hname).
  apply has_key_lookup in Hplatform as (platform & Hplatform).
  intros s k s'. unfold execute.
  rewrite print_bind, gets_bind, print_bind.
  assert (py_getitem (JObj m) "metadata" = inr (JObj md)) as ->
    by (unfold py_getitem; rewrite Hmeta; reflexivity).
  rewrite lift_inr_bind. cbv beta.
  assert (py_getitem (JObj md) "workflow_name" = inr name) as ->
    by (unfold py_getitem; rewrite Hname; reflexivity).
  rewrite lift_inr_bind. cbv beta. rewrite print_bind, lift_inr_bind. cbv beta.
  assert (py_getitem (JObj md) "platform" = inr platform) as ->
    by (unfold py_getitem; rewrite Hplatform; reflexivity).
  rewrite lift_inr_bind. cbv beta. rewrite print_bind.
  match goal with |- ?t ?st <> _ => cut (no_key_error t); [intros Hnk; apply Hnk|] end.
  unfold print. no_key.
Qed.
End after_validation.

(** ** What a dry run does in general *)

(** X10. The conditions never stop a dry run: when the check of the
    pre-conditions or of the post-conditions returns, it returns [True],
    whatever the conditions and their [critical] flags hold. *)
Theorem conditions_never_fail (workflow : json) (self self' : DryRunExecutor)
    (passed : bool) :
  _check_pre_conditions workflow self = Ok passed self' \/
  _check_post_conditions workflow self = Ok passed self' ->
  passed = true.
Proof.
  intros [H|H];
    [eapply check_pre_conditions_true | eapply check_post_conditions_true]; exact H.
Qed.

(** X11. [execute] returns [False] for one reason only: the last line
    it has printed is then the fault of a dependency that is not
    satisfied. *)
Theorem dry_run_fails_only_on_a_dependency (uuid4_hex now_isoformat : nat -> string)
    (workflow : json) (self self' : DryRunExecutor) :
  execute uuid4_hex now_isoformat workflow self = Ok false self' ->
  exists dep, last (stdout self') = Some (dependency_fault dep).
Proof. apply execute_false. Qed.

(** X12. On well-shaped steps whose inputs nest no deeper than the
    interpreter allows ([resolvable]), [_execute_steps] returns, and it
    returns [True] exactly when the steps are in order: every dependency
    of a step has an entry when the loop reaches the step, left by a
    query or a mutation before it or there from the start. *)
Theorem steps_run_iff_in_order (uuid4_hex now_isoformat : nat -> string)
    (m : list (string * json)) (items : list json) (self : DryRunExecutor) :
  lookup_key "steps" m = Some (JArr items) ->
  forallb execution_shaped items = true ->
  forallb resolvable items = true ->
  exists self',
    _execute_steps uuid4_hex now_isoformat (JObj m) self
    = Ok (in_order (entries self) items) self'.
Proof. apply execute_steps_run. Qed.

(** X13. Whatever the workflow and however the run ends, [execute]
    leaves [verbose], [execution_state] and the trace id as they were,
    only adds lines to the output and entries to [simulated_outputs],
    and never takes one away. *)
Theorem dry_run_only_extends (uuid4_hex now_isoformat : nat -> string)
    (workflow : json) (self : DryRunExecutor) :
  extends self (final_state (execute uuid4_hex now_isoformat workflow self)).
Proof. apply oe_execute. Qed.

(** X14. A workflow for which [validate] has returned [True] has the
    metadata that [execute] prints: its dry run does not raise
    [KeyError], from any state of the executor. *)
Theorem no_key_error_after_validation (uuid4_hex now_isoformat : nat -> string)
    (workflow : json) (validator validator' : WorkflowValidator)
    (self self' : DryRunExecutor) (k : hkey) :
  validate workflow validator = Ok true validator' ->
  execute uuid4_hex now_isoformat workflow self <> Raise (KeyError k) self'.
Proof.
  intros H. exact (execute_after_validate uuid4_hex now_isoformat _ _ _ H self k self').
Qed.

(** ** The data-flow check, in full *)

Lemma extended_same self es ws : extended self es ws = self -> es = [] /\ ws = [].
Proof.
  destruct self as [sm e w n]. unfold extended. simpl. intros [= He Hw].
  split; [apply (app_inv_head e) | apply (app_inv_head w)]; rewrite app_nil_r; assumption.
Qed.

Lemma fed_iff av step :
  fed av step = true <->
  ref_errors av (step_id_of step) (references step) = [] /\
  ref_warnings av (step_id_of step) (references step) = [].
Proof.
  unfold fed, ref_errors, ref_warnings.
  induction (references step) as [|[x y] refs IH]; simpl; [tauto|].
  destruct (av !! KStr x) as [fields|]; simpl.
  - destruct (bool_decide (y ∉ fields)) eqn:Hy.
    + apply bool_decide_eq_true in Hy. rewrite bool_decide_eq_false_2 by exact Hy.
      simpl. split; [discriminate | intros [_ H]; discriminate H].
    + apply bool_decide_eq_false in Hy. apply dec_stable in Hy.
      rewrite bool_decide_eq_true_2 by exact Hy. simpl. exact IH.
  - split; [discriminate | intros [H _]; discriminate H].
Qed.

Lemma well_fed_iff items : forall av,
  well_fed av items = true <-> flow_errors items av = [] /\ flow_warnings items av = [].
Proof.
  induction items as [|step items IH]; intros av; simpl; [tauto|].
  rewrite andb_true_iff, fed_iff, IH. split.
  - intros ((-> & ->) & -> & ->). auto.
  - intros (He & Hw). apply app_eq_nil in He as (? & ?). apply app_eq_nil in Hw as (? & ?).
    auto.
Qed.

(** ** References between steps *)

(** X15. On well-shaped steps the data-flow check adds nothing exactly
    when every reference of every step names a field that a step
    declared before it has among its outputs. *)
Theorem data_flow_accepted_iff (items : list json) (self : WorkflowValidator) :
  forallb data_flow_shaped items = true ->
  (_validate_data_flow (JArr items) self = Ok tt self <-> well_fed ∅ items = true).
Proof.
  intros Hshape. unfold _validate_data_flow.
  change (py_iter (JArr items)) with (@inr exn _ items).
  rewrite lift_inr_bind. cbv beta.
  rewrite (bind_run _ _ _ _ _ (data_flow_run items ∅ self Hshape)).
  rewrite well_fed_iff. split.
  - intros [= H]. apply extended_same in H. exact H.
  - intros (-> & ->). rewrite extended_nil. reflexivity.
Qed.

(** X16. On well-shaped steps, a reference to a step whose outputs no
    earlier step registers, because it is declared later or not at all,
    gives the error "references output from unknown step". *)
Theorem reference_to_a_later_step_is_unknown (pre post : list json) (S : json)
    (x y : string) (self : WorkflowValidator) :
  forallb data_flow_shaped (pre ++ S :: post) = true ->
  In (x, y) (references S) ->
  (forall P, In P pre -> forall k ns, registers P = Some (k, ns) -> k <> KStr x) ->
  exists es ws,
    _validate_data_flow (JArr (pre ++ S :: post)) self = Ok tt (extended self es ws) /\
    In (unknown_step_error (step_id_of S) x) es.
Proof.
  intros Hshape Href Hpre.
  destruct (data_flow_whole pre post S self Hshape) as (_ & _ & Hall).
  rewrite !extended_app in Hall. eexists _, _. split; [exact Hall|].
  apply in_or_app. right. apply in_or_app. left.
  unfold ref_errors. apply in_flat_map. exists (x, y). split; [exact Href|].
  simpl. rewrite flow_outputs_keep by exact Hpre.
  rewrite lookup_empty. left. reflexivity.
Qed.

(** ** Templates in the inputs of a step *)

Lemma contains_cons needle c s :
  contains needle (String c s) = false -> contains needle s = false.
Proof. cbn [contains]. intros H. apply orb_false_elim in H. tauto. Qed.

Lemma no_brace_head c s : contains "{" (String c s) = false -> Ascii.eqb "{" c = false.
Proof.
  cbn [contains String.prefix]. intros H. apply orb_false_elim in H as (H & _).
  destruct (ascii_dec "{" c) as [Heq|Hne]; [destruct s; discriminate H|].
  apply Ascii.eqb_neq. exact Hne.
Qed.

Lemma sub_from_no_match r repl :
  (forall pos, match_at r pos "" = None) ->
  (forall pos c t, Ascii.eqb "{" c = false -> match_at r pos (String c t) = None) ->
  forall s pos, contains "{" s = false -> sub_from r repl 0 pos s = s.
Proof.
  intros Hnil Hcons s. induction s as [|c s IH]; intros pos Hs.
  - cbn [sub_from]. rewrite Hnil. reflexivity.
  - cbn [sub_from]. rewrite (Hcons _ _ _ (no_brace_head _ _ Hs)).
    rewrite (IH _ (contains_cons _ _ _ Hs)). reflexivity.
Qed.

Lemma step_ref_re_starts pos s :
  match_at step_ref_re pos s
  = match s with
    | String c t =>
        if Ascii.eqb "{" c
        then rmatch (cat [Lit "{steps."; Group (Plus (Chr (none_of "."))); Lit ".outputs.";
                          Group (Plus (Chr (none_of "}"))); Lit "}}"]) (S pos) t []
               (fun pos' _ caps => Some (pos', caps))
        else None
    | EmptyString => None
    end.
Proof.
  unfold match_at, step_ref_re. cbn [cat Lit]. do 3 regex_step.
  destruct s as [|c t]; [reflexivity|]. destruct (Ascii.eqb "{" c); reflexivity.
Qed.

Lemma input_ref_re_starts pos s :
  match_at input_ref_re pos s
  = match s with
    | String c t =>
        if Ascii.eqb "{" c
        then rmatch (cat [Lit "{inputs."; Group (Plus (Chr (none_of "}"))); Lit "}}"])
               (S pos) t [] (fun pos' _ caps => Some (pos', caps))
        else None
    | EmptyString => None
    end.
Proof.
  unfold match_at, input_ref_re. cbn [cat Lit]. do 3 regex_step.
  destruct s as [|c t]; [reflexivity|]. destruct (Ascii.eqb "{" c); reflexivity.
Qed.

Lemma re_sub_plain sim s :
  contains "{" s = false ->
  re_sub input_ref_re input_placeholder (re_sub step_ref_re (replace_ref sim) s) = s.
Proof.
  intros Hs. unfold re_sub.
  rewrite (sub_from_no_match step_ref_re); [|intros; rewrite step_ref_re_starts; reflexivity| |exact Hs].
  - apply sub_from_no_match; [intros; rewrite input_ref_re_starts; reflexivity | | exact Hs].
    intros pos c t Hc. rewrite input_ref_re_starts, Hc. reflexivity.
  - intros pos c t Hc. rewrite step_ref_re_starts, Hc. reflexivity.
Qed.

Lemma collect_same {A} (f : A -> result A) (l : list A) :
  (forall x, In x l -> f x = inr x) -> collect f l = inr l.
Proof.
  induction l as [|x l IH]; intros Hf; [reflexivity|].
  simpl. rewrite (Hf x (or_introl eq_refl)), IH; [reflexivity|].
  intros x' Hx'. apply Hf. right. exact Hx'.
Qed.

Lemma resolve_plain depth : forall sim v,
  plain v = true -> nesting v <= depth -> resolve depth sim v = inr v.
Proof.
  induction depth as [|depth IH]; intros sim v Hplain Hv.
  - destruct v; simpl in Hv; lia.
  - destruct v as [| | |s|l|m]; try reflexivity.
    + cbn [resolve]. do 2 f_equal. apply re_sub_plain. cbn [plain] in Hplain.
      destruct (contains "{" s); [discriminate | reflexivity].
    + cbn [resolve plain nesting] in *. apply le_S_n in Hv.
      rewrite collect_same; [reflexivity|].
      intros x Hx. apply IH.
      * rewrite forallb_forall in Hplain. exact (Hplain x Hx).
      * etrans; [apply nesting_item, Hx | exact Hv].
    + cbn [resolve plain nesting] in *. apply le_S_n in Hv.
      rewrite collect_same; [reflexivity|].
      intros [k x] Hkv. cbn [fst snd]. rewrite IH; [reflexivity| |].
      * rewrite forallb_forall in Hplain. exact (Hplain _ Hkv).
      * etrans; [apply (nesting_member m (k, x)), Hkv | exact Hv].
Qed.

(** *** A reference in a text *)

Lemma append_cons c (a b : string) : String c a +:+ b = String c (a +:+ b).
Proof. reflexivity. Qed.

Lemma append_nil (b : string) : "" +:+ b = b.
Proof. reflexivity. Qed.

Lemma append_assoc_r (a b c : string) : (a +:+ b) +:+ c = a +:+ (b +:+ c).
Proof.
  induction a as [|x a IH]; [reflexivity|].
  rewrite !append_cons. f_equal. exact IH.
Qed.

Lemma length_append (a b : string) :
  String.length (a +:+ b) = String.length a + String.length b.
Proof.
  induction a as [|x a IH]; [reflexivity|].
  rewrite append_cons. simpl. f_equal. exact IH.
Qed.

Lemma lit_prefix {R} (l s : string) pos caps (k : nat -> string -> list string -> option R) :
  rmatch (Lit l) pos (l +:+ s) caps k = k (pos + String.length l) s caps.
Proof.
  revert pos. induction l as [|c l IH]; intros pos.
  - cbn [Lit]. regex_step. rewrite append_nil, Nat.add_0_r. reflexivity.
  - cbn [Lit]. do 2 regex_step. rewrite append_cons. cbv iota. rewrite Ascii.eqb_refl.
    rewrite IH. simpl String.length. rewrite <- plus_n_Sm. reflexivity.
Qed.

Lemma skip_while_all p x rest :
  all_in p x = true -> skip_while p rest = rest -> skip_while p (x +:+ rest) = rest.
Proof.
  intros Hx Hrest. induction x as [|c x IH]; [exact Hrest|].
  simpl in Hx. apply andb_prop in Hx as (Hc & Hx).
  rewrite append_cons. cbn [skip_while]. rewrite Hc. exact (IH Hx).
Qed.

Lemma substring_prefix (x rest : string) :
  substring 0 (String.length x) (x +:+ rest) = x.
Proof.
  induction x as [|c x IH].
  - rewrite append_nil. destruct rest; reflexivity.
  - rewrite append_cons. simpl. rewrite IH. reflexivity.
Qed.

Lemma group_plus {R} p (k : nat -> string -> list string -> option R) pos x rest caps :
  (forall c s pos caps, p c = true -> k pos (String c s) caps = None) ->
  x <> "" -> all_in p x = true -> skip_while p rest = rest ->
  rmatch (Group (Plus (Chr p))) pos (x +:+ rest) caps k
  = k (pos + String.length x) rest (caps ++ [x]).
Proof.
  intros Hk Hne Hx Hrest. destruct x as [|c x]; [congruence|].
  simpl in Hx. apply andb_prop in Hx as (Hc & Hx).
  unfold Plus. do 3 regex_step. rewrite ?append_cons, ?append_nil. cbv iota. rewrite Hc.
  rewrite star_chr_keeps_all by (intros; apply Hk; assumption).
  rewrite (skip_while_all p x rest Hx Hrest), length_append.
  replace (S pos + (String.length x + String.length rest - String.length rest))
    with (pos + String.length (String c x)) by (simpl; lia).
  replace (pos + String.length (String c x) - pos) with (String.length (String c x)) by lia.
  change (String c (x +:+ rest)) with (String c x +:+ rest).
  rewrite (substring_prefix (String c x) rest). reflexivity.
Qed.

Lemma lit_fails {R} (l : string) c0 c s pos caps
    (k : nat -> string -> list string -> option R) :
  Ascii.eqb c0 c = false -> rmatch (Lit (String c0 l)) pos (String c s) caps k = None.
Proof. intros Hc. cbn [Lit]. do 2 regex_step. rewrite Hc. reflexivity. Qed.

Lemma none_of_char d c : none_of (String d "") c = true -> Ascii.eqb d c = false.
Proof.
  unfold none_of, any_of. simpl. rewrite orb_false_r, Ascii.eqb_sym.
  destruct (Ascii.eqb d c); [discriminate | reflexivity].
Qed.

Lemma step_ref_matches pos x y post :
  x <> "" -> all_in (none_of ".") x = true ->
  y <> "" -> all_in (none_of "}") y = true ->
  match_at step_ref_re pos (step_ref x y +:+ post)
  = Some (pos + String.length (step_ref x y), [x; y]).
Proof.
  intros Hx Hxs Hy Hys. unfold match_at, step_ref_re, step_ref.
  rewrite !append_assoc_r. cbn [cat]. regex_step. rewrite lit_prefix.
  regex_step. rewrite group_plus; [| |exact Hx|exact Hxs|reflexivity].
  - regex_step. rewrite lit_prefix. regex_step.
    rewrite group_plus; [| |exact Hy|exact Hys|reflexivity].
    + regex_step. rewrite lit_prefix. regex_step.
      rewrite !length_append. simpl. f_equal. f_equal. lia.
    + intros c s p caps Hc. regex_step. apply lit_fails, none_of_char, Hc.
  - intros c s p caps Hc. regex_step. apply lit_fails, none_of_char, Hc.
Qed.

Lemma sub_from_skip r repl (t u : string) pos :
  sub_from r repl (String.length t) pos (t +:+ u)
  = sub_from r repl 0 (pos + String.length t) u.
Proof.
  revert pos. induction t as [|c t IH]; intros pos.
  - rewrite append_nil. simpl. rewrite Nat.add_0_r. reflexivity.
  - rewrite append_cons. simpl. rewrite IH. f_equal. lia.
Qed.

Lemma sub_from_plain_prefix r repl (pre t : string) pos :
  (forall pos c t, Ascii.eqb "{" c = false -> match_at r pos (String c t) = None) ->
  contains "{" pre = false ->
  sub_from r repl 0 pos (pre +:+ t) = pre +:+ sub_from r repl 0 (pos + String.length pre) t.
Proof.
  intros Hcons. revert pos. induction pre as [|c pre IH]; intros pos Hpre.
  - rewrite !append_nil. simpl. rewrite Nat.add_0_r. reflexivity.
  - rewrite !append_cons. cbn [sub_from].
    rewrite (Hcons _ _ _ (no_brace_head _ _ Hpre)).
    rewrite (IH _ (contains_cons _ _ _ Hpre)).
    replace (pos + String.length (String c pre)) with (S pos + String.length pre)
      by (simpl; lia).
    reflexivity.
Qed.

Lemma no_brace_app (a b : string) :
  contains "{" a = false -> contains "{" b = false -> contains "{" (a +:+ b) = false.
Proof.
  intros Ha Hb. induction a as [|c a IH]; [exact Hb|].
  pose proof (no_brace_head _ _ Ha) as Hc.
  rewrite append_cons. cbn [contains String.prefix].
  rewrite (IH (contains_cons _ _ _ Ha)), orb_false_r.
  destruct (ascii_dec "{" c) as [Heq|Hne]; [|reflexivity].
  subst c. rewrite Ascii.eqb_refl in Hc. discriminate Hc.
Qed.

Lemma reference_resolved sim (pre post x y : string) :
  contains "{" pre = false -> contains "{" post = false ->
  x <> "" -> all_in (none_of ".") x = true ->
  y <> "" -> all_in (none_of "}") y = true ->
  contains "{" (replace_ref sim [x; y]) = false ->
  re_sub input_ref_re input_placeholder
    (re_sub step_ref_re (replace_ref sim) (pre +:+ step_ref x y +:+ post))
  = pre +:+ replace_ref sim [x; y] +:+ post.
Proof.
  intros Hpre Hpost Hx Hxs Hy Hys Hrepl.
  assert (re_sub step_ref_re (replace_ref sim) (pre +:+ step_ref x y +:+ post)
          = pre +:+ replace_ref sim [x; y] +:+ post) as ->.
  { unfold re_sub.
    rewrite sub_from_plain_prefix;
      [|intros pos c t Hc; rewrite step_ref_re_starts, Hc; reflexivity | exact Hpre].
    f_equal. simpl Nat.add.
    assert (exists ref', step_ref x y = String "{" ref') as (ref' & Href)
      by (eexists; reflexivity).
    pose proof (step_ref_matches (String.length pre) x y post Hx Hxs Hy Hys) as Hm.
    rewrite Href in *. rewrite ?append_cons, ?append_nil in *. cbn [sub_from]. rewrite Hm.
    f_equal.
    rewrite (proj2 (Nat.eqb_neq _ _)) by (simpl; lia).
    replace (String.length pre + String.length (String "{" ref') - String.length pre - 1)
      with (String.length ref') by (simpl; lia).
    rewrite sub_from_skip.
    apply sub_from_no_match; [intros; rewrite step_ref_re_starts; reflexivity | | exact Hpost].
    intros pos c t Hc. rewrite step_ref_re_starts, Hc. reflexivity. }
  unfold re_sub. apply sub_from_no_match.
  - intros. rewrite input_ref_re_starts. reflexivity.
  - intros pos c t Hc. rewrite input_ref_re_starts, Hc. reflexivity.
  - apply no_brace_app; [exact Hpre|]. apply no_brace_app; assumption.
Qed.

(** ** Names, versions, templates *)

(** X17. The pattern for the name of a workflow and for the id of a step
    accepts exactly the strings made of a lower-case letter followed by
    lower-case letters, digits and underscores, with or without one
    newline after them. *)
Theorem names_accepted_are_snake_case (s : string) :
  re_match snake_case_re s = snake_case s.
Proof. apply snake_case_re_accepts. Qed.

(** X18. The pattern for [schema_version] accepts exactly three groups of
    digits with a dot between them, with or without one newline after
    them. *)
Theorem versions_accepted_are_semver (s : string) :
  re_match semver_re s = semver s.
Proof. apply semver_re_accepts. Qed.

(** X19. Inputs that hold no opening brace in any string, and that nest
    no deeper than the interpreter allows, come out of [_resolve_inputs]
    as they went in, and the executor is left as it was. *)
Theorem plain_inputs_pass_unchanged (inputs : json) (self : DryRunExecutor) :
  plain inputs = true ->
  nesting inputs <= resolve_limit ->
  _resolve_inputs inputs self = Ok inputs self.
Proof.
  intros Hplain Hroom. unfold _resolve_inputs. rewrite gets_bind.
  rewrite (resolve_plain _ _ _ Hplain Hroom). reflexivity.
Qed.

(** X20. In a string, a reference to the output [y] of the step [x],
    between texts without a brace, is replaced by what [replace_ref]
    gives for [x] and [y]: the recorded value, [<y>] when the step has
    no such output, [<unresolved:x.y>] when the step has no entry.  The
    call needs room for itself only. *)
Theorem reference_is_substituted (depth : nat) (sim : list (hkey * list (string * mock)))
    (pre post x y : string) :
  contains "{" pre = false -> contains "{" post = false ->
  x <> "" -> all_in (none_of ".") x = true ->
  y <> "" -> all_in (none_of "}") y = true ->
  contains "{" (replace_ref sim [x; y]) = false ->
  resolve (S depth) sim (JStr (pre +:+ step_ref x y +:+ post))
  = inr (JStr (pre +:+ replace_ref sim [x; y] +:+ post)).
Proof.
  intros Hpre Hpost Hx Hxs Hy Hys Hrepl. cbn [resolve]. do 2 f_equal.
  apply reference_resolved; assumption.
Qed.

(** X21. The outputs synthesized for a step depend on the names of its
    declared outputs only: the expressions given for them are not
    read. *)
Theorem outputs_follow_names_only (uuid4_hex now_isoformat : nat -> string)
    (m m' outputs outputs' : list (string * json)) (self : DryRunExecutor) :
  lookup_key "outputs" m = Some (JObj outputs) ->
  lookup_key "outputs" m' = Some (JObj outputs') ->
  map fst outputs = map fst outputs' ->
  _simulate_outputs uuid4_hex now_isoformat (JObj m) self
  = _simulate_outputs uuid4_hex now_isoformat (JObj m') self.
Proof.
  intros Hm Hm' Hnames. unfold _simulate_outputs.
  rewrite !py_get_obj, Hm, Hm', !lift_inr_bind. cbv beta.
  change (py_items (JObj ?l)) with (@inr exn _ l). rewrite !lift_inr_bind. cbv beta.
  clear Hm Hm'. generalize (@nil (string * mock)). revert outputs' Hnames self.
  induction outputs as [|[k v] outputs IH]; intros [|[k' v'] outputs'] Hnames self acc;
    try discriminate; [reflexivity|].
  simpl in Hnames. injection Hnames as <- Hnames.
  rewrite !for_fold_cons.
  destruct (simulate_output uuid4_hex now_isoformat k self) as [x s1|e s1] eqn:Hout.
  - rewrite !(bind_run _ _ _ _ _ Hout). cbv beta. apply IH, Hnames.
  - rewrite !(raise_bind _ _ _ _ _ Hout). reflexivity.
Qed.

(** ** Checks that add no error *)

Lemma ne_ret {A} (a : A) : adds_no_error (mret a).
Proof. intros self. reflexivity. Qed.

Lemma ne_lift {A} (r : result A) : adds_no_error (lift r).
Proof. intros self. destruct r; reflexivity. Qed.

Lemma ne_bind {A B} (m : V A) (f : A -> V B) :
  adds_no_error m -> (forall a, adds_no_error (f a)) -> adds_no_error (m ≫= f).
Proof.
  intros Hm Hf self. specialize (Hm self). unfold mbind, Py_bind, py_bind.
  destruct (m self) as [a s|e s]; simpl in *; [|exact Hm].
  rewrite Hf. exact Hm.
Qed.

Lemma ne_add_warning m : adds_no_error (add_warning m).
Proof. intros self. reflexivity. Qed.

Lemma ne_add_info m : adds_no_error (add_info m).
Proof. intros self. reflexivity. Qed.

Lemma ne_when (c : bool) (m : V unit) : adds_no_error m -> adds_no_error (when c m).
Proof. destruct c; simpl; [auto | intros _; apply (ne_ret tt)]. Qed.

Lemma check_best_practices_no_error workflow :
  adds_no_error (_check_best_practices workflow).
Proof.
  unfold _check_best_practices.
  repeat first
    [ apply ne_ret | apply ne_lift | apply ne_add_warning | apply ne_add_info
    | apply ne_when | apply ne_bind
    | match goal with
      | |- forall _, _ => intro
      | |- adds_no_error (if ?c then _ else _) => destruct c
      end ].
Qed.

(** ** Steps with the same id *)

Lemma keeps_run {A} (m : V A) self a self' e :
  keeps_errors m -> m self = Ok a self' -> In e (errors self) -> In e (errors self').
Proof. intros Hm Hrun He. specialize (Hm self e He). rewrite Hrun in Hm. exact Hm. Qed.

Lemma validate_steps_turn (i : nat) (step : json) (step_ids ids' : gset hkey)
    (self self' : WorkflowValidator) :
  (let step_num := Z.of_nat (i + 1) in
   has_id ← lift (py_in "id" step);
   if negb has_id then
     add_error [Txt "Step "; Val (JInt step_num); Txt " missing 'id' field"];;
     mret step_ids
   else
     step_id ← lift (py_getitem step "id");
     key ← lift (hash_key step_id);
     when (bool_decide (key ∈ step_ids))
       (add_error [Txt "Duplicate step ID: '"; Val step_id; Txt "'"]);;
     let step_ids := step_ids ∪ {[key]} in
     ok ← lift (py_re_match snake_case_re step_id);
     when (negb ok)
       (add_error [Txt "Step ID '"; Val step_id;
                   Txt "' must be snake_case starting with a letter"]);;
     for_each ["operation"; "api_endpoint"] (fun field =>
       present ← lift (py_in field step);
       when (negb present)
         (add_error [Txt "Step '"; Val step_id; Txt "' missing '";
                     Val (JStr field); Txt "' field"]));;
     operation ← lift (py_get step "operation" JNull);
     when (negb (one_of operations operation))
       (add_error [Txt "Step '"; Val step_id; Txt "' has invalid operation: ";
                   Val operation]);;
     has_handling ← lift (py_in "error_handling" step);
     when (negb has_handling)
       (add_warning [Txt "Step '"; Val step_id;
                     Txt "' has no error_handling configuration"]);;
     has_outputs ← (if is_str "mutation" operation then lift (py_in "outputs" step)
                    else mret true);
     when (is_str "mutation" operation && negb has_outputs)
       (add_warning [Txt "Mutation step '"; Val step_id;
                     Txt "' should declare 'outputs' for downstream dependencies"]);;
     has_telemetry ← lift (py_in "telemetry" step);
     when (negb has_telemetry)
       (add_info [Txt "Step '"; Val step_id; Txt "' has no telemetry configuration"]);;
     mret step_ids) self = Ok ids' self' ->
  step_ids ⊆ ids' /\
  (forall e, In e (errors self) -> In e (errors self')) /\
  forall k, step_key step = Some k ->
    k ∈ ids' /\ (k ∈ step_ids -> In (duplicate_error (step_id_of step)) (errors self')).
Proof.
  cbv zeta. intros H.
  apply bind_Ok in H as (has_id & s1 & H1 & H). apply lift_Ok in H1 as (Hin & ->).
  assert (has_id = false ->
          step_ids ⊆ ids' /\
          (forall e, In e (errors self) -> In e (errors self')) /\
          forall k, step_key step = Some k ->
            k ∈ ids' /\
            (k ∈ step_ids -> In (duplicate_error (step_id_of step)) (errors self')))
    as Hmissing.
  { intros ->. cbn [negb] in H. cbv iota in H.
    apply bind_Ok in H as ([] & s2 & Ha & H). rewrite add_error_run in Ha.
    injection Ha as <-. apply ret_Ok in H as (-> & ->).
    split; [reflexivity|]. split.
    - intros e He. simpl. apply in_or_app. left. exact He.
    - intros k Hk. exfalso. unfold step_key in Hk.
      destruct step as [| | | | |m]; try discriminate.
      injection Hin as Hin. unfold has_key in Hin.
      destruct (lookup_key "id" m); discriminate. }
  destruct has_id; [|exact (Hmissing eq_refl)]. clear Hmissing.
  cbn [negb] in H. cbv iota in H.
  apply bind_Ok in H as (step_id & s2 & H2 & H). apply lift_Ok in H2 as (Hget & ->).
  destruct step as [| | | | |m]; try discriminate.
  unfold step_key, step_id_of. unfold py_getitem in Hget.
  destruct (lookup_key "id" m) as [v|] eqn:Hid; [|discriminate].
  injection Hget as <-.
  revert H. intros H.
  apply bind_Ok in H as (key & s3 & H3 & H). apply lift_Ok in H3 as (Hkey & ->).
  rewrite Hkey.
  apply bind_Ok in H as ([] & s4 & Hdup & H).
  match type of H with ?t s4 = _ =>
    assert (appends t) as Htail by
      (repeat first [ apply appends_for_each; intros ? | progress appending ])
  end.
  assert (ids' = step_ids ∪ {[key]}) as ->.
  { clear Htail Hdup. repeat (apply bind_Ok in H as (? & ? & _ & H)).
    apply ret_Ok in H. tauto. }
  split; [set_solver|]. split.
  - intros e He. eapply (keeps_run _ s4); [apply appends_keeps, Htail | exact H |].
    eapply (keeps_run _ self); [|exact Hdup|exact He].
    apply appends_keeps, appends_when, appends_add_error.
  - intros k [= <-]. split; [set_solver|]. intros Hseen.
    eapply (keeps_run _ s4); [apply appends_keeps, Htail | exact H |].
    rewrite bool_decide_eq_true_2 in Hdup by exact Hseen.
    change (when true ?x) with x in Hdup. rewrite add_error_run in Hdup.
    injection Hdup as <-. simpl. apply in_or_app. right. left. reflexivity.
Qed.

Lemma for_fold_app {S A B} (xs ys : list A) (acc : B) (body : A -> B -> Py S B)
    (s : S) (acc' : B) (s' : S) :
  for_fold (xs ++ ys) acc body s = Ok acc' s' ->
  exists acc1 s1, for_fold xs acc body s = Ok acc1 s1 /\ for_fold ys acc1 body s1 = Ok acc' s'.
Proof.
  revert acc s. induction xs as [|x xs IH]; intros acc s H.
  - exists acc, s. split; [reflexivity | exact H].
  - rewrite <- app_comm_cons, for_fold_cons in H. rewrite for_fold_cons.
    destruct (body x acc s) as [acc0 s0|e s0]; [|discriminate].
    exact (IH _ _ H).
Qed.

Lemma validate_steps_duplicate (pre mid post : list json) (A B : json) (k : hkey)
    (self self' : WorkflowValidator) :
  step_key A = Some k -> step_key B = Some k ->
  _validate_steps (JArr (pre ++ A :: mid ++ B :: post)) self = Ok tt self' ->
  In (duplicate_error (step_id_of B)) (errors self').
Proof.
  intros HA HB H. unfold _validate_steps in H.
  destruct (negb (truthy (JArr (pre ++ A :: mid ++ B :: post)))) eqn:Hempty.
  { destruct pre; discriminate Hempty. }
  change (py_iter (JArr ?l)) with (@inr exn _ l) in H.
  rewrite lift_inr_bind in H. cbv beta in H.
  apply bind_Ok in H as (ids' & s1 & H & Hret). apply ret_Ok in Hret as (_ & ->).
  match type of H with for_fold _ _ ?body _ = _ => set (turn := body) in * end.
  assert (forall l ids s ids1 s1,
            for_fold l ids turn s = Ok ids1 s1 ->
            ids ⊆ ids1 /\
            (forall e, In e (errors s) -> In e (errors s1)) /\
            forall i step key, In (i, step) l -> step_key step = Some key -> key ∈ ids ->
              In (duplicate_error (step_id_of step)) (errors s1)) as Hloop.
  { induction l as [|[i step] l IH]; intros ids s ids1 s2 Hrun.
    - apply ret_Ok in Hrun as (-> & ->). split; [reflexivity|]. split; [auto|].
      intros ? ? ? [].
    - rewrite for_fold_cons in Hrun.
      destruct (turn (i, step) ids s) as [ids0 s0|e s0] eqn:Hturn; [|discriminate].
      pose proof (validate_steps_turn i step ids ids0 s s0 Hturn) as (Hsub & Hkeep & Hkey).
      destruct (IH _ _ _ _ Hrun) as (Hsub' & Hkeep' & Hdup).
      split; [set_solver|]. split; [auto|].
      intros j step' key [[= <- <-]|Hin] Hstep Hseen.
      + apply Hkeep'. apply (Hkey key Hstep). exact Hseen.
      + apply (Hdup j step' key Hin Hstep). apply Hsub, Hseen. }
  unfold enumerate in H. rewrite enumerate_from_app in H.
  apply for_fold_app in H as (ids1 & s2 & _ & H).
  cbn [enumerate_from] in H. rewrite for_fold_cons in H.
  match type of H with
  | match ?t with _ => _ end = _ => destruct t as [ids2 s3|e s3] eqn:HturnA
  end; [|discriminate].
  pose proof (validate_steps_turn _ _ _ _ _ _ HturnA) as (_ & _ & HkeyA).
  destruct (HkeyA k HA) as (Hk & _).
  destruct (Hloop _ _ _ _ _ H) as (_ & _ & Hdup).
  apply (Hdup (S (0 + length pre) + length mid) B k); [|exact HB|exact Hk].
  rewrite enumerate_from_app. apply in_or_app. right. left. reflexivity.
Qed.

(** ** Values under a key that names a secret *)


Lemma skip_while_shorter p s : String.length (skip_while p s) <= String.length s.
Proof. induction s as [|c s IH]; simpl; [lia|]. destruct (p c); simpl; lia. Qed.


















(** ** More on the checks of the validator *)

(** X22. [_check_best_practices] adds no error, however it ends: what it
    finds is a warning or a note. *)
Theorem best_practices_add_no_error (workflow : json) (self : WorkflowValidator) :
  errors (final_state (_check_best_practices workflow self)) = errors self.
Proof. apply check_best_practices_no_error. Qed.

(** X23. When [_validate_steps] returns and two steps of the list have
    the same id, the error "Duplicate step ID" is among the errors, for
    the second of them. *)
Theorem duplicate_id_is_reported (pre mid post : list json) (A B : json) (k : hkey)
    (self self' : WorkflowValidator) :
  step_key A = Some k -> step_key B = Some k ->
  _validate_steps (JArr (pre ++ A :: mid ++ B :: post)) self = Ok tt self' ->
  In (duplicate_error (step_id_of B)) (errors self').
Proof. apply validate_steps_duplicate. Qed.


(** X25. The flag [--strict] changes nothing of what [main] prints and
    only the exit status: with it the status is 0 exactly when it is 0
    without it and the validator holds no warning. *)
Theorem strict_changes_the_exit_status_only (workflow_path : string) (workflow : json) :
  fst (main workflow_path true (Loaded workflow))
  = fst (main workflow_path false (Loaded workflow)) /\
  (snd (main workflow_path true (Loaded workflow)) = inr 0 <->
   snd (main workflow_path false (Loaded workflow)) = inr 0 /\
   warnings (final_state (validate workflow (init false))) = []).
Proof.
  unfold main. cbv zeta.
  change (init true) with (set_strict true (init false)).
  rewrite blind_validate.
  destruct (validate workflow (init false)) as [success validator|e validator]; simpl.
  - split; [reflexivity|]. destruct success; simpl.
    + destruct (warnings validator); simpl; split;
        first [ intros [_ H]; discriminate H | intros H; discriminate H | auto ].
    + split; [intros H; discriminate H | intros [H _]; discriminate H].
  - split; [reflexivity|]. split; [intros H; discriminate H | intros [H _]; discriminate H].
Qed.

(** X26. With [--strict], a workflow without errors but with a warning
    ends with the status 1, after a report whose verdict is that the
    validation passed. *)
Theorem strict_fails_after_passed_report (workflow_path : string) (workflow : json)
    (validator : WorkflowValidator) :
  validate workflow (init true) = Ok true validator ->
  warnings validator <> [] ->
  snd (main workflow_path true (Loaded workflow)) = inr 1 /\
  In passed_with_warnings (fst (main workflow_path true (Loaded workflow))).
Proof.
  intros Hrun Hwarn. pose proof (validate_verdict _ _ _ _ Hrun) as Herr.
  unfold main. cbv zeta. rewrite Hrun. cbn [fst snd negb].
  destruct (warnings validator) as [|w ws] eqn:Hw; [congruence|].
  split; [reflexivity|].
  right. unfold print_results. rewrite Hw.
  destruct (errors validator); [|discriminate Herr].
  apply in_or_app. right. apply in_or_app. right. apply in_or_app. right.
  apply in_or_app. right. left. reflexivity.
Qed.

(** ** Checks that return *)

Lemma returns_ret {S A} (a : A) : returns (mret (M := Py S) a).
Proof. intros s. eexists _, _. reflexivity. Qed.

Lemma returns_bind {S A B} (m : Py S A) (f : A -> Py S B) :
  returns m -> (forall a, returns (f a)) -> returns (m ≫= f).
Proof.
  intros Hm Hf s. destruct (Hm s) as (a & s1 & Hrun).
  rewrite (bind_run _ _ _ _ _ Hrun). apply Hf.
Qed.

Lemma returns_lift_bind {S A B} (a : A) (f : A -> Py S B) :
  returns (f a) -> returns (lift (inr a) ≫= f).
Proof. intros Hf s. rewrite lift_inr_bind. apply Hf. Qed.

Lemma returns_modify {S} (f : S -> S) : returns (modify f).
Proof. intros s. eexists _, _. reflexivity. Qed.

Lemma returns_gets {S A} (f : S -> A) : returns (gets f).
Proof. intros s. eexists _, _. reflexivity. Qed.

Lemma returns_when {S} (c : bool) (m : Py S unit) : returns m -> returns (when c m).
Proof. destruct c; simpl; [auto | intros _; apply (returns_ret tt)]. Qed.

Lemma returns_for_each {S A} (xs : list A) (body : A -> Py S unit) :
  (forall x, In x xs -> returns (body x)) -> returns (for_each xs body).
Proof.
  induction xs as [|x xs IH]; intros Hb; [apply (returns_ret tt)|].
  cbn [for_each]. apply (returns_bind (body x)).
  - apply Hb. left. reflexivity.
  - intros _. apply IH. intros y Hy. apply Hb. right. exact Hy.
Qed.

Lemma returns_for_fold {S A B} (xs : list A) (acc : B) (body : A -> B -> Py S B) :
  (forall x acc, In x xs -> returns (body x acc)) -> returns (for_fold xs acc body).
Proof.
  revert acc. induction xs as [|x xs IH]; intros acc Hb; [apply (returns_ret acc)|].
  cbn [for_fold]. apply (returns_bind (body x acc)).
  - apply Hb. left. reflexivity.
  - intros acc'. apply IH. intros y a Hy. apply Hb. right. exact Hy.
Qed.

Ltac returning :=
  repeat first
    [ apply returns_ret | apply returns_modify | apply returns_gets
    | apply returns_when
    | apply returns_lift_bind; cbv beta
    | apply returns_bind
    | match goal with
      | |- forall _, _ => intro
      | |- returns (if ?c then _ else _) => destruct c
      end ].














(** ** Dry runs that return *)

Lemma returns_print (m : message) : returns (print m).
Proof. apply returns_modify. Qed.

Lemma returns_simulate_condition m :
  absent_or is_string "id" m = true -> returns (_simulate_condition (JObj m)).
Proof.
  unfold absent_or. intros Hid. unfold _simulate_condition. rewrite !py_get_obj.
  apply returns_lift_bind. cbv beta. apply returns_lift_bind. cbv beta.
  assert (exists s, match lookup_key "id" m with Some v => v | None => JStr "unknown" end
                    = JStr s) as (s & ->).
  { destruct (lookup_key "id" m) as [v|]; [|eexists; reflexivity].
    destruct v; try discriminate. eexists. reflexivity. }
  unfold py_in. returning.
Qed.

Lemma typed_validation_get (m : list (string * json)) :
  absent_or typed_validation "validation" m = true ->
  exists mv,
    py_get (JObj m) "validation" (JObj []) = inr (JObj mv) /\
    absent_or typed_conditions "pre_conditions" mv = true /\
    absent_or typed_conditions "post_conditions" mv = true.
Proof.
  unfold absent_or at 1. intros Htyped. rewrite py_get_obj.
  destruct (lookup_key "validation" m) as [validation|].
  - destruct validation as [| | | | |mv]; try discriminate.
    unfold typed_validation in Htyped. apply andb_prop in Htyped as (Hpre & Hpost).
    exists mv. auto.
  - exists []. auto.
Qed.

Lemma typed_conditions_get (k : string) (mv : list (string * json)) :
  absent_or typed_conditions k mv = true ->
  exists conditions,
    py_get (JObj mv) k (JArr []) = inr (JArr conditions) /\
    forallb typed_condition conditions = true.
Proof.
  unfold absent_or. intros Htyped. rewrite py_get_obj.
  destruct (lookup_key k mv) as [v|].
  - destruct v as [| | | |conditions|]; try discriminate.
    exists conditions. split; [reflexivity | exact Htyped].
  - exists []. split; reflexivity.
Qed.

Section runs_that_return.
Variable uuid4_hex : nat -> string.
Variable now_isoformat : nat -> string.

Lemma returns_read_clock : returns (read_clock now_isoformat).
Proof. intros self. eexists _, _. reflexivity. Qed.

Lemma returns_check_pre_conditions m :
  absent_or typed_validation "validation" m = true ->
  returns (_check_pre_conditions (JObj m)).
Proof.
  intros Htyped.
  destruct (typed_validation_get m Htyped) as (mv & Hvalidation & Hpre & _).
  destruct (typed_conditions_get _ _ Hpre) as (conditions & Hget & Hc).
  unfold _check_pre_conditions. rewrite Hvalidation.
  apply returns_lift_bind. cbv beta. rewrite Hget.
  apply returns_lift_bind. cbv beta.
  destruct (negb (truthy (JArr conditions))); [returning|].
  change (py_len (JArr conditions)) with (@inr exn _ (length conditions)).
  apply returns_lift_bind. cbv beta.
  apply returns_bind; [apply returns_print|]. intros _.
  change (py_iter (JArr conditions)) with (@inr exn _ conditions).
  apply returns_lift_bind. cbv beta.
  apply returns_bind; [|returning].
  apply returns_for_fold. intros condition all_passed Hin.
  rewrite forallb_forall in Hc. specialize (Hc _ Hin).
  destruct condition as [| | | | |mc]; try discriminate. unfold typed_condition in Hc.
  rewrite !py_get_obj. apply returns_lift_bind. cbv beta.
  apply returns_lift_bind. cbv beta. apply returns_lift_bind. cbv beta.
  apply returns_bind; [apply returns_print|]. intros _.
  apply returns_bind; [apply returns_gets|]. intros is_verbose.
  apply returns_bind; [returning|]. intros _.
  apply returns_bind; [exact (returns_simulate_condition mc Hc)|]. intros passed.
  apply returns_bind; [|returning].
  destruct passed; returning.
Qed.

Lemma returns_check_post_conditions m :
  absent_or typed_validation "validation" m = true ->
  returns (_check_post_conditions (JObj m)).
Proof.
  intros Htyped.
  destruct (typed_validation_get m Htyped) as (mv & Hvalidation & _ & Hpost).
  destruct (typed_conditions_get _ _ Hpost) as (conditions & Hget & Hc).
  unfold _check_post_conditions. rewrite Hvalidation.
  apply returns_lift_bind. cbv beta. rewrite Hget.
  apply returns_lift_bind. cbv beta.
  destruct (negb (truthy (JArr conditions))); [returning|].
  change (py_len (JArr conditions)) with (@inr exn _ (length conditions)).
  apply returns_lift_bind. cbv beta.
  apply returns_bind; [apply returns_print|]. intros _.
  change (py_iter (JArr conditions)) with (@inr exn _ conditions).
  apply returns_lift_bind. cbv beta.
  apply returns_bind; [|returning].
  apply returns_for_each. intros condition Hin.
  rewrite forallb_forall in Hc. specialize (Hc _ Hin).
  destruct condition as [| | | | |mc]; try discriminate.
  rewrite !py_get_obj. returning.
Qed.

Lemma returns_execute_steps m :
  absent_or executable_steps "steps" m = true ->
  returns (_execute_steps uuid4_hex now_isoformat (JObj m)).
Proof.
  unfold absent_or. intros Htyped self.
  destruct (lookup_key "steps" m) as [steps|] eqn:Hsteps.
  - destruct steps as [| | | |items|]; try discriminate.
    apply andb_prop in Htyped as (Hshape & Hroom).
    destruct (execute_steps_run uuid4_hex now_isoformat m items self Hsteps Hshape Hroom)
      as (self' & Hrun).
    eexists _, _. exact Hrun.
  - unfold _execute_steps. rewrite py_get_obj, Hsteps. eexists _, _. reflexivity.
Qed.

Lemma execute_returns workflow :
  runnable workflow = true -> returns (execute uuid4_hex now_isoformat workflow).
Proof.
  intros Htyped. destruct workflow as [| | | | |m]; try discriminate.
  unfold runnable in Htyped.
  apply andb_prop in Htyped as (Htyped & Hsteps).
  apply andb_prop in Htyped as (Htyped & Hvalidation).
  apply andb_prop in Htyped as (Hnamed & Hconfig).
  unfold named in Hnamed. unfold absent_or in Hconfig.
  unfold execute, py_getitem.
  destruct (lookup_key "metadata" m) as [metadata|]; [|discriminate].
  destruct metadata as [| | | | |md]; try discriminate.
  apply andb_prop in Hnamed as (Hname & Hplatform). unfold has_key in Hname, Hplatform.
  destruct (lookup_key "workflow_name" md) as [name|] eqn:Hn; [|discriminate].
  destruct (lookup_key "platform" md) as [platform|] eqn:Hp; [|discriminate].
  apply returns_bind; [apply returns_print|]. intros _.
  apply returns_bind; [apply returns_gets|]. intros trace.
  apply returns_bind; [apply returns_print|]. intros _.
  apply returns_lift_bind. cbv beta. rewrite Hn. apply returns_lift_bind. cbv beta.
  apply returns_bind; [apply returns_print|]. intros _.
  apply returns_lift_bind. cbv beta. rewrite Hp. apply returns_lift_bind. cbv beta.
  apply returns_bind; [apply returns_print|]. intros _.
  apply returns_bind; [apply returns_read_clock|]. intros started.
  apply returns_bind; [apply returns_print|]. intros _.
  rewrite py_get_obj. apply returns_lift_bind. cbv beta.
  assert (exists config, match lookup_key "execution_config" m with
                         | Some v => v | None => JObj [] end = JObj config) as (config & ->).
  { destruct (lookup_key "execution_config" m) as [v|]; [|eexists; reflexivity].
    destruct v; try discriminate. eexists. reflexivity. }
  rewrite py_get_obj. apply returns_lift_bind. cbv beta.
  apply returns_bind; [returning|]. intros _.
  apply returns_bind; [exact (returns_check_pre_conditions m Hvalidation)|]. intros pre.
  destruct (negb pre); [apply returns_ret|].
  apply returns_bind; [exact (returns_execute_steps m Hsteps)|]. intros steps.
  destruct (negb steps); [apply returns_ret|].
  apply returns_bind; [exact (returns_check_post_conditions m Hvalidation)|]. intros post.
  destruct (negb post); [apply returns_ret|].
  returning.
Qed.
End runs_that_return.

(** ** The value of a dry run *)

Lemma ko_ret {A} (a : A) : keeps_outputs (mret a).
Proof. intros self a' self' H. apply ret_Ok in H as [_ ->]. reflexivity. Qed.

Lemma ko_lift {A} (r : result A) : keeps_outputs (lift r).
Proof. intros self a self' H. apply lift_Ok in H as [_ ->]. reflexivity. Qed.

Lemma ko_gets {A} (f : DryRunExecutor -> A) : keeps_outputs (gets f).
Proof. intros self a self' H. apply gets_Ok in H as [_ ->]. reflexivity. Qed.

Lemma ko_print (m : message) : keeps_outputs (print m).
Proof. intros self a self' [= _ <-]. reflexivity. Qed.

Lemma ko_bind {A B} (m : E A) (f : A -> E B) :
  keeps_outputs m -> (forall a, keeps_outputs (f a)) -> keeps_outputs (m ≫= f).
Proof.
  intros Hm Hf self b self' H. apply bind_Ok in H as (a & s1 & Hrun & H).
  rewrite (Hf _ _ _ _ H). exact (Hm _ _ _ Hrun).
Qed.

Lemma ko_when (c : bool) (m : E unit) : keeps_outputs m -> keeps_outputs (when c m).
Proof. destruct c; simpl; [auto | intros _; apply (ko_ret tt)]. Qed.

Lemma ko_for_each {A} (xs : list A) (body : A -> E unit) :
  (forall x, keeps_outputs (body x)) -> keeps_outputs (for_each xs body).
Proof.
  intros Hb. induction xs as [|x xs IH]; [apply (ko_ret tt)|].
  cbn [for_each]. apply ko_bind; [apply Hb | intros _; exact IH].
Qed.

Lemma ko_for_fold {A B} (xs : list A) (acc : B) (body : A -> B -> E B) :
  (forall x acc, keeps_outputs (body x acc)) -> keeps_outputs (for_fold xs acc body).
Proof.
  intros Hb. revert acc. induction xs as [|x xs IH]; intros acc; [apply (ko_ret acc)|].
  cbn [for_fold]. apply ko_bind; [apply Hb | intros acc'; apply IH].
Qed.

Ltac ko_known := fail.

Ltac outputs_kept :=
  repeat first
    [ apply ko_ret | apply ko_lift | apply ko_gets | apply ko_print
    | ko_known
    | apply ko_when | apply ko_bind | apply ko_for_each | apply ko_for_fold
    | match goal with
      | |- forall _, _ => intro
      | |- keeps_outputs (let '(_, _) := ?p in _) => destruct p
      | |- keeps_outputs (if ?c then _ else _) => destruct c
      end ].

Lemma ko_simulate_condition condition : keeps_outputs (_simulate_condition condition).
Proof. unfold _simulate_condition. outputs_kept. Qed.

Ltac ko_known ::= apply ko_simulate_condition.

Lemma ko_check_pre_conditions workflow : keeps_outputs (_check_pre_conditions workflow).
Proof. unfold _check_pre_conditions. outputs_kept. Qed.

Lemma ko_check_post_conditions workflow : keeps_outputs (_check_post_conditions workflow).
Proof. unfold _check_post_conditions. outputs_kept. Qed.

Lemma entries_same self self' :
  simulated_outputs self' = simulated_outputs self -> entries self' = entries self.
Proof. unfold entries. intros ->. reflexivity. Qed.

Section value_of_a_run.
Variable uuid4_hex : nat -> string.
Variable now_isoformat : nat -> string.

Lemma ko_read_clock : keeps_outputs (read_clock now_isoformat).
Proof. intros self a self' [= _ <-]. reflexivity. Qed.

Lemma execute_steps_value m self steps self' :
  absent_or executable_steps "steps" m = true ->
  _execute_steps uuid4_hex now_isoformat (JObj m) self = Ok steps self' ->
  steps = in_order (entries self) (steps_of (JObj m)).
Proof.
  unfold absent_or, steps_of. intros Htyped Hrun.
  destruct (lookup_key "steps" m) as [v|] eqn:Hsteps.
  - destruct v as [| | | |items|]; try discriminate.
    apply andb_prop in Htyped as (Hshape & Hroom).
    destruct (execute_steps_run uuid4_hex now_isoformat m items self Hsteps Hshape Hroom)
      as (self'' & Hrun').
    congruence.
  - unfold _execute_steps in Hrun. rewrite py_get_obj, Hsteps in Hrun.
    injection Hrun as <- _. reflexivity.
Qed.

Lemma execute_value workflow self success self' :
  runnable workflow = true ->
  execute uuid4_hex now_isoformat workflow self = Ok success self' ->
  success = in_order (entries self) (steps_of workflow).
Proof.
  intros Htyped H. destruct workflow as [| | | | |m]; try discriminate.
  assert (absent_or executable_steps "steps" m = true) as Hshape.
  { unfold runnable in Htyped. apply andb_prop in Htyped as (_ & Hsteps). exact Hsteps. }
  unfold execute in H. rewrite print_bind, gets_bind, print_bind in H.
  apply bind_Ok in H as (metadata & s1 & H1 & H). apply ko_lift in H1.
  apply bind_Ok in H as (workflow_name & s2 & H2 & H). apply ko_lift in H2.
  rewrite print_bind in H.
  apply bind_Ok in H as (metadata' & s3 & H3 & H). apply ko_lift in H3.
  apply bind_Ok in H as (platform & s4 & H4 & H). apply ko_lift in H4.
  rewrite print_bind in H.
  apply bind_Ok in H as (started & s5 & H5 & H). apply ko_read_clock in H5.
  rewrite print_bind in H.
  apply bind_Ok in H as (exec_config & s6 & H6 & H). apply ko_lift in H6.
  apply bind_Ok in H as (dry_run & s7 & H7 & H). apply ko_lift in H7.
  apply bind_Ok in H as ([] & s8 & H8 & H). apply (ko_when _ _ (ko_print _)) in H8.
  apply bind_Ok in H as (pre & s9 & Hpre & H).
  pose proof (ko_check_pre_conditions _ _ _ _ Hpre) as H9.
  apply check_pre_conditions_true in Hpre. subst pre. simpl in H.
  apply bind_Ok in H as (steps & s10 & Hsteps & H).
  apply (execute_steps_value _ _ _ _ Hshape) in Hsteps.
  assert (entries s9 = entries self) as Hentries.
  { apply entries_same. unfold printed in *. cbn [simulated_outputs] in *. congruence. }
  rewrite Hentries in Hsteps. rewrite <- Hsteps.
  destruct steps; simpl in H.
  - apply bind_Ok in H as (post & s11 & Hpost & H).
    apply check_post_conditions_true in Hpost. subst post. simpl in H.
    rewrite !print_bind in H. apply ret_Ok in H as [-> _]. reflexivity.
  - apply ret_Ok in H as [-> _]. reflexivity.
Qed.
End value_of_a_run.


(** ** Workflows that are read without an exception *)


(** X28. On a workflow that has the metadata [execute] prints, whose
    sections have the types the executor expects and whose inputs nest
    no deeper than the interpreter allows ([runnable]), [execute]
    returns, and it returns [True] exactly when the steps are in order
    from the entries the executor began with: the conditions and the
    operations of the steps have no part in the result. *)
Theorem dry_run_succeeds_iff_in_order (uuid4_hex now_isoformat : nat -> string)
    (workflow : json) (self : DryRunExecutor) :
  runnable workflow = true ->
  exists self',
    execute uuid4_hex now_isoformat workflow self
    = Ok (in_order (entries self) (steps_of workflow)) self'.
Proof.
  intros Htyped.
  destruct (execute_returns uuid4_hex now_isoformat workflow Htyped self)
    as (success & self' & Hrun).
  exists self'. rewrite Hrun. f_equal.
  exact (execute_value _ _ _ _ _ _ Htyped Hrun).
Qed.

(** ** A search that runs out of stack

    The search follows a chain of dependencies with one nested call of
    [dfs] for each link.  On a chain with more links than the interpreter
    allows nested calls, declared before two steps that depend on each
    other, it raises [RecursionError] before it reaches them. *)









Section chain_search.
Variable n : nat.

Let graph := graph_of (chain 0 n ++ [step_tick; step_tock]) [].




End chain_search.

End properties.

(** * The properties at concrete workflows

    The runs of this part are runs under [sample_interpreter]. *)

#[local] Existing Instance sample_interpreter.

(** ** C2: a chain that is longer than the stack *)


(** ** C4 and C6: runs of the executor that go wrong *)

(** C4. A query that depends on a sub-workflow declared before it: the
    sub-workflow is handled without a fault, yet it leaves no entry in
    [simulated_outputs], and the query stops the run on the fault of an
    unsatisfied dependency. *)
Lemma subworkflow_leaves_no_entry :
  exists self',
    execute sample_uuid4_hex sample_now_isoformat subworkflow_workflow
      (new_executor sample_uuid4_hex false) = Ok false self' /\
    In [Txt "       [~] Sub-workflow '"; Val (JStr "child_flow"); Txt "' SKIPPED"]
       (stdout self') /\
    dict_get (KStr "child") (simulated_outputs self') = None /\
    last (stdout self') = Some (dependency_fault (JStr "child")).
Proof.
  eexists. split; [vm_compute; reflexivity|].
  split; [|split; reflexivity].
  simpl. do 10 right. left. reflexivity.
Qed.

(** C6. On a workflow without metadata [validate] returns, with the
    missing section among its errors, while [execute] raises [KeyError]
    when it prints the name of the workflow. *)
Lemma execute_needs_metadata :
  (exists self',
     validate no_metadata_workflow (init false) = Ok false self' /\
     In [Txt "Missing required key: '"; Val (JStr "metadata"); Txt "'"] (errors self')) /\
  (exists self',
     execute sample_uuid4_hex sample_now_isoformat no_metadata_workflow
       (new_executor sample_uuid4_hex false) = Raise (KeyError (KStr "metadata")) self').
Proof.
  split; eexists.
  - split; [vm_compute; reflexivity|]. left. reflexivity.
  - vm_compute. reflexivity.
Qed.

(** ** The theorems at concrete workflows *)

Lemma validate_true_iff_no_errors_witness :
  validate sample_workflow (init false)
  = Ok true (final_state (validate sample_workflow (init false))) /\
  warnings (final_state (validate sample_workflow (init false))) <> [] /\
  (true = true <-> errors (final_state (validate sample_workflow (init false))) = []).
Proof.
  split; [vm_compute; reflexivity|]. split; [vm_compute; discriminate|].
  apply (validate_true_iff_no_errors false sample_workflow). vm_compute. reflexivity.
Defined.


Lemma outputs_follow_the_first_rule_witness :
  lookup_key "outputs" [("id", JStr "o"); ("outputs", JObj [("widget_name", JNull);
                                                           ("full_name", JNull)])]
  = Some (JObj [("widget_name", JNull); ("full_name", JNull)]) /\
  synthesized sample_uuid4_hex sample_now_isoformat (new_executor sample_uuid4_hex false)
    "widget_name" = MockStr "mock_widget_name_9f1c2e7a".
Proof.
  split; [reflexivity|].
  apply (outputs_follow_the_first_rule sample_uuid4_hex sample_now_isoformat
           [("id", JStr "o"); ("outputs", JObj [("widget_name", JNull); ("full_name", JNull)])]
           [("widget_name", JNull); ("full_name", JNull)]
           (new_executor sample_uuid4_hex false)).
  reflexivity.
Defined.

Lemma later_dependency_aborts_witness :
  lookup_key "steps" out_of_order_workflow
  = Some (JArr ([step_source] ++ step_early :: [step_late])) /\
  forallb execution_shaped ([step_source] ++ [step_early]) = true /\
  forallb resolvable [step_source] = true /\
  depends_on_of step_early = JArr [JStr "late"] /\
  records step_late = Some (KStr "late") /\
  exists self' dep,
    _execute_steps sample_uuid4_hex sample_now_isoformat (JObj out_of_order_workflow)
      (new_executor sample_uuid4_hex false) = Ok false self' /\
    last (stdout self') = Some (dependency_fault dep).
Proof.
  split; [reflexivity|]. split; [reflexivity|]. split; [vm_compute; reflexivity|].
  split; [reflexivity|]. split; [reflexivity|].
  apply (later_dependency_aborts sample_uuid4_hex sample_now_isoformat
           out_of_order_workflow [step_source] [step_late] step_early
           [JStr "late"] "late" (new_executor sample_uuid4_hex false)).
  - reflexivity.
  - reflexivity.
  - vm_compute. reflexivity.
  - reflexivity.
  - left. reflexivity.
  - intros P [<-|[]]. vm_compute. discriminate.
  - intros H. apply H. reflexivity.
Defined.

Lemma undeclared_field_is_a_warning_witness :
  forallb data_flow_shaped ([] ++ step_source :: [step_late] ++ step_reader :: [step_selfish])
  = true /\
  registers step_source = Some (KStr "source", ["order_id"]) /\
  In ("source", "total") (references step_reader) /\
  exists av s1 es ws es' ws',
    for_fold ([] ++ step_source :: [step_late]) ∅ data_flow_step (init false) = Ok av s1 /\
    data_flow_step step_reader av s1 = Ok (register step_reader av) (extended s1 es ws) /\
    In (undeclared_field_warning (step_id_of step_reader) "total" "source") ws /\
    ~ In (unknown_step_error (step_id_of step_reader) "source") es /\
    _validate_data_flow
      (JArr ([] ++ step_source :: [step_late] ++ step_reader :: [step_selfish])) (init false)
    = Ok tt (extended (extended s1 es ws) es' ws').
Proof.
  split; [reflexivity|]. split; [reflexivity|].
  split; [vm_compute; left; reflexivity|].
  apply (undeclared_field_is_a_warning [] [step_late] [step_selfish] step_source step_reader
           "source" "total" ["order_id"] (init false)).
  - reflexivity.
  - reflexivity.
  - intros [H|[]]. discriminate H.
  - intros M [<-|[]] k ns H. vm_compute in H. injection H as <- _. discriminate.
  - vm_compute. left. reflexivity.
Defined.

Lemma own_output_is_unknown_witness :
  forallb data_flow_shaped ([step_source] ++ step_selfish :: [step_late]) = true /\
  step_id_of step_selfish = JStr "selfish" /\
  In ("selfish", "token_count") (references step_selfish) /\
  registers step_selfish = Some (KStr "selfish", ["token_count"]) /\
  exists av s1 es ws es' ws',
    for_fold [step_source] ∅ data_flow_step (init false) = Ok av s1 /\
    data_flow_step step_selfish av s1 = Ok (register step_selfish av) (extended s1 es ws) /\
    In (unknown_step_error (JStr "selfish") "selfish") es /\
    _validate_data_flow (JArr ([step_source] ++ step_selfish :: [step_late])) (init false)
    = Ok tt (extended (extended s1 es ws) es' ws').
Proof.
  split; [reflexivity|]. split; [reflexivity|].
  split; [vm_compute; left; reflexivity|].
  split; [reflexivity|].
  apply (own_output_is_unknown [step_source] [step_late] step_selfish
           "selfish" "token_count" (init false)).
  - reflexivity.
  - reflexivity.
  - vm_compute. left. reflexivity.
  - intros P [<-|[]] k ns H. vm_compute in H. injection H as <- _. discriminate.
Defined.

Lemma security_suggestion_unless_runtime_injected_witness :
  [("auth_required", JBool true); ("secrets_handling", JStr "plaintext")] <> [] /\
  exists es ws ns,
    _validate_security
      (JObj [("auth_required", JBool true); ("secrets_handling", JStr "plaintext")])
      (init false)
    = Ok tt (mkValidator false ([] ++ es) ([] ++ ws) ([] ++ ns)) /\
    In runtime_injected_warning ws /\
    In (invalid_secrets_handling (JStr "plaintext")) es.
Proof.
  split; [discriminate|].
  destruct (security_suggestion_unless_runtime_injected
              [("auth_required", JBool true); ("secrets_handling", JStr "plaintext")]
              (init false)) as (es & ws & ns & Hrun & Hw & _ & He); [discriminate|].
  exists es, ws, ns. split; [exact Hrun|]. split.
  - apply Hw. discriminate.
  - apply (He (JStr "plaintext")); reflexivity.
Defined.

(** ** The further theorems at concrete workflows *)

Lemma validator_with_errors_never_passes_witness :
  errors (final_state (validate no_metadata_workflow (init false))) <> [] /\
  validate sample_workflow (final_state (validate no_metadata_workflow (init false)))
  = Ok false (final_state
                (validate sample_workflow
                   (final_state (validate no_metadata_workflow (init false))))) /\
  validate sample_workflow (init false)
  = Ok true (final_state (validate sample_workflow (init false))) /\
  false = false.
Proof.
  assert (errors (final_state (validate no_metadata_workflow (init false))) <> [])
    as Herr by (vm_compute; discriminate).
  assert (validate sample_workflow (final_state (validate no_metadata_workflow (init false)))
          = Ok false (final_state
                        (validate sample_workflow
                           (final_state (validate no_metadata_workflow (init false))))))
    as Hrun by (vm_compute; reflexivity).
  split; [exact Herr|]. split; [exact Hrun|]. split; [vm_compute; reflexivity|].
  exact (validator_with_errors_never_passes sample_workflow _ _ false Herr Hrun).
Defined.

Lemma circular_dependency_iff_cycle_witness :
  forallb dependency_shaped [step_first; step_ping; step_pong] = true /\
  searchable [step_first; step_ping; step_pong] /\
  exists found,
    _has_circular_dependency (JArr [step_first; step_ping; step_pong]) (init false)
    = Ok found (init false) /\
    (found = true <-> cyclic (graph_of [step_first; step_ping; step_pong] [])).
Proof.
  assert (searchable [step_first; step_ping; step_pong]) as Hroom.
  { unfold searchable. apply Nat.ltb_lt. vm_compute. reflexivity. }
  split; [reflexivity|]. split; [exact Hroom|].
  apply (circular_dependency_iff_cycle [step_first; step_ping; step_pong] (init false)).
  - reflexivity.
  - exact Hroom.
Defined.

Lemma unknown_dependency_is_reported_witness :
  forallb dependency_shaped [step_first; step_ping; step_pong] = true /\
  In (JStr "missing") (iterable (depends_on_of step_first)) /\
  In (unknown_dependency_error (JStr "first") (JStr "missing"))
     (errors (final_state
                (_validate_dependencies (JArr [step_first; step_ping; step_pong])
                   (init false)))).
Proof.
  split; [reflexivity|]. split; [left; reflexivity|].
  apply (unknown_dependency_is_reported [step_first; step_ping; step_pong] step_first
           (JStr "missing") (KStr "missing") (init false)).
  - reflexivity.
  - left. reflexivity.
  - left. reflexivity.
  - reflexivity.
  - vm_compute. intros [H|[H|[H|[]]]]; discriminate H.
Defined.

Lemma dependencies_accepted_iff_witness :
  forallb dependency_shaped [step_early; step_late] = true /\
  searchable [step_early; step_late] /\
  In (KStr "late") (step_deps step_early) /\
  (_validate_dependencies (JArr [step_early; step_late]) (init false) = Ok tt (init false) <->
   (forall step d, In step [step_early; step_late] -> In d (step_deps step) ->
                   In d (omap step_key [step_early; step_late])) /\
   ~ cyclic (graph_of [step_early; step_late] [])).
Proof.
  assert (searchable [step_early; step_late]) as Hroom.
  { unfold searchable. apply Nat.ltb_lt. vm_compute. reflexivity. }
  split; [reflexivity|]. split; [exact Hroom|]. split; [left; reflexivity|].
  apply (dependencies_accepted_iff [step_early; step_late] (init false)).
  - reflexivity.
  - exact Hroom.
Defined.

Lemma missing_section_is_reported_witness :
  In "metadata" required_keys /\
  lookup_key "metadata" [("inputs", JObj []); ("steps", JArr [step_source])] = None /\
  In (missing_key_error "metadata")
     (errors (final_state
                (validate (JObj [("inputs", JObj []); ("steps", JArr [step_source])])
                   (init false)))).
Proof.
  split; [left; reflexivity|]. split; [reflexivity|].
  apply (missing_section_is_reported [("inputs", JObj []); ("steps", JArr [step_source])]
           "metadata" (init false)).
  - left. reflexivity.
  - reflexivity.
Defined.

Lemma validate_needs_a_dictionary_witness :
  is_obj (JArr [step_source]) = false /\
  exists self', validate (JArr [step_source]) (init false) = Raise AttributeError self'.
Proof.
  split; [reflexivity|].
  apply (validate_needs_a_dictionary (JArr [step_source]) (init false)). reflexivity.
Defined.

Lemma name_must_be_a_string_witness :
  lookup_key "workflow_name" [("workflow_name", JInt 7); ("workflow_id", JStr "wf-007")]
  = Some (JInt 7) /\
  exists self', validate (JObj numbered_workflow) (init false) = Raise TypeError self'.
Proof.
  split; [reflexivity|].
  apply (name_must_be_a_string numbered_workflow
           [("workflow_name", JInt 7); ("workflow_id", JStr "wf-007")] (JInt 7)
           (init false)).
  - reflexivity.
  - reflexivity.
  - intros s H. discriminate H.
Defined.

Lemma optional_inputs_are_not_inspected_witness :
  has_key "optional" [("optional", JObj [("limit", JObj [("type", JStr "integer")])])]
  = has_key "optional" [("optional", JStr "anything")] /\
  _validate_inputs (JObj [("optional", JObj [("limit", JObj [("type", JStr "integer")])])])
    (init false)
  = _validate_inputs (JObj [("optional", JStr "anything")]) (init false).
Proof.
  split; [reflexivity|].
  apply (optional_inputs_are_not_inspected
           [("optional", JObj [("limit", JObj [("type", JStr "integer")])])]
           [("optional", JStr "anything")] (init false)); reflexivity.
Defined.

Lemma conditions_never_fail_witness :
  _check_pre_conditions guarded_workflow (new_executor sample_uuid4_hex true)
  = Ok true (final_state
               (_check_pre_conditions guarded_workflow (new_executor sample_uuid4_hex true))) /\
  true = true.
Proof.
  assert (_check_pre_conditions guarded_workflow (new_executor sample_uuid4_hex true)
          = Ok true (final_state
                       (_check_pre_conditions guarded_workflow
                          (new_executor sample_uuid4_hex true)))) as Hrun
    by (vm_compute; reflexivity).
  split; [exact Hrun|].
  exact (conditions_never_fail guarded_workflow _ _ true (or_introl Hrun)).
Defined.

Lemma dry_run_fails_only_on_a_dependency_witness :
  execute sample_uuid4_hex sample_now_isoformat subworkflow_workflow
    (new_executor sample_uuid4_hex false)
  = Ok false (final_state
                (execute sample_uuid4_hex sample_now_isoformat subworkflow_workflow
                   (new_executor sample_uuid4_hex false))) /\
  exists dep,
    last (stdout (final_state
                    (execute sample_uuid4_hex sample_now_isoformat subworkflow_workflow
                       (new_executor sample_uuid4_hex false))))
    = Some (dependency_fault dep).
Proof.
  assert (execute sample_uuid4_hex sample_now_isoformat subworkflow_workflow
            (new_executor sample_uuid4_hex false)
          = Ok false (final_state
                        (execute sample_uuid4_hex sample_now_isoformat subworkflow_workflow
                           (new_executor sample_uuid4_hex false)))) as Hrun
    by (vm_compute; reflexivity).
  split; [exact Hrun|].
  exact (dry_run_fails_only_on_a_dependency sample_uuid4_hex sample_now_isoformat
           subworkflow_workflow _ _ Hrun).
Defined.

Lemma steps_run_iff_in_order_witness :
  forallb execution_shaped [step_source; step_consumer; step_early; step_late] = true /\
  forallb resolvable [step_source; step_consumer; step_early; step_late] = true /\
  in_order ∅ [step_source; step_consumer] = true /\
  in_order ∅ [step_source; step_consumer; step_early; step_late] = false /\
  exists self',
    _execute_steps sample_uuid4_hex sample_now_isoformat
      (JObj [("steps", JArr [step_source; step_consumer; step_early; step_late])])
      (new_executor sample_uuid4_hex false)
    = Ok (in_order (entries (new_executor sample_uuid4_hex false))
            [step_source; step_consumer; step_early; step_late]) self'.
Proof.
  split; [reflexivity|]. split; [vm_compute; reflexivity|].
  split; [vm_compute; reflexivity|]. split; [vm_compute; reflexivity|].
  apply (steps_run_iff_in_order sample_uuid4_hex sample_now_isoformat
           [("steps", JArr [step_source; step_consumer; step_early; step_late])]
           [step_source; step_consumer; step_early; step_late]
           (new_executor sample_uuid4_hex false));
    [reflexivity | reflexivity | vm_compute; reflexivity].
Defined.

Lemma no_key_error_after_validation_witness :
  validate sample_workflow (init false)
  = Ok true (final_state (validate sample_workflow (init false))) /\
  forall self',
    execute sample_uuid4_hex sample_now_isoformat sample_workflow
      (new_executor sample_uuid4_hex false) <> Raise (KeyError (KStr "metadata")) self'.
Proof.
  assert (validate sample_workflow (init false)
          = Ok true (final_state (validate sample_workflow (init false)))) as Hrun
    by (vm_compute; reflexivity).
  split; [exact Hrun|]. intros self'.
  exact (no_key_error_after_validation sample_uuid4_hex sample_now_isoformat
           sample_workflow (init false) _ (new_executor sample_uuid4_hex false) self'
           (KStr "metadata") Hrun).
Defined.

Lemma data_flow_accepted_iff_witness :
  forallb data_flow_shaped [step_source; step_consumer] = true /\
  well_fed ∅ [step_source; step_consumer] = true /\
  well_fed ∅ [step_consumer; step_source] = false /\
  (_validate_data_flow (JArr [step_source; step_consumer]) (init false)
   = Ok tt (init false) <-> well_fed ∅ [step_source; step_consumer] = true).
Proof.
  split; [reflexivity|]. split; [vm_compute; reflexivity|].
  split; [vm_compute; reflexivity|].
  apply (data_flow_accepted_iff [step_source; step_consumer] (init false)). reflexivity.
Defined.

Lemma reference_to_a_later_step_is_unknown_witness :
  forallb data_flow_shaped ([] ++ step_consumer :: [step_source]) = true /\
  In ("source", "order_id") (references step_consumer) /\
  exists es ws,
    _validate_data_flow (JArr ([] ++ step_consumer :: [step_source])) (init false)
    = Ok tt (extended (init false) es ws) /\
    In (unknown_step_error (step_id_of step_consumer) "source") es.
Proof.
  split; [reflexivity|]. split; [vm_compute; left; reflexivity|].
  apply (reference_to_a_later_step_is_unknown [] [step_source] step_consumer
           "source" "order_id" (init false)).
  - reflexivity.
  - vm_compute. left. reflexivity.
  - intros P [].
Defined.

Lemma plain_inputs_pass_unchanged_witness :
  plain (JObj [("limit", JInt 10); ("tags", JArr [JStr "new"; JStr "paid"])]) = true /\
  nesting (JObj [("limit", JInt 10); ("tags", JArr [JStr "new"; JStr "paid"])])
  <= resolve_limit /\
  _resolve_inputs (JObj [("limit", JInt 10); ("tags", JArr [JStr "new"; JStr "paid"])])
    (new_executor sample_uuid4_hex false)
  = Ok (JObj [("limit", JInt 10); ("tags", JArr [JStr "new"; JStr "paid"])])
       (new_executor sample_uuid4_hex false).
Proof.
  assert (nesting (JObj [("limit", JInt 10); ("tags", JArr [JStr "new"; JStr "paid"])])
          <= resolve_limit) as Hroom
    by (apply Nat.leb_le; vm_compute; reflexivity).
  split; [vm_compute; reflexivity|]. split; [exact Hroom|].
  apply (plain_inputs_pass_unchanged
           (JObj [("limit", JInt 10); ("tags", JArr [JStr "new"; JStr "paid"])])
           (new_executor sample_uuid4_hex false)).
  - vm_compute. reflexivity.
  - exact Hroom.
Defined.

Lemma reference_is_substituted_witness :
  all_in (none_of ".") "source" = true /\
  all_in (none_of "}") "order_id" = true /\
  replace_ref sample_entries ["source"; "order_id"] = "mock_order_id_9f1c2e7a" /\
  resolve 1 sample_entries
    (JStr ("/orders/" +:+ step_ref "source" "order_id" +:+ "/lines"))
  = inr (JStr ("/orders/" +:+ replace_ref sample_entries ["source"; "order_id"]
               +:+ "/lines")).
Proof.
  split; [vm_compute; reflexivity|]. split; [vm_compute; reflexivity|].
  split; [vm_compute; reflexivity|].
  apply (reference_is_substituted 0 sample_entries "/orders/" "/lines" "source" "order_id").
  - vm_compute. reflexivity.
  - vm_compute. reflexivity.
  - discriminate.
  - vm_compute. reflexivity.
  - discriminate.
  - vm_compute. reflexivity.
  - vm_compute. reflexivity.
Defined.

Lemma outputs_follow_names_only_witness :
  map fst [("order_id", JStr "$.id"); ("total", JStr "$.total")]
  = map fst [("order_id", JStr "$.data.order.id"); ("total", JInt 0)] /\
  _simulate_outputs sample_uuid4_hex sample_now_isoformat
    (JObj [("outputs", JObj [("order_id", JStr "$.id"); ("total", JStr "$.total")])])
    (new_executor sample_uuid4_hex false)
  = _simulate_outputs sample_uuid4_hex sample_now_isoformat
      (JObj [("id", JStr "other");
             ("outputs", JObj [("order_id", JStr "$.data.order.id"); ("total", JInt 0)])])
      (new_executor sample_uuid4_hex false).
Proof.
  split; [reflexivity|].
  apply (outputs_follow_names_only sample_uuid4_hex sample_now_isoformat
           [("outputs", JObj [("order_id", JStr "$.id"); ("total", JStr "$.total")])]
           [("id", JStr "other");
            ("outputs", JObj [("order_id", JStr "$.data.order.id"); ("total", JInt 0)])]
           [("order_id", JStr "$.id"); ("total", JStr "$.total")]
           [("order_id", JStr "$.data.order.id"); ("total", JInt 0)]
           (new_executor sample_uuid4_hex false)); reflexivity.
Defined.

Lemma duplicate_id_is_reported_witness :
  step_key step_source = Some (KStr "source") /\
  step_key step_source_again = Some (KStr "source") /\
  In (duplicate_error (JStr "source"))
     (errors (final_state
                (_validate_steps (JArr ([] ++ step_source :: [step_late]
                                        ++ step_source_again :: []))
                   (init false)))).
Proof.
  split; [reflexivity|]. split; [reflexivity|].
  apply (duplicate_id_is_reported [] [step_late] [] step_source step_source_again
           (KStr "source") (init false)).
  - reflexivity.
  - reflexivity.
  - vm_compute. reflexivity.
Defined.


Lemma strict_fails_after_passed_report_witness :
  validate sample_workflow (init true)
  = Ok true (final_state (validate sample_workflow (init true))) /\
  warnings (final_state (validate sample_workflow (init true))) <> [] /\
  snd (main "workflow_map.json" true (Loaded sample_workflow)) = inr 1 /\
  In passed_with_warnings (fst (main "workflow_map.json" true (Loaded sample_workflow))).
Proof.
  assert (validate sample_workflow (init true)
          = Ok true (final_state (validate sample_workflow (init true)))) as Hrun
    by (vm_compute; reflexivity).
  assert (warnings (final_state (validate sample_workflow (init true))) <> []) as Hwarn
    by (vm_compute; discriminate).
  split; [exact Hrun|]. split; [exact Hwarn|].
  exact (strict_fails_after_passed_report "workflow_map.json" sample_workflow _ Hrun Hwarn).
Defined.


Lemma dry_run_succeeds_iff_in_order_witness :
  runnable sample_workflow = true /\
  exists self',
    execute sample_uuid4_hex sample_now_isoformat sample_workflow
      (new_executor sample_uuid4_hex false)
    = Ok (in_order (entries (new_executor sample_uuid4_hex false))
            (steps_of sample_workflow)) self'.
Proof.
  assert (runnable sample_workflow = true) as Htyped by (vm_compute; reflexivity).
  split; [exact Htyped|].
  exact (dry_run_succeeds_iff_in_order sample_uuid4_hex sample_now_isoformat
           sample_workflow (new_executor sample_uuid4_hex false) Htyped).
Defined.
